(** * remotedebug-ios-webkit-adapter: adapters, collections and the iOS adapter

    A shallow embedding of [src/adapters/adapter.ts],
    [src/adapters/adapterCollection.ts], [src/adapters/iosAdapter.ts] and
    [src/adapters/testAdapter.ts].

    Conventions of the embedding:
    - a JavaScript string is a [string] of 8-bit code units;
    - [undefined]/[null] of an optional field is [None];
    - a JavaScript object with identity (a [Target], a [WebSocket]) is a
      reference into an explicit store;
    - a [Map] whose iteration order is observed is an association list in
      insertion order, the other ones are [gmap]s;
    - a promise is represented by the way it settles;
    - what an adapter does to the outside (log entries, requests, backend
      connections, processes) is recorded in a trace, and what the
      outside answers is read from an environment.

    Left out: the wiring of the event emitters, the output of [debug]
    and the lookup of the proxy executable on the host. *)

From Stdlib Require Import ZArith Ascii String List Lia Bool DecimalString DecimalZ.
From stdpp Require Import base option list gmap strings.

Open Scope string_scope.

(** ** JavaScript primitives used by the adapters *)

Module JS.

(** [!s] is [true] exactly for the empty string. *)
Definition truthy (s : string) : bool :=
  match s with
  | EmptyString => false
  | String _ _ => true
  end.

(** Truthiness of an optional string field ([undefined] is falsy). *)
Definition truthy_opt (o : option string) : bool :=
  match o with
  | Some s => truthy s
  | None => false
  end.

(** [a === s] for an optional string [a] and a string [s]. *)
Definition strictEq (a : option string) (s : string) : bool :=
  match a with
  | Some x => String.eqb x s
  | None => false
  end.

(** [a || b] on optional strings. *)
Definition or_else (a b : option string) : option string :=
  if truthy_opt a then a else b.

Fixpoint drop (n : nat) (s : string) : string :=
  match n, s with
  | O, _ => s
  | S _, EmptyString => EmptyString
  | S n', String _ r => drop n' r
  end.

Fixpoint take (n : nat) (s : string) : string :=
  match n, s with
  | O, _ => EmptyString
  | S _, EmptyString => EmptyString
  | S n', String c r => String c (take n' r)
  end.

(** Position of the first [c] in [s], [None] for [-1]. *)
Fixpoint find_char (c : ascii) (s : string) : option nat :=
  match s with
  | EmptyString => None
  | String x r => if Ascii.eqb x c then Some O else S <$> find_char c r
  end.

(** [s.indexOf(c, from)] for a one-character needle. *)
Definition indexOf (c : ascii) (from : nat) (s : string) : option nat :=
  (fun i => from + i) <$> find_char c (drop from s).

(** [s.substr(start, len)] and [s.substr(start)], for [start >= 0]. *)
Definition substr (start len : nat) (s : string) : string :=
  take len (drop start s).

Definition substr_from (start : nat) (s : string) : string :=
  drop start s.

(** The rest of [s] after the prefix [p], when [s] starts with [p]. *)
Fixpoint strip_prefix (p s : string) : option string :=
  match p, s with
  | EmptyString, _ => Some s
  | String _ _, EmptyString => None
  | String a p', String b s' => if Ascii.eqb a b then strip_prefix p' s' else None
  end.

(** [s.replace(pat, rep)] for a string pattern: only the first
    occurrence is replaced. *)
Fixpoint replace (pat rep s : string) : string :=
  match strip_prefix pat s with
  | Some r => rep ++ r
  | None =>
      match s with
      | EmptyString => EmptyString
      | String x r => String x (replace pat rep r)
      end
  end.

(** [s.split(c)]: never the empty array. *)
Fixpoint split (c : ascii) (s : string) : list string :=
  match s with
  | EmptyString => [EmptyString]
  | String x r =>
      if Ascii.eqb x c then EmptyString :: split c r
      else match split c r with
           | h :: t => String x h :: t
           | [] => [String x EmptyString]
           end
  end.

(** White space skipped by [parseInt] (the code units below 256). *)
Definition is_space (c : ascii) : bool :=
  let n := nat_of_ascii c in
  Nat.eqb n 9 || Nat.eqb n 10 || Nat.eqb n 11 || Nat.eqb n 12
  || Nat.eqb n 13 || Nat.eqb n 32 || Nat.eqb n 160.

Definition digit_of (c : ascii) : option Z :=
  let n := nat_of_ascii c in
  if Nat.leb 48 n && Nat.leb n 57 then Some (Z.of_nat (n - 48)) else None.

Fixpoint skip_space (s : string) : string :=
  match s with
  | String c r => if is_space c then skip_space r else s
  | EmptyString => EmptyString
  end.

(** Value of the longest prefix of decimal digits, [acc] being the value
    of the digits already read. *)
Fixpoint digits (acc : Z) (s : string) : Z :=
  match s with
  | String c r =>
      match digit_of c with
      | Some d => digits (10 * acc + d)%Z r
      | None => acc
      end
  | EmptyString => acc
  end.

Definition unsigned_int (s : string) : option Z :=
  match s with
  | String c _ =>
      match digit_of c with
      | Some _ => Some (digits 0%Z s)
      | None => None
      end
  | EmptyString => None
  end.

(** [parseInt(s, 10)]; [None] is [NaN]. The integer is exact, which is
    all the comparisons made on it by the adapters depend on. *)
Definition parseInt (s : string) : option Z :=
  match skip_space s with
  | String "-"%char r => Z.opp <$> unsigned_int r
  | String "+"%char r => unsigned_int r
  | t => unsigned_int t
  end.

(** [String(n)] for an integer [n]. *)
Definition string_of_Z (n : Z) : string :=
  NilZero.string_of_int (Z.to_int n).

(** [s.trimEnd()] *)
Fixpoint trimEnd (s : string) : string :=
  match s with
  | String c r =>
      match trimEnd r with
      | EmptyString => if is_space c then EmptyString else String c EmptyString
      | r' => String c r'
      end
  | EmptyString => EmptyString
  end.

(** [s.trim()] *)
Definition trim (s : string) : string := trimEnd (skip_space s).

End JS.

(** ** Data model *)

(** Identity of a client-side socket object. *)
Abbreviation WebSocket := nat (only parsing).

(** Reference to a [Target] object in the store: its position there. *)
Abbreviation TargetRef := nat (only parsing).

(** The device descriptor served by the enumeration proxy
    ([IIOSDeviceTarget]), with the fields the adapters read or write. *)
Module IIOSDeviceTarget.
Record t := mk {
  deviceId : option string;
  deviceOSVersion : option string;
  url : option string;
  version : option string
}.
End IIOSDeviceTarget.

#[local] Set Warnings "-register-all".

(** Values of type [any] handed around as metadata. *)
Inductive Any :=
| Undefined
| Null
| Str (s : string)
| Device (d : IIOSDeviceTarget.t)
| Arr (l : list Any).

Module AnyOps.
(** Truthiness of a metadata value. *)
Definition truthy (m : Any) : bool :=
  match m with
  | Undefined | Null => false
  | Str s => JS.truthy s
  | Device _ | Arr _ => true
  end.

(** [m[index]] on an array; a missing element is [undefined]. *)
Definition at_index (l : list Any) (index : nat) : Any :=
  match l !! index with
  | Some x => x
  | None => Undefined
  end.

(** [(m as IIOSDeviceTarget).version]. *)
Definition version (m : Any) : option string :=
  match m with
  | Device d => IIOSDeviceTarget.version d
  | _ => None
  end.
End AnyOps.

(** The target descriptor ([ITarget]). *)
Module ITarget.
Record t := mk {
  id : option string;
  adapterType : option string;
  type : option string;
  metadata : Any;
  webSocketDebuggerUrl : option string;
  devtoolsFrontendUrl : option string;
  description : option string;
  faviconUrl : option string;
  title : option string;
  url : option string
}.
End ITarget.

Module IAdapterOptions.
Record t := mk {
  pollingInterval : option Z;
  baseUrl : option string;
  path : option string;
  port : option Z;
  proxyExePath : option string;
  proxyExeArgs : option (list string)
}.

(** The literal [{}]. *)
Definition empty : t := mk None None None None None None.
End IAdapterOptions.

(** Modelled from the spec: the session bridge [Target] of
    [src/protocols/target.ts], which is not part of the sources at hand.
    Following the collaborator contract, a session is built from a target
    id and its stored descriptor, connects a client socket to the real
    endpoint, and can have its client side rebound; [data] is the
    descriptor it was built from. *)
Module Target.
Record t := mk {
  targetId : string;
  data : ITarget.t;
  endpoint : option (option string);
  client : option WebSocket
}.

(** [new Target(targetId, data)] *)
Definition new (targetId : string) (data : ITarget.t) : t :=
  mk targetId data None None.

(** [target.connectTo(url, wsFrom)] *)
Definition connectTo (url : option string) (wsFrom : WebSocket) (x : t) : t :=
  mk (targetId x) (data x) (Some url) (Some wsFrom).

(** [target.updateClient(wsFrom)] *)
Definition updateClient (wsFrom : WebSocket) (x : t) : t :=
  mk (targetId x) (data x) (endpoint x) (Some wsFrom).
End Target.

(** A managed child process ([ChildProcess]). *)
Record ChildProcess := { pid : nat; exePath : string; exeArgs : list string }.

(** How a promise settles; a rejection carries the message of its error. *)
Inductive Settled (A : Type) :=
| Resolved (a : A)
| Rejected (e : string).
Arguments Resolved {A} a.
Arguments Rejected {A} e.

(** How a synchronous call ends. *)
Inductive Call (A : Type) :=
| Returns (a : A)
| Throws (e : string).
Arguments Returns {A} a.
Arguments Throws {A} e.

(** ** The world outside an adapter *)

Inductive Level := LError | LInfo.

(** Effects an adapter has on the outside, in the order they happen. *)
Inductive Event :=
| Log (level : Level) (msg : string)
| HttpGet (url : string)
| BackendConnect (target : TargetRef) (url : option string)
| Spawn (path : string) (args : list string)
| Kill (p : ChildProcess) (signal : string).

(** The mutable part: the objects allocated so far and the trace. *)
Record World := { heap : list Target.t; trace : list Event }.

Definition emit (e : Event) (w : World) : World :=
  {| heap := heap w; trace := (trace w ++ [e])%list |}.

(** [Logger.error] and [Logger.log]. *)
Definition Logger_error (msg : string) (w : World) : World := emit (Log LError msg) w.
Definition Logger_log (msg : string) (w : World) : World := emit (Log LInfo msg) w.

(** An error is known by its message [e]; in a template string it
    reads [String(e)]. *)
Definition render_error (e : string) : string := "Error: " ++ e.

(** A parsed JSON body, typed as the code types it: either not an array,
    or an array whose elements are descriptors or [null]. *)
Inductive Parsed (T : Type) :=
| NotArray
| IsArray (elements : list (option T)).
Arguments NotArray {T}.
Arguments IsArray {T} elements.

Record IncomingMessage := { statusCode : Z }.

(** What the [request] callback is called with. *)
Record Reply := {
  error : option string;
  response : option IncomingMessage;
  body : option string
}.

(** The ways one HTTP request can go: [request] throws at once, its
    callback runs before the 10 second timer, or the timer fires first
    (and the callback may still run afterwards). *)
Inductive RequestOutcome :=
| RequestThrows (e : string)
| Answered (r : Reply)
| TimedOut (late : option Reply).

(** What happens to a spawned process during the 200 ms grace window. *)
Inductive EarlyEvent :=
| ProcError (err : string)
| ProcClose (code : string)
| ProcExit (code signal : string).

Inductive SpawnOutcome :=
| SpawnThrows (e : string)
| Spawned (p : ChildProcess) (early : option EarlyEvent).

(** The read-only part: what the libraries and the outside answer. *)
Record Env := {
  JSON_parse_targets : string -> Call (Parsed ITarget.t);
  JSON_parse_devices : string -> Call (Parsed IIOSDeviceTarget.t);
  request : string -> RequestOutcome;
  spawn : string -> list string -> SpawnOutcome;
  (** whether [target.connectTo(url, ws)] returns or throws *)
  bridge : option string -> WebSocket -> Call unit
}.

(** ** The leaf adapter ([adapter.ts]) *)

Module Adapter.

Record t := mk {
  _id : string;
  _adapterType : string;
  _proxyUrl : string;
  _options : IAdapterOptions.t;
  _url : string;
  _proxyProc : option ChildProcess;
  _targetMap : gmap string TargetRef;
  _targetIdToTargetDataMap : gmap string ITarget.t
}.

Definition set_proxyProc (p : option ChildProcess) (a : t) : t :=
  mk (_id a) (_adapterType a) (_proxyUrl a) (_options a) (_url a) p
     (_targetMap a) (_targetIdToTargetDataMap a).

Definition set_targetMap (m : gmap string TargetRef) (a : t) : t :=
  mk (_id a) (_adapterType a) (_proxyUrl a) (_options a) (_url a)
     (_proxyProc a) m (_targetIdToTargetDataMap a).

Definition set_targetIdToTargetDataMap (m : gmap string ITarget.t) (a : t) : t :=
  mk (_id a) (_adapterType a) (_proxyUrl a) (_options a) (_url a)
     (_proxyProc a) (_targetMap a) m.

(** [n || d] on an optional number and [s || d] on an optional string. *)
Definition number_or (o : option Z) (d : Z) : Z :=
  match o with
  | Some n => if Z.eqb n 0 then d else n
  | None => d
  end.

Definition string_or (o : option string) (d : string) : string :=
  match o with
  | Some s => if JS.truthy s then s else d
  | None => d
  end.

(** [constructor(id, socket, options)] *)
Definition new (id socket : string) (options : option IAdapterOptions.t) : t :=
  let options := default IAdapterOptions.empty options in
  let pollingInterval := number_or (IAdapterOptions.pollingInterval options) 3000 in
  let baseUrl := string_or (IAdapterOptions.baseUrl options) "http://127.0.0.1" in
  let path := string_or (IAdapterOptions.path options) "/json" in
  let port := number_or (IAdapterOptions.port options) 9222 in
  let options :=
    IAdapterOptions.mk (Some pollingInterval) (Some baseUrl) (Some path) (Some port)
      (IAdapterOptions.proxyExePath options) (IAdapterOptions.proxyExeArgs options) in
  let url := baseUrl ++ ":" ++ JS.string_of_Z port ++ path in
  let adapterType :=
    match JS.indexOf "/" 1 id with
    | Some index => "_" ++ JS.substr 1 (index - 1) id
    | None => JS.replace "/" "_" id
    end in
  mk id adapterType socket options url None ∅ ∅.

Section WithEnv.
Variable env : Env.

(** [spawnProcess(path, args)] *)
Definition spawnProcess (path : string) (args : option (list string))
    (a : t) (w : World) : Settled ChildProcess * t * World :=
  match _proxyProc a with
  | Some _ =>
      (Rejected "adapter.spawnProcess.error: process already started", a, w)
  | None =>
      if negb (JS.truthy path) then
        (Rejected "adapter.spawnProcess.error: no path provided", a, w)
      else
        let args := default [] args in
        match spawn env path args with
        | SpawnThrows e =>
            (Rejected e, a,
             Logger_error ("Adapter " ++ _id a ++ " spawnProcess spawn error: "
                           ++ render_error e) w)
        | Spawned p early =>
            let a := set_proxyProc (Some p) a in
            let w := emit (Spawn path args) w in
            match early with
            | Some (ProcError err) =>
                (Rejected ("adapter.spawnProcess.error: " ++ render_error err), a, w)
            | Some (ProcClose code) =>
                (Rejected ("adapter.spawnProcess.close: code=" ++ code), a, w)
            | Some (ProcExit code signal) =>
                (Rejected ("adapter.spawnProcess.exit: code=" ++ code
                           ++ ", signal=" ++ signal), a, w)
            | None => (Resolved p, a, w)
            end
        end
  end.

(** What [start()] resolves to. *)
Inductive Started :=
| Skipped
| Process (p : ChildProcess).

(** [start()] *)
Definition start (a : t) (w : World) : Settled Started * t * World :=
  match IAdapterOptions.proxyExePath (_options a) with
  | Some path =>
      if JS.truthy path then
        match spawnProcess path (IAdapterOptions.proxyExeArgs (_options a)) a w with
        | (Resolved p, a, w) => (Resolved (Process p), a, w)
        | (Rejected e, a, w) =>
            (Rejected e, a,
             Logger_error ("Adapter " ++ _id a ++ " start error: " ++ render_error e) w)
        end
      else (Resolved Skipped, a, w)
  | None => (Resolved Skipped, a, w)
  end.

(** [stop()] *)
Definition stop (a : t) (w : World) : t * World :=
  match _proxyProc a with
  | Some p => (set_proxyProc None a, emit (Kill p "SIGTERM") w)
  | None => (a, w)
  end.

(** [setTargetInfo(t, metadata)] for an object [t]. The stored copy is
    taken before the public URLs are overwritten. *)
Definition setTargetInfo (x : ITarget.t) (metadata : Any) (a : t) (w : World)
    : ITarget.t * t * World :=
  match JS.or_else (ITarget.id x) (ITarget.webSocketDebuggerUrl x) with
  | Some id =>
      if JS.truthy id then
        let type := JS.or_else (ITarget.type x) (Some "page") in
        let targetData :=
          ITarget.mk (Some id) (Some (_adapterType a)) type metadata
            (ITarget.webSocketDebuggerUrl x) (ITarget.devtoolsFrontendUrl x)
            (ITarget.description x) (ITarget.faviconUrl x) (ITarget.title x)
            (ITarget.url x) in
        let a' :=
          set_targetIdToTargetDataMap
            (<[id := targetData]> (_targetIdToTargetDataMap a)) a in
        let wsUrl := JS.replace "ws://" "" (_proxyUrl a) ++ _id a ++ "/" ++ id in
        (ITarget.mk (Some id) (Some (_adapterType a)) type metadata
           (Some (_proxyUrl a ++ _id a ++ "/" ++ id))
           (Some ("https://chrome-devtools-frontend.appspot.com/serve_file/@fcea73228632975e052eb90fcf6cd1752d3b42b4/inspector.html?experiments=true&remoteFrontend=screencast&ws=" ++ wsUrl))
           (ITarget.description x) (ITarget.faviconUrl x) (ITarget.title x)
           (ITarget.url x),
         a', w)
      else
        (ITarget.mk (Some (string_or (ITarget.id x) "unknown"))
           (Some (_adapterType a)) (Some "page") metadata
           (Some (_proxyUrl a ++ _id a ++ "/unknown")) (Some "")
           (Some (string_or (ITarget.description x) ""))
           (Some (string_or (ITarget.faviconUrl x) ""))
           (Some (string_or (ITarget.title x) "Unknown Target"))
           (Some (string_or (ITarget.url x) "")),
         a,
         Logger_error ("Adapter " ++ _id a ++ " setTargetInfo error: "
                       ++ render_error "Target has no id or webSocketDebuggerUrl") w)
  | None =>
      (ITarget.mk (Some (string_or (ITarget.id x) "unknown"))
         (Some (_adapterType a)) (Some "page") metadata
         (Some (_proxyUrl a ++ _id a ++ "/unknown")) (Some "")
         (Some (string_or (ITarget.description x) ""))
         (Some (string_or (ITarget.faviconUrl x) ""))
         (Some (string_or (ITarget.title x) "Unknown Target"))
         (Some (string_or (ITarget.url x) "")),
       a,
       Logger_error ("Adapter " ++ _id a ++ " setTargetInfo error: "
                     ++ render_error "Target has no id or webSocketDebuggerUrl") w)
  end.

(** The body of [rawTargets.forEach]; the rendering of the skipped
    element in the message is left out. *)
Definition eachTarget (metadata : Any) (acc : list ITarget.t * t * World)
    (x : option ITarget.t) : list ITarget.t * t * World :=
  let '(targets, a, w) := acc in
  match x with
  | Some x' =>
      if JS.truthy_opt (ITarget.id x') || JS.truthy_opt (ITarget.webSocketDebuggerUrl x')
      then
        let '(x'', a', w') := setTargetInfo x' metadata a w in
        ((targets ++ [x''])%list, a', w')
      else
        (targets, a,
         Logger_log ("Adapter " ++ _id a ++ " getTargets: Skipping invalid target: ") w)
  | None =>
      (targets, a,
       Logger_log ("Adapter " ++ _id a ++ " getTargets: Skipping invalid target: ") w)
  end.

(** The callback handed to [request]: what it passes to [resolve]. *)
Definition onReply (metadata : Any) (r : Reply) (a : t) (w : World)
    : list ITarget.t * t * World :=
  match error r with
  | Some e =>
      ([], a, Logger_error ("Adapter " ++ _id a ++ " getTargets request error: "
                                ++ render_error e) w)
  | None =>
      match response r with
      | None =>
          ([], a,
           Logger_error ("Adapter " ++ _id a ++ " getTargets: No response received") w)
      | Some resp =>
          if negb (Z.eqb (statusCode resp) 200) then
            ([], a,
             Logger_error ("Adapter " ++ _id a ++ " getTargets: HTTP "
                           ++ JS.string_of_Z (statusCode resp)) w)
          else
            match body r with
            | Some b =>
                if JS.truthy b then
                  match JSON_parse_targets env b with
                  | Throws parseError =>
                      ([], a,
                       Logger_error ("Adapter " ++ _id a
                                     ++ " getTargets response body: " ++ b)
                         (Logger_error ("Adapter " ++ _id a
                                        ++ " getTargets JSON parse error: "
                                        ++ render_error parseError) w))
                  | Returns NotArray =>
                      ([], a,
                       Logger_error ("Adapter " ++ _id a
                                     ++ " getTargets: Response is not an array") w)
                  | Returns (IsArray rawTargets) =>
                      fold_left (eachTarget metadata) rawTargets ([], a, w)
                  end
                else
                  ([], a,
                   Logger_log ("Adapter " ++ _id a
                               ++ " getTargets: Empty response body") w)
            | None =>
                ([], a,
                 Logger_log ("Adapter " ++ _id a ++ " getTargets: Empty response body") w)
            end
      end
  end.

(** [getTargets(metadata)]: the promise it returns is settled by the
    first call of [resolve]; a reply that arrives after the timer has
    fired still runs the callback. *)
Definition getTargets (metadata : Any) (a : t) (w : World)
    : Settled (list ITarget.t) * t * World :=
  match request env (_url a) with
  | RequestThrows requestError =>
      (Resolved [], a,
       Logger_error ("Adapter " ++ _id a ++ " getTargets request setup error: "
                     ++ render_error requestError) w)
  | Answered r =>
      let '(targets, a', w') := onReply metadata r a (emit (HttpGet (_url a)) w) in
      (Resolved targets, a', w')
  | TimedOut late =>
      let w1 :=
        Logger_error ("Adapter " ++ _id a ++ " getTargets timeout after 10 seconds")
          (emit (HttpGet (_url a)) w) in
      match late with
      | Some r =>
          let '(_, a', w') := onReply metadata r a w1 in
          (Resolved [], a', w')
      | None => (Resolved [], a, w1)
      end
  end.

(** [connectTo(targetId, wsFrom)]; [None] for a missing argument. *)
Definition connectTo (targetId : string) (wsFrom : option WebSocket)
    (a : t) (w : World) : option TargetRef * t * World :=
  if negb (JS.truthy targetId) then
    (None, a, Logger_error ("Adapter " ++ _id a ++ " connectTo: No targetId provided") w)
  else
    match wsFrom with
    | None =>
        (None, a,
         Logger_error ("Adapter " ++ _id a ++ " connectTo: No WebSocket provided") w)
    | Some ws =>
        match _targetIdToTargetDataMap a !! targetId with
        | None =>
            (None, a,
             Logger_error ("Adapter " ++ _id a ++ ": No endpoint url found for id "
                           ++ targetId) w)
        | Some targetData =>
            match _targetMap a !! targetId with
            | Some existingTarget =>
                (Some existingTarget, a,
                 {| heap := alter (Target.updateClient ws) existingTarget (heap w);
                    trace := trace w |})
            | None =>
                let target := length (heap w) in
                let w1 :=
                  {| heap := (heap w ++ [Target.new targetId targetData])%list;
                     trace := trace w |} in
                let url := ITarget.webSocketDebuggerUrl targetData in
                match bridge env url ws with
                | Returns _ =>
                    (Some target,
                     set_targetMap (<[targetId := target]> (_targetMap a)) a,
                     emit (BackendConnect target url)
                       {| heap := alter (Target.connectTo url ws) target (heap w1);
                          trace := trace w1 |})
                | Throws e =>
                    (None, a,
                     Logger_error ("Adapter " ++ _id a ++ " connectTo error: "
                                   ++ render_error e) w1)
                end
            end
        end
    end.

(** [forwardTo(targetId, message)]. What [target.forward(message)] does
    is given by [forward]: it returns or throws; the frames handed to
    the sessions are kept in [sent], in their order. *)
Definition forwardTo (forward : TargetRef -> string -> Call unit)
    (targetId message : string) (a : t) (w : World) (sent : list (TargetRef * string))
    : World * list (TargetRef * string) :=
  if negb (JS.truthy targetId) then
    (Logger_error ("Adapter " ++ _id a ++ " forwardTo: No targetId provided") w, sent)
  else if negb (JS.truthy message) then
    (Logger_log ("Adapter " ++ _id a ++ " forwardTo: Empty message") w, sent)
  else
    match _targetMap a !! targetId with
    | None =>
        (Logger_error ("Adapter " ++ _id a ++ ": No target found for id " ++ targetId) w,
         sent)
    | Some target =>
        match forward target message with
        | Returns _ => (w, (sent ++ [(target, message)])%list)
        | Throws e =>
            (Logger_error ("Adapter " ++ _id a ++ " forwardTo error: " ++ render_error e) w,
             sent)
        end
    end.

(** [refreshProcess(process, path, args)]: the process is signalled,
    then, a second later, [spawnProcess] is called. *)
Definition refreshProcess (process : option ChildProcess) (path : string)
    (args : option (list string)) (a : t) (w : World)
    : Settled ChildProcess * t * World :=
  let w1 :=
    match process with
    | Some p => emit (Kill p "SIGTERM") w
    | None => w
    end in
  match spawnProcess path args a w1 with
  | (Resolved p, a', w2) => (Resolved p, a', w2)
  | (Rejected e, a', w2) =>
      (Rejected e, a',
       Logger_error ("Adapter " ++ _id a ++ " refreshProcess error: " ++ render_error e) w2)
  end.

(** [forceRefresh()]: its promise always resolves. *)
Definition forceRefresh (a : t) (w : World) : t * World :=
  match _proxyProc a, IAdapterOptions.proxyExePath (_options a),
        IAdapterOptions.proxyExeArgs (_options a) with
  | Some p, Some path, Some args =>
      if JS.truthy path then
        match refreshProcess (Some p) path (Some args) a w with
        | (Resolved _, a', w') => (a', w')
        | (Rejected e, a', w') =>
            (a', Logger_error ("Adapter " ++ _id a ++ " forceRefresh error: "
                               ++ render_error e) w')
        end
      else (a, w)
  | _, _, _ => (a, w)
  end.

End WithEnv.

End Adapter.


(** ** The adapter collection ([adapterCollection.ts]) *)

(** A [Map] iterated in insertion order. *)
Module OrderedMap.

Fixpoint get {V : Type} (k : string) (m : list (string * V)) : option V :=
  match m with
  | [] => None
  | (k', v) :: rest => if String.eqb k' k then Some v else get k rest
  end.

Definition has {V : Type} (k : string) (m : list (string * V)) : bool :=
  match get k m with
  | Some _ => true
  | None => false
  end.

(** [m.set(k, v)]: an existing key keeps its place. *)
Fixpoint set {V : Type} (k : string) (v : V) (m : list (string * V)) : list (string * V) :=
  match m with
  | [] => [(k, v)]
  | (k', v') :: rest =>
      if String.eqb k' k then (k', v) :: rest else (k', v') :: set k v rest
  end.

End OrderedMap.

Module AdapterCollection.

(** What a collection calls on a registered adapter, whatever subclass of
    [Adapter] it is: each call ends by returning or by throwing, and hands
    back the adapter as the call left it. *)
Class Child (C : Type) := {
  child_getTargets :
    Env -> Any -> C -> World -> Call (Settled (list ITarget.t)) * C * World;
  child_connectTo :
    Env -> string -> option WebSocket -> C -> World -> Call (option TargetRef) * C * World
}.

(** The collection: the adapter it extends and its registry, where a
    value that is [null] or [undefined] is [None]. *)
Record t (C : Type) := mk {
  base : Adapter.t;
  _adapters : list (string * option C)
}.
Arguments mk {C} base _adapters.
Arguments base {C} _.
Arguments _adapters {C} _.

(** [constructor(id, proxyUrl, options)] *)
Definition new {C : Type} (id proxyUrl : string) (options : option IAdapterOptions.t) : t C :=
  mk (Adapter.new id proxyUrl options) [].

(** [Array.isArray(metadata) ? metadata[index] : metadata], or [null]
    for falsy metadata. *)
Definition targetMetadata (metadata : Any) (index : nat) : Any :=
  if AnyOps.truthy metadata then
    match metadata with
    | Arr l => AnyOps.at_index l index
    | m => m
    end
  else Null.

(** [getWebSocketId(url)] *)
Definition getWebSocketId (this_id : string) (url : string) (w : World)
    : option (string * string) * World :=
  if negb (JS.truthy url) then
    (None,
     Logger_error ("AdapterCollection " ++ this_id ++ " getWebSocketId: Invalid URL: " ++ url) w)
  else
    match JS.indexOf "/" 1 url with
    | None =>
        (None,
         Logger_error ("AdapterCollection " ++ this_id
                       ++ " getWebSocketId: No separator found in URL: " ++ url) w)
    | Some index =>
        let adapterId := JS.substr 0 index url in
        let targetId := JS.substr_from (index + 1) url in
        if negb (JS.truthy adapterId) || negb (JS.truthy targetId) then
          (None,
           Logger_error ("AdapterCollection " ++ this_id
                         ++ " getWebSocketId: Empty adapterId or targetId from URL: "
                         ++ url) w)
        else (Some (adapterId, targetId), w)
    end.

Section WithChildren.
Context {C : Type} `{Child C}.
Variable env : Env.

(** The body of [this._adapters.forEach] in [getTargets], from the
    adapter at position [index] of the promises pushed so far on. It gives
    what each pushed promise resolves to (a rejection is turned into the
    empty list by its [catch]), the adapters as the calls left them, and
    the world. *)
Fixpoint eachAdapter (this_id : string) (metadata : Any)
    (adapters : list (string * option C)) (index : nat) (w : World)
    : list (list ITarget.t) * list (string * option C) * World :=
  match adapters with
  | [] => ([], [], w)
  | (adapterId, None) :: rest =>
      let w1 :=
        Logger_error ("AdapterCollection " ++ this_id ++ " invalid adapter " ++ adapterId) w in
      let '(promises, rest', w2) := eachAdapter this_id metadata rest index w1 in
      (promises, (adapterId, None) :: rest', w2)
  | (adapterId, Some adapter) :: rest =>
      match child_getTargets env (targetMetadata metadata index) adapter w with
      | (Throws e, adapter', w1) =>
          let w2 :=
            Logger_error ("AdapterCollection " ++ this_id ++ " error processing adapter "
                          ++ adapterId ++ ": " ++ render_error e) w1 in
          let '(promises, rest', w3) := eachAdapter this_id metadata rest index w2 in
          (promises, (adapterId, Some adapter') :: rest', w3)
      | (Returns (Rejected e), adapter', w1) =>
          let w2 :=
            Logger_error ("AdapterCollection " ++ this_id ++ " adapter " ++ adapterId
                          ++ " getTargets error: " ++ render_error e) w1 in
          let '(promises, rest', w3) := eachAdapter this_id metadata rest (S index) w2 in
          ([] :: promises, (adapterId, Some adapter') :: rest', w3)
      | (Returns (Resolved targets), adapter', w1) =>
          let '(promises, rest', w2) := eachAdapter this_id metadata rest (S index) w1 in
          (targets :: promises, (adapterId, Some adapter') :: rest', w2)
      end
  end.

(** [getTargets(metadata)] *)
Definition getTargets (metadata : Any) (c : t C) (w : World)
    : Settled (list ITarget.t) * t C * World :=
  let this_id := Adapter._id (base c) in
  let '(promises, adapters, w1) := eachAdapter this_id metadata (_adapters c) 0 w in
  match promises with
  | [] =>
      (Resolved [], mk (base c) adapters,
       Logger_log ("AdapterCollection " ++ this_id
                   ++ " getTargets: No valid adapters found") w1)
  | _ :: _ =>
      (Resolved (fold_left (fun allTargets targets => (allTargets ++ targets)%list)
                   promises []),
       mk (base c) adapters, w1)
  end.

(** [connectTo(url, wsFrom)] *)
Definition connectTo (url : string) (wsFrom : option WebSocket) (c : t C) (w : World)
    : option TargetRef * t C * World :=
  let this_id := Adapter._id (base c) in
  if negb (JS.truthy url) then
    (None, c,
     Logger_error ("AdapterCollection " ++ this_id ++ " connectTo: No URL provided") w)
  else
    match wsFrom with
    | None =>
        (None, c,
         Logger_error ("AdapterCollection " ++ this_id
                       ++ " connectTo: No WebSocket provided") w)
    | Some ws =>
        match getWebSocketId this_id url w with
        | (None, w1) =>
            (None, c,
             Logger_error ("AdapterCollection " ++ this_id
                           ++ " connectTo: Invalid WebSocket ID parsed from URL " ++ url) w1)
        | (Some (adapterId, targetId), w1) =>
            match OrderedMap.get adapterId (_adapters c) with
            | Some (Some adapter) =>
                match child_connectTo env targetId (Some ws) adapter w1 with
                | (Returns target, adapter', w2) =>
                    (target,
                     mk (base c) (OrderedMap.set adapterId (Some adapter') (_adapters c)),
                     w2)
                | (Throws connectError, adapter', w2) =>
                    (None,
                     mk (base c) (OrderedMap.set adapterId (Some adapter') (_adapters c)),
                     Logger_error ("AdapterCollection " ++ this_id ++ " adapter "
                                   ++ adapterId ++ " connectTo error: "
                                   ++ render_error connectError) w2)
                end
            | Some None =>
                (None, c,
                 Logger_error ("AdapterCollection " ++ this_id ++ " adapter " ++ adapterId
                               ++ " is invalid or missing connectTo method") w1)
            | None =>
                (None, c,
                 Logger_error ("AdapterCollection " ++ this_id ++ " adapter " ++ adapterId
                               ++ " not found") w1)
            end
        end
    end.

End WithChildren.

(** What else a collection calls on a registered adapter: its life
    cycle and the forwarding of frames. The frames handed to the
    sessions are kept in order, as in [Adapter.forwardTo]. *)
Class Managed (C : Type) := {
  child_start : Env -> C -> World -> Call (Settled Adapter.Started) * C * World;
  child_stop : C -> World -> Call unit * C * World;
  child_forceRefresh : Env -> C -> World -> Call (Settled unit) * C * World;
  child_forwardTo :
    (TargetRef -> string -> Call unit) -> string -> string -> C -> World ->
    list (TargetRef * string) -> Call unit * C * World * list (TargetRef * string)
}.

Section WithManagedChildren.
Context {C : Type} `{Managed C}.
Variable env : Env.

(** The body of [this._adapters.forEach] in [start]: the promises
    pushed, in the way each settles. Calling [start] on an entry that is
    [null] throws; the rendering of that error in the message is left
    out. Each [start] is run to its end before the next one begins. *)
Fixpoint eachStart (this_id : string) (adapters : list (string * option C)) (w : World)
    : list (Settled Adapter.Started) * list (string * option C) * World :=
  match adapters with
  | [] => ([], [], w)
  | (adapterId, None) :: rest =>
      let w1 :=
        Logger_error ("AdapterCollection " ++ this_id ++ " failed to start adapter "
                      ++ adapterId ++ ": ") w in
      let '(startPromises, rest', w2) := eachStart this_id rest w1 in
      (startPromises, (adapterId, None) :: rest', w2)
  | (adapterId, Some adapter) :: rest =>
      match child_start env adapter w with
      | (Throws e, adapter', w1) =>
          let w2 :=
            Logger_error ("AdapterCollection " ++ this_id ++ " failed to start adapter "
                          ++ adapterId ++ ": " ++ render_error e) w1 in
          let '(startPromises, rest', w3) := eachStart this_id rest w2 in
          (startPromises, (adapterId, Some adapter') :: rest', w3)
      | (Returns p, adapter', w1) =>
          let '(startPromises, rest', w2) := eachStart this_id rest w1 in
          (p :: startPromises, (adapterId, Some adapter') :: rest', w2)
      end
  end.

(** The body of [results.forEach] in [start], from the result at
    position [index] on. *)
Fixpoint logRejected (this_id : string) (results : list (Settled Adapter.Started))
    (index : nat) (w : World) : World :=
  match results with
  | [] => w
  | Resolved _ :: rest => logRejected this_id rest (S index) w
  | Rejected reason :: rest =>
      logRejected this_id rest (S index)
        (Logger_error ("AdapterCollection " ++ this_id ++ " start promise "
                       ++ JS.string_of_Z (Z.of_nat index) ++ " rejected: "
                       ++ render_error reason) w)
  end.

(** [start()]: the outcomes [Promise.allSettled] collects, the one of
    the collection's own [start] first. *)
Definition start (c : t C) (w : World)
    : Settled (list (Settled Adapter.Started)) * t C * World :=
  let this_id := Adapter._id (base c) in
  let '(own, base', w1) := Adapter.start env (base c) w in
  let '(startPromises, adapters, w2) := eachStart this_id (_adapters c) w1 in
  let results := own :: startPromises in
  (Resolved results, mk base' adapters, logRejected this_id results 0 w2).

(** The body of [this._adapters.forEach] in [stop]. *)
Fixpoint eachStop (this_id : string) (adapters : list (string * option C)) (w : World)
    : list (string * option C) * World :=
  match adapters with
  | [] => ([], w)
  | (adapterId, None) :: rest =>
      let '(rest', w1) := eachStop this_id rest w in
      ((adapterId, None) :: rest', w1)
  | (adapterId, Some adapter) :: rest =>
      match child_stop adapter w with
      | (Throws e, adapter', w1) =>
          let '(rest', w2) :=
            eachStop this_id rest
              (Logger_error ("AdapterCollection " ++ this_id ++ " failed to stop adapter "
                             ++ adapterId ++ ": " ++ render_error e) w1) in
          ((adapterId, Some adapter') :: rest', w2)
      | (Returns _, adapter', w1) =>
          let '(rest', w2) := eachStop this_id rest w1 in
          ((adapterId, Some adapter') :: rest', w2)
      end
  end.

(** [stop()] *)
Definition stop (c : t C) (w : World) : t C * World :=
  let '(base', w1) := Adapter.stop (base c) w in
  let '(adapters, w2) := eachStop (Adapter._id (base c)) (_adapters c) w1 in
  (mk base' adapters, w2).

(** The body of [this._adapters.forEach] in [forceRefresh], each
    refresh run to its end before the next one begins. *)
Fixpoint eachRefresh (this_id : string) (adapters : list (string * option C)) (w : World)
    : list (string * option C) * World :=
  match adapters with
  | [] => ([], w)
  | (adapterId, None) :: rest =>
      let '(rest', w1) := eachRefresh this_id rest w in
      ((adapterId, None) :: rest', w1)
  | (adapterId, Some adapter) :: rest =>
      match child_forceRefresh env adapter w with
      | (Throws e, adapter', w1) =>
          let '(rest', w2) :=
            eachRefresh this_id rest
              (Logger_error ("AdapterCollection " ++ this_id ++ " forceRefresh adapter "
                             ++ adapterId ++ " error: " ++ render_error e) w1) in
          ((adapterId, Some adapter') :: rest', w2)
      | (Returns (Rejected e), adapter', w1) =>
          let '(rest', w2) :=
            eachRefresh this_id rest
              (Logger_error ("AdapterCollection " ++ this_id ++ " failed to refresh adapter "
                             ++ adapterId ++ ": " ++ render_error e) w1) in
          ((adapterId, Some adapter') :: rest', w2)
      | (Returns (Resolved _), adapter', w1) =>
          let '(rest', w2) := eachRefresh this_id rest w1 in
          ((adapterId, Some adapter') :: rest', w2)
      end
  end.

(** [forceRefresh()]: its promise always resolves. *)
Definition forceRefresh (c : t C) (w : World) : t C * World :=
  let '(base', w1) := Adapter.forceRefresh env (base c) w in
  let '(adapters, w2) := eachRefresh (Adapter._id (base c)) (_adapters c) w1 in
  (mk base' adapters, w2).

(** [forwardTo(url, message)] *)
Definition forwardTo (forward : TargetRef -> string -> Call unit) (url message : string)
    (c : t C) (w : World) (sent : list (TargetRef * string))
    : t C * World * list (TargetRef * string) :=
  let this_id := Adapter._id (base c) in
  if negb (JS.truthy url) then
    (c, Logger_error ("AdapterCollection " ++ this_id ++ " forwardTo: No URL provided") w,
     sent)
  else if negb (JS.truthy message) then
    (c, Logger_log ("AdapterCollection " ++ this_id ++ " forwardTo: Empty message for URL "
                    ++ url) w,
     sent)
  else
    match getWebSocketId this_id url w with
    | (None, w1) =>
        (c, Logger_error ("AdapterCollection " ++ this_id
                          ++ " forwardTo: Invalid WebSocket ID parsed from URL " ++ url) w1,
         sent)
    | (Some (adapterId, targetId), w1) =>
        match OrderedMap.get adapterId (_adapters c) with
        | Some (Some adapter) =>
            match child_forwardTo forward targetId message adapter w1 sent with
            | (Returns _, adapter', w2, sent') =>
                (mk (base c) (OrderedMap.set adapterId (Some adapter') (_adapters c)),
                 w2, sent')
            | (Throws forwardError, adapter', w2, sent') =>
                (mk (base c) (OrderedMap.set adapterId (Some adapter') (_adapters c)),
                 Logger_error ("AdapterCollection " ++ this_id ++ " adapter " ++ adapterId
                               ++ " forwardTo error: " ++ render_error forwardError) w2,
                 sent')
            end
        | Some None =>
            (c, Logger_error ("AdapterCollection " ++ this_id ++ " adapter " ++ adapterId
                              ++ " is invalid or missing forwardTo method") w1,
             sent)
        | None =>
            (c, Logger_error ("AdapterCollection " ++ this_id ++ " adapter " ++ adapterId
                              ++ " not found") w1,
             sent)
        end
    end.

End WithManagedChildren.

End AdapterCollection.

(** A plain [Adapter] registered in a collection: its calls never throw. *)
#[export] Instance Adapter_Child : AdapterCollection.Child Adapter.t := {
  child_getTargets env metadata a w :=
    let '(p, a', w') := Adapter.getTargets env metadata a w in (Returns p, a', w');
  child_connectTo env targetId wsFrom a w :=
    let '(r, a', w') := Adapter.connectTo env targetId wsFrom a w in (Returns r, a', w')
}.

(** A plain [Adapter] registered in a collection, through its life cycle:
    its calls never throw, and the promise of its [forceRefresh] always
    resolves. *)
#[export] Instance Adapter_Managed : AdapterCollection.Managed Adapter.t := {
  child_start env a w :=
    let '(p, a', w') := Adapter.start env a w in (Returns p, a', w');
  child_stop a w :=
    let '(a', w') := Adapter.stop a w in (Returns tt, a', w');
  child_forceRefresh env a w :=
    let '(a', w') := Adapter.forceRefresh env a w in (Returns (Resolved tt), a', w');
  child_forwardTo forward targetId message a w sent :=
    let '(w', sent') := Adapter.forwardTo forward targetId message a w sent in
    (Returns tt, a, w', sent')
}.

(** ** The iOS adapter ([iosAdapter.ts]) *)

(** The protocol translators, known here by their constructors only. *)
Inductive IOSProtocol :=
| IOS8Protocol (target : option TargetRef)
| IOS9Protocol (target : option TargetRef)
| IOS12Protocol (target : option TargetRef).

Record IIOSProxySettings := {
  proxyPath : string;
  proxyPort : Z;
  proxyArgs : list string
}.

Module IOSAdapter.

Record t := mk {
  collection : AdapterCollection.t Adapter.t;
  _proxySettings : IIOSProxySettings;
  _protocolMap : gmap TargetRef IOSProtocol
}.

Definition _id (a : t) : string := Adapter._id (AdapterCollection.base (collection a)).
Definition _proxyUrl (a : t) : string := Adapter._proxyUrl (AdapterCollection.base (collection a)).
Definition _url (a : t) : string := Adapter._url (AdapterCollection.base (collection a)).
Definition _adapters (a : t) : list (string * option Adapter.t) :=
  AdapterCollection._adapters (collection a).

Definition set_adapters (adapters : list (string * option Adapter.t)) (a : t) : t :=
  mk (AdapterCollection.mk (AdapterCollection.base (collection a)) adapters)
     (_proxySettings a) (_protocolMap a).

(** [constructor(id, socket, proxySettings)] *)
Definition new (id socket : string) (proxySettings : IIOSProxySettings) : t :=
  mk (AdapterCollection.new id socket
        (Some (IAdapterOptions.mk None None None (Some (proxyPort proxySettings))
                 (Some (proxyPath proxySettings)) (Some (proxyArgs proxySettings)))))
     proxySettings ∅.

(** The version a device is given by [processDeviceVersions]. *)
Definition deviceVersion (d : IIOSDeviceTarget.t) : string :=
  if JS.strictEq (IIOSDeviceTarget.deviceId d) "SIMULATOR" then "9.3.0"
  else
    match IIOSDeviceTarget.deviceOSVersion d with
    | Some v => if JS.truthy v then v else "9.3.0"
    | None => "9.3.0"
    end.

(** [d.version = v] *)
Definition set_version (v : string) (d : IIOSDeviceTarget.t) : IIOSDeviceTarget.t :=
  IIOSDeviceTarget.mk (IIOSDeviceTarget.deviceId d) (IIOSDeviceTarget.deviceOSVersion d)
    (IIOSDeviceTarget.url d) (Some v).

(** The body of [devices.forEach] in [processDeviceVersions], from the
    device at position [index] on. *)
Fixpoint eachDeviceVersion (this_id : string) (devices : list (option IIOSDeviceTarget.t))
    (index : nat) (w : World) : list IIOSDeviceTarget.t * World :=
  match devices with
  | [] => ([], w)
  | None :: rest =>
      eachDeviceVersion this_id rest (S index)
        (Logger_error ("IOSAdapter " ++ this_id ++ " processDeviceVersions: Device at index "
                       ++ JS.string_of_Z (Z.of_nat index) ++ " is null") w)
  | Some d :: rest =>
      let '(processedDevices, w') := eachDeviceVersion this_id rest (S index) w in
      (set_version (deviceVersion d) d :: processedDevices, w')
  end.

(** [processDeviceVersions(devices)] *)
Definition processDeviceVersions (this_id : string)
    (devices : list (option IIOSDeviceTarget.t)) (w : World)
    : list IIOSDeviceTarget.t * World :=
  eachDeviceVersion this_id devices 0 w.

(** [getProtocolFor(version, target)] *)
Definition getProtocolFor (this_id : string) (version : string) (target : option TargetRef)
    (w : World) : option IOSProtocol * World :=
  if negb (JS.truthy version) then
    (Some (IOS9Protocol target),
     Logger_error ("IOSAdapter " ++ this_id ++ " getProtocolFor: Invalid version: "
                   ++ version) w)
  else
    match target with
    | None =>
        (None,
         Logger_error ("IOSAdapter " ++ this_id ++ " getProtocolFor: No target provided") w)
    | Some _ =>
        match JS.split "." version with
        | [] =>
            (Some (IOS9Protocol target),
             Logger_error ("IOSAdapter " ++ this_id
                           ++ " getProtocolFor: Could not parse version: " ++ version) w)
        | majorStr :: rest =>
            match JS.parseInt majorStr with
            | None =>
                (Some (IOS9Protocol target),
                 Logger_error ("IOSAdapter " ++ this_id
                               ++ " getProtocolFor: Invalid major version: " ++ majorStr) w)
            | Some major =>
                if (major <=? 8)%Z then (Some (IOS8Protocol target), w)
                else
                  match rest with
                  | minorStr :: _ =>
                      match JS.parseInt minorStr with
                      | Some minor =>
                          if (major >? 12)%Z || ((major >=? 12)%Z && (minor >=? 2)%Z)
                          then (Some (IOS12Protocol target), w)
                          else (Some (IOS9Protocol target), w)
                      | None => (Some (IOS9Protocol target), w)
                      end
                  | [] => (Some (IOS9Protocol target), w)
                  end
            end
        end
    end.

(** A device adapter whose [createSingleDeviceAdapter] has reached its
    [await adapter.start()]. *)
Record Pending := {
  pendingId : string;
  pendingPort : Z;
  pendingDeviceId : string;
  pendingAdapter : Adapter.t;
  pendingStart : Settled Adapter.Started
}.

Section WithEnv.
Variable env : Env.

(** [createSingleDeviceAdapter(adapterId, port, deviceId)] up to its
    [await]: the adapter is built and its [start()] called. *)
Definition createSingleDeviceAdapter (this : t) (adapterId : string) (port : Z)
    (deviceId : string) (w : World) : Pending * World :=
  let adapter :=
    Adapter.new adapterId (_proxyUrl this)
      (Some (IAdapterOptions.mk None None None (Some port) None None)) in
  let '(started, adapter', w') := Adapter.start env adapter w in
  ({| pendingId := adapterId; pendingPort := port; pendingDeviceId := deviceId;
      pendingAdapter := adapter'; pendingStart := started |}, w').

(** The rest of [createSingleDeviceAdapter], run once [start()] has
    settled: a started adapter is registered. *)
Definition resumeSingleDeviceAdapter (p : Pending) (this : t) (w : World) : t * World :=
  match pendingStart p with
  | Resolved _ =>
      (set_adapters (OrderedMap.set (pendingId p) (Some (pendingAdapter p)) (_adapters this))
         this,
       Logger_log ("IOSAdapter " ++ _id this ++ " created adapter for device "
                   ++ pendingDeviceId p ++ " on port " ++ JS.string_of_Z (pendingPort p)) w)
  | Rejected startError =>
      (this,
       Logger_error ("IOSAdapter " ++ _id this ++ " failed to start adapter " ++ pendingId p
                     ++ ": " ++ render_error startError) w)
  end.

(** The body of [devices.forEach] in [createDeviceAdapters]; the
    rendering of an invalid device in the message is left out. *)
Definition eachDevice (this : t) (acc : list Pending * World)
    (d : option IIOSDeviceTarget.t) : list Pending * World :=
  let '(adapterPromises, w) := acc in
  let invalid :=
    (adapterPromises,
     Logger_error ("IOSAdapter " ++ _id this ++ " createDeviceAdapters: Invalid device: ") w) in
  match d with
  | None => invalid
  | Some d =>
      match IIOSDeviceTarget.deviceId d with
      | None => invalid
      | Some deviceId =>
          if negb (JS.truthy deviceId) then invalid
          else
            let adapterId := _id this ++ "_" ++ deviceId in
            if OrderedMap.has adapterId (_adapters this) then (adapterPromises, w)
            else
              match IIOSDeviceTarget.url d with
              | None =>
                  (adapterPromises,
                   Logger_error ("IOSAdapter " ++ _id this ++ " createDeviceAdapters: Device "
                                 ++ deviceId ++ " has no URL") w)
              | Some url =>
                  if negb (JS.truthy url) then
                    (adapterPromises,
                     Logger_error ("IOSAdapter " ++ _id this
                                   ++ " createDeviceAdapters: Device "
                                   ++ deviceId ++ " has no URL") w)
                  else
                    match JS.split ":" url with
                    | _ :: portStr :: _ =>
                        match JS.parseInt portStr with
                        | Some port =>
                            if (port <=? 0)%Z then
                              (adapterPromises,
                               Logger_error ("IOSAdapter " ++ _id this
                                             ++ " createDeviceAdapters: Invalid port for device "
                                             ++ deviceId ++ ": " ++ portStr) w)
                            else
                              let '(p, w') :=
                                createSingleDeviceAdapter this adapterId port deviceId w in
                              ((adapterPromises ++ [p])%list, w')
                        | None =>
                            (adapterPromises,
                             Logger_error ("IOSAdapter " ++ _id this
                                           ++ " createDeviceAdapters: Invalid port for device "
                                           ++ deviceId ++ ": " ++ portStr) w)
                        end
                    | _ =>
                        (adapterPromises,
                         Logger_error ("IOSAdapter " ++ _id this
                                       ++ " createDeviceAdapters: Invalid URL format for device "
                                       ++ deviceId ++ ": " ++ url) w)
                    end
              end
      end
  end.

(** [createDeviceAdapters(devices)]: the loop runs to its end before any
    of the adapters it created is registered, then the registrations
    happen in the order of creation. *)
Definition createDeviceAdapters (devices : list (option IIOSDeviceTarget.t))
    (this : t) (w : World) : t * World :=
  let '(adapterPromises, w1) := fold_left (eachDevice this) devices ([], w) in
  fold_left (fun acc p => resumeSingleDeviceAdapter p (fst acc) (snd acc))
    adapterPromises (this, w1).

(** The callback handed to [request] in [getDevicesFromProxy]: what it
    passes to [resolve]. *)
Definition onDevicesReply (r : Reply) (this : t) (w : World)
    : list (option IIOSDeviceTarget.t) * World :=
  match error r with
  | Some e =>
      ([], Logger_error ("IOSAdapter " ++ _id this ++ " getDevicesFromProxy request error: "
                         ++ render_error e) w)
  | None =>
      match response r with
      | None =>
          ([], Logger_error ("IOSAdapter " ++ _id this
                             ++ " getDevicesFromProxy: No response received") w)
      | Some resp =>
          if negb (Z.eqb (statusCode resp) 200) then
            ([], Logger_error ("IOSAdapter " ++ _id this ++ " getDevicesFromProxy: HTTP "
                               ++ JS.string_of_Z (statusCode resp)) w)
          else
            match body r with
            | Some b =>
                if JS.truthy b then
                  match JSON_parse_devices env b with
                  | Throws parseError =>
                      ([], Logger_error ("IOSAdapter " ++ _id this
                                         ++ " getDevicesFromProxy response body: " ++ b)
                             (Logger_error ("IOSAdapter " ++ _id this
                                            ++ " getDevicesFromProxy JSON parse error: "
                                            ++ render_error parseError) w))
                  | Returns NotArray =>
                      ([], Logger_error ("IOSAdapter " ++ _id this
                                         ++ " getDevicesFromProxy: Response is not an array") w)
                  | Returns (IsArray devices) => (devices, w)
                  end
                else
                  ([], Logger_log ("IOSAdapter " ++ _id this
                                   ++ " getDevicesFromProxy: Empty response body") w)
            | None =>
                ([], Logger_log ("IOSAdapter " ++ _id this
                                 ++ " getDevicesFromProxy: Empty response body") w)
            end
      end
  end.

(** [getDevicesFromProxy()]: what its promise resolves to. *)
Definition getDevicesFromProxy (this : t) (w : World)
    : list (option IIOSDeviceTarget.t) * World :=
  match request env (_url this) with
  | RequestThrows requestError =>
      ([], Logger_error ("IOSAdapter " ++ _id this
                         ++ " getDevicesFromProxy request setup error: "
                         ++ render_error requestError) w)
  | Answered r => onDevicesReply r this (emit (HttpGet (_url this)) w)
  | TimedOut late =>
      let w1 :=
        Logger_error ("IOSAdapter " ++ _id this
                      ++ " getDevicesFromProxy timeout after 10 seconds")
          (emit (HttpGet (_url this)) w) in
      match late with
      | Some r => ([], snd (onDevicesReply r this w1))
      | None => ([], w1)
      end
  end.

(** [getTargets()] *)
Definition getTargets (this : t) (w : World) : Settled (list ITarget.t) * t * World :=
  let '(devices, w1) := getDevicesFromProxy this w in
  match devices with
  | [] =>
      (Resolved [], this,
       Logger_log ("IOSAdapter " ++ _id this ++ " getTargets: No devices found") w1)
  | _ :: _ =>
      let '(processedDevices, w2) := processDeviceVersions (_id this) devices w1 in
      let '(this1, w3) := createDeviceAdapters (Some <$> processedDevices) this w2 in
      let '(targets, c, w4) :=
        AdapterCollection.getTargets env (Arr (Device <$> processedDevices))
          (collection this1) w3 in
      (targets, mk c (_proxySettings this1) (_protocolMap this1), w4)
  end.

(** [connectTo(url, wsFrom)] *)
Definition connectTo (url : string) (wsFrom : option WebSocket) (this : t) (w : World)
    : option TargetRef * t * World :=
  if negb (JS.truthy url) then
    (None, this, Logger_error ("IOSAdapter " ++ _id this ++ " connectTo: No URL provided") w)
  else
    match wsFrom with
    | None =>
        (None, this,
         Logger_error ("IOSAdapter " ++ _id this ++ " connectTo: No WebSocket provided") w)
    | Some _ =>
        let '(found, c, w1) := AdapterCollection.connectTo env url wsFrom (collection this) w in
        let this1 := mk c (_proxySettings this) (_protocolMap this) in
        match found with
        | None =>
            (None, this1,
             Logger_error ("IOSAdapter " ++ _id this ++ " connectTo: Target not found for "
                           ++ url) w1)
        | Some target =>
            match _protocolMap this1 !! target with
            | Some _ => (Some target, this1, w1)
            | None =>
                let metadata :=
                  match heap w1 !! target with
                  | Some x => ITarget.metadata (Target.data x)
                  | None => Undefined
                  end in
                if negb (AnyOps.truthy metadata) then
                  (Some target, this1,
                   Logger_error ("IOSAdapter " ++ _id this
                                 ++ " connectTo: Target has no metadata") w1)
                else
                  match AnyOps.version metadata with
                  | Some version =>
                      if JS.truthy version then
                        match getProtocolFor (_id this) version (Some target) w1 with
                        | (Some protocol, w2) =>
                            (Some target,
                             mk c (_proxySettings this)
                               (<[target := protocol]> (_protocolMap this)),
                             w2)
                        | (None, w2) =>
                            (Some target, this1,
                             Logger_error ("IOSAdapter " ++ _id this
                                           ++ " connectTo: Failed to create protocol for version "
                                           ++ version) w2)
                        end
                      else
                        (Some target, this1,
                         Logger_error ("IOSAdapter " ++ _id this
                                       ++ " connectTo: Target has no version info") w1)
                  | None =>
                      (Some target, this1,
                       Logger_error ("IOSAdapter " ++ _id this
                                     ++ " connectTo: Target has no version info") w1)
                  end
            end
        end
    end.

End WithEnv.



End IOSAdapter.

(** ** The test adapter ([testAdapter.ts]) *)

(** What the [fs.readFile] callback is called with. *)
Record ReadReply := {
  readError : option string;
  readData : option string
}.

(** How a read goes: the call throws, the callback is called in time, or
    the timer fires first (and the callback may still be called later). *)
Inductive ReadOutcome :=
| ReadThrows (e : string)
| ReadAnswered (r : ReadReply)
| ReadTimedOut (late : option ReadReply).

(** What the file system answers. *)
Record FileSystem := {
  fs_access : string -> Settled unit;
  fs_readFile : string -> ReadOutcome
}.

Module TestAdapter.

Record t := mk {
  base : Adapter.t;
  _jsonPath : string
}.

Definition _id (this : t) : string := Adapter._id (base this).

(** [constructor(id, proxyUrl)]; [jsonPath] is what [path.join] makes of
    the directory of the module and the relative path of the fixture. *)
Definition new (jsonPath id proxyUrl : string) : t :=
  mk (Adapter.new id proxyUrl (Some IAdapterOptions.empty)) jsonPath.

(** [JSON.parse(JSON.stringify(m))] for a metadata value that is there:
    [undefined] inside an array comes back as [null]. *)
Fixpoint jsonCopy (m : Any) : Any :=
  match m with
  | Arr l =>
      Arr (map (fun x => match x with Undefined => Null | _ => jsonCopy x end) l)
  | _ => m
  end.

(** [safeDeepCopyTarget(obj)] for an object [obj]. *)
Definition safeDeepCopyTarget (obj : ITarget.t) : ITarget.t :=
  ITarget.mk (ITarget.id obj) (ITarget.adapterType obj) (ITarget.type obj)
    (jsonCopy (ITarget.metadata obj)) (ITarget.webSocketDebuggerUrl obj)
    (ITarget.devtoolsFrontendUrl obj) (ITarget.description obj)
    (ITarget.faviconUrl obj) (ITarget.title obj) (ITarget.url obj).

(** The id copy [i] of a descriptor is given. *)
Definition testId (id : option string) (i : nat) : string :=
  if JS.truthy_opt id then
    default "" id ++ "_test_" ++ JS.string_of_Z (Z.of_nat i)
  else "test_target_" ++ JS.string_of_Z (Z.of_nat i).

Definition set_id (id : string) (x : ITarget.t) : ITarget.t :=
  ITarget.mk (Some id) (ITarget.adapterType x) (ITarget.type x) (ITarget.metadata x)
    (ITarget.webSocketDebuggerUrl x) (ITarget.devtoolsFrontendUrl x)
    (ITarget.description x) (ITarget.faviconUrl x) (ITarget.title x) (ITarget.url x).

(** The index of the element copy [i] is made from. *)
Definition sourceIndex (rawTargets : list (option ITarget.t)) (i : nat) : nat :=
  if Nat.ltb i (length rawTargets) then i else 0.

(** The body of the [for] loop of [createTestTargets]. *)
Definition eachTestTarget (this_id : string) (rawTargets : list (option ITarget.t))
    (acc : list ITarget.t * Adapter.t * World) (i : nat)
    : list ITarget.t * Adapter.t * World :=
  let '(targets, a, w) := acc in
  match mjoin (rawTargets !! sourceIndex rawTargets i) with
  | None =>
      (targets, a,
       Logger_error ("TestAdapter " ++ this_id
                     ++ " createTestTargets: Source target at index "
                     ++ JS.string_of_Z (Z.of_nat (sourceIndex rawTargets i)) ++ " is null") w)
  | Some sourceTarget =>
      let targetCopy := safeDeepCopyTarget sourceTarget in
      let targetCopy := set_id (testId (ITarget.id targetCopy) i) targetCopy in
      let '(processedTarget, a1, w1) := Adapter.setTargetInfo targetCopy Undefined a w in
      ((targets ++ [processedTarget])%list, a1, w1)
  end.

(** [createTestTargets(rawTargets, count)] for an integer [count]. *)
Definition createTestTargets (rawTargets : list (option ITarget.t)) (count : Z)
    (this : t) (w : World) : list ITarget.t * t * World :=
  match rawTargets with
  | [] =>
      ([], this,
       Logger_error ("TestAdapter " ++ _id this
                     ++ " createTestTargets: Invalid rawTargets array") w)
  | _ :: _ =>
      let '(count, w1) :=
        if Z.leb count 0 then
          (1%Z, Logger_error ("TestAdapter " ++ _id this
                              ++ " createTestTargets: Invalid count: "
                              ++ JS.string_of_Z count) w)
        else (count, w) in
      let '(targets, a, w2) :=
        foldl (eachTestTarget (_id this) rawTargets) ([], base this, w1)
          (seq 0 (Z.to_nat count)) in
      (targets, mk a (_jsonPath this),
       Logger_log ("TestAdapter " ++ _id this ++ " createTestTargets: Created "
                   ++ JS.string_of_Z (Z.of_nat (length targets)) ++ " test targets") w2)
  end.

Section WithEnv.

Variable env : Env.
Variable fs : FileSystem.

(** [fileExists(filePath)] *)
Definition fileExists (filePath : string) : bool :=
  match fs_access fs filePath with
  | Resolved _ => true
  | Rejected _ => false
  end.

(** The callback of [fs.readFile]: what it resolves the promise to, had
    it not been resolved before. *)
Definition onRead (this_id : string) (r : ReadReply) (w : World) : option string * World :=
  match readError r with
  | Some e =>
      (None, Logger_error ("TestAdapter " ++ this_id ++ " readJsonFile error: "
                           ++ render_error e) w)
  | None =>
      if JS.truthy_opt (readData r) then (readData r, w)
      else
        (None, Logger_error ("TestAdapter " ++ this_id
                             ++ " readJsonFile: Invalid data received") w)
  end.

(** [readJsonFile(filePath)]: what its promise resolves to. *)
Definition readJsonFile (this_id filePath : string) (w : World) : option string * World :=
  match fs_readFile fs filePath with
  | ReadThrows readError =>
      (None, Logger_error ("TestAdapter " ++ this_id ++ " readJsonFile setup error: "
                           ++ render_error readError) w)
  | ReadAnswered r => onRead this_id r w
  | ReadTimedOut late =>
      let w1 :=
        Logger_error ("TestAdapter " ++ this_id ++ " readJsonFile timeout after 5 seconds") w in
      match late with
      | Some r => (None, snd (onRead this_id r w1))
      | None => (None, w1)
      end
  end.

(** [parseJsonData(data)] *)
Definition parseJsonData (this_id data : string) (w : World)
    : option (list (option ITarget.t)) * World :=
  if negb (JS.truthy data) || Nat.eqb (String.length (JS.trim data)) 0 then
    (None, Logger_error ("TestAdapter " ++ this_id ++ " parseJsonData: Empty data string") w)
  else
    match JSON_parse_targets env data with
    | Returns (IsArray parsed) => (Some parsed, w)
    | Returns NotArray =>
        (None, Logger_error ("TestAdapter " ++ this_id
                             ++ " parseJsonData: Parsed data is not an array") w)
    | Throws parseError =>
        (None,
         Logger_error ("TestAdapter " ++ this_id ++ " parseJsonData data preview: "
                       ++ JS.take 100 data ++ "...")
           (Logger_error ("TestAdapter " ++ this_id ++ " parseJsonData error: "
                          ++ render_error parseError) w))
    end.

(** [getTargets()]: what its promise resolves to. *)
Definition getTargets (this : t) (w : World) : list ITarget.t * t * World :=
  let count := 10%Z in
  if negb (JS.truthy (_jsonPath this)) then
    ([], this,
     Logger_error ("TestAdapter " ++ _id this ++ " getTargets: No JSON path configured") w)
  else if negb (fileExists (_jsonPath this)) then
    ([], this,
     Logger_error ("TestAdapter " ++ _id this
                   ++ " getTargets: JSON file does not exist at " ++ _jsonPath this) w)
  else
    let '(data, w1) := readJsonFile (_id this) (_jsonPath this) w in
    if negb (JS.truthy_opt data) then
      ([], this,
       Logger_error ("TestAdapter " ++ _id this ++ " getTargets: Failed to read JSON file") w1)
    else
      match parseJsonData (_id this) (default "" data) w1 with
      | (Some ((_ :: _) as rawTargets), w2) => createTestTargets rawTargets count this w2
      | (_, w2) =>
          ([], this,
           Logger_error ("TestAdapter " ++ _id this
                         ++ " getTargets: Invalid or empty targets array") w2)
      end.

End WithEnv.

End TestAdapter.

(** * Vocabulary of the properties *)

(** The world before anything has happened. *)
Definition empty_world : World := {| heap := []; trace := [] |}.

(** The first component of the dot-separated version, as [getProtocolFor]
    reads it, and the second one when there is one. *)
Definition versionMajor (version : string) : option Z :=
  match JS.split "." version with
  | majorStr :: _ => JS.parseInt majorStr
  | [] => None
  end.

Definition versionMinor (version : string) : option Z :=
  match JS.split "." version with
  | _ :: minorStr :: _ => JS.parseInt minorStr
  | _ => None
  end.

(** The devices of a list that are not [null], in their order. *)
Definition presentDevices (devices : list (option IIOSDeviceTarget.t))
    : list IIOSDeviceTarget.t :=
  omap (fun d => d) devices.

Definition isSimulator (d : IIOSDeviceTarget.t) : Prop :=
  IIOSDeviceTarget.deviceId d = Some "SIMULATOR".

(** [d'] is [d] with its version normalized: nothing but the version
    changes, and the version is the fallback for a simulator, the
    reported OS version of another device that reports one, and the
    fallback otherwise. *)
Record Normalized (d d' : IIOSDeviceTarget.t) : Prop := {
  normalized_deviceId : IIOSDeviceTarget.deviceId d' = IIOSDeviceTarget.deviceId d;
  normalized_deviceOSVersion :
    IIOSDeviceTarget.deviceOSVersion d' = IIOSDeviceTarget.deviceOSVersion d;
  normalized_url : IIOSDeviceTarget.url d' = IIOSDeviceTarget.url d;
  normalized_simulator :
    isSimulator d -> IIOSDeviceTarget.version d' = Some "9.3.0";
  normalized_reported :
    forall v, ~ isSimulator d -> IIOSDeviceTarget.deviceOSVersion d = Some v ->
              v <> "" -> IIOSDeviceTarget.version d' = Some v;
  normalized_fallback :
    ~ isSimulator d -> JS.truthy_opt (IIOSDeviceTarget.deviceOSVersion d) = false ->
    IIOSDeviceTarget.version d' = Some "9.3.0"
}.

(** A series of [spawnProcess] calls on one adapter, each in its own
    environment and with its own path and arguments. *)
Definition spawnAll (calls : list (Env * string * option (list string)))
    (a : Adapter.t) (w : World) : Adapter.t * World :=
  fold_left
    (fun state call =>
       let '(env, path, args) := call in
       let r := Adapter.spawnProcess env path args (fst state) (snd state) in
       (snd (fst r), snd r))
    calls (a, w).

(** A discovery response that is malformed, in the words of the
    specification: the request fails, no response comes or it comes too
    late, the status is not 200, the body is empty, is not JSON, or is
    JSON that is not an array. *)
Inductive Malformed (env : Env) : RequestOutcome -> Prop :=
| malformed_setup e : Malformed env (RequestThrows e)
| malformed_timeout late : Malformed env (TimedOut late)
| malformed_error r e : error r = Some e -> Malformed env (Answered r)
| malformed_no_response r : response r = None -> Malformed env (Answered r)
| malformed_status r resp :
    response r = Some resp -> statusCode resp <> 200%Z -> Malformed env (Answered r)
| malformed_empty r : JS.truthy_opt (body r) = false -> Malformed env (Answered r)
| malformed_not_json r b e :
    body r = Some b -> JSON_parse_targets env b = Throws e -> Malformed env (Answered r)
| malformed_not_array r b :
    body r = Some b -> JSON_parse_targets env b = Returns NotArray ->
    Malformed env (Answered r).


(** The states a leaf adapter goes through, in a world where it is the
    only one to act: from its construction on, by any of its operations,
    whatever the outside answers. *)
Inductive Reachable : Adapter.t -> World -> Prop :=
| reach_new id socket options :
    Reachable (Adapter.new id socket options) empty_world
| reach_getTargets env metadata a w :
    Reachable a w ->
    Reachable (snd (fst (Adapter.getTargets env metadata a w)))
              (snd (Adapter.getTargets env metadata a w))
| reach_connectTo env targetId wsFrom a w :
    Reachable a w ->
    Reachable (snd (fst (Adapter.connectTo env targetId wsFrom a w)))
              (snd (Adapter.connectTo env targetId wsFrom a w))
| reach_start env a w :
    Reachable a w ->
    Reachable (snd (fst (Adapter.start env a w))) (snd (Adapter.start env a w))
| reach_stop a w :
    Reachable a w ->
    Reachable (fst (Adapter.stop a w)) (snd (Adapter.stop a w)).


(** A registered adapter seen from the collection: its discovery ends
    in a way fixed in advance, and it keeps the metadata it is called
    with, in the order of the calls. *)
Record Probe := {
  outcome : Call (Settled (list ITarget.t));
  received : list Any
}.

#[export] Instance Probe_Child : AdapterCollection.Child Probe := {
  child_getTargets _ metadata p w :=
    (outcome p, {| outcome := outcome p; received := (received p ++ [metadata])%list |}, w);
  child_connectTo _ _ _ p w := (Returns None, p, w)
}.

(** What a registered adapter contributes to a discovery: the list its
    promise resolves to; nothing when the promise is rejected, when the
    call throws, or when there is no adapter under the key. *)
Definition contribution (entry : string * option Probe) : list ITarget.t :=
  match snd entry with
  | Some p =>
      match outcome p with
      | Returns (Resolved targets) => targets
      | Returns (Rejected _) => []
      | Throws _ => []
      end
  | None => []
  end.




(** The events that are log entries. *)
Definition isLog (e : Event) : Prop := exists level msg, e = Log level msg.


(** What the loop of [createDeviceAdapters] creates for the devices
    [devices]: an adapter whose id is the id of the collection, an
    underscore and the id of one of the devices. *)
Definition createdFor (this : IOSAdapter.t) (devices : list (option IIOSDeviceTarget.t))
    (p : IOSAdapter.Pending) : Prop :=
  IOSAdapter.pendingId p = IOSAdapter._id this ++ "_" ++ IOSAdapter.pendingDeviceId p
  /\ Adapter._id (IOSAdapter.pendingAdapter p) = IOSAdapter.pendingId p
  /\ exists d, In (Some d) devices
               /\ IIOSDeviceTarget.deviceId d = Some (IOSAdapter.pendingDeviceId p).

(** The keys of the descriptor registry are never empty. *)
Definition keysNotEmpty (a : Adapter.t) : Prop :=
  forall targetId data,
    Adapter._targetIdToTargetDataMap a !! targetId = Some data -> targetId <> "".

(** * Example installations *)

(** An environment in which nothing is reachable: every request fails
    to be set up, no body parses, every spawn starts a process that
    survives the grace window, every bridge connects. *)
Definition offline : Env := {|
  JSON_parse_targets := fun _ => Throws "Unexpected token";
  JSON_parse_devices := fun _ => Throws "Unexpected token";
  request := fun _ => RequestThrows "connect ECONNREFUSED";
  spawn := fun path args => Spawned {| pid := 1; exePath := path; exeArgs := args |} None;
  bridge := fun _ _ => Returns tt
|}.

(** [offline], except that every request is answered by [r]. *)
Definition answering (r : Reply) : Env := {|
  JSON_parse_targets := JSON_parse_targets offline;
  JSON_parse_devices := JSON_parse_devices offline;
  request := fun _ => Answered r;
  spawn := spawn offline;
  bridge := bridge offline
|}.

(** A descriptor as a backend lists it. *)
Definition page (id endpoint : string) : ITarget.t :=
  ITarget.mk (Some id) None None Undefined (Some endpoint) None None None
    (Some "A page") (Some "http://example.com/").

(** [offline], except that every request is answered by a body that
    parses to the array [targets]. *)
Definition serving (targets : list (option ITarget.t)) : Env := {|
  JSON_parse_targets := fun _ => Returns (IsArray targets);
  JSON_parse_devices := JSON_parse_devices offline;
  request := fun _ =>
    Answered {| error := None; response := Some {| statusCode := 200 |};
                body := Some "[{}]" |};
  spawn := spawn offline;
  bridge := bridge offline
|}.

(** A device as the enumeration proxy lists it. *)
Definition iPhone : IIOSDeviceTarget.t :=
  IIOSDeviceTarget.mk (Some "00008030-001A2D4E3C52802E") (Some "12.2")
    (Some "localhost:9222") None.

(** A small installation: the enumeration proxy lists the device
    [device] and nothing else, every endpoint that is asked for targets
    lists one page, bridges connect. *)
Definition listing (device : IIOSDeviceTarget.t) : Env := {|
  JSON_parse_targets := fun _ =>
    Returns (IsArray [Some (page "page-1" "ws://localhost:9222/devtools/page/1")]);
  JSON_parse_devices := fun _ => Returns (IsArray [Some device]);
  request := fun _ =>
    Answered {| error := None; response := Some {| statusCode := 200 |};
                body := Some "[{}]" |};
  spawn := spawn offline;
  bridge := bridge offline
|}.

Definition lab : Env := listing iPhone.

(** The iOS adapter of an installation, before it has discovered. *)
Definition iosAdapter : IOSAdapter.t :=
  IOSAdapter.new "/ios" "ws://localhost:9000"
    {| proxyPath := "/usr/local/bin/ios_webkit_debug_proxy"; proxyPort := 9221;
       proxyArgs := ["--no-frontend"] |}.

(** The iOS adapter of the installation, once it has discovered. *)
Definition labAdapter : IOSAdapter.t * World :=
  let discovered := IOSAdapter.getTargets lab iosAdapter empty_world in
  (snd (fst discovered), snd discovered).

(** * Vocabulary of the further properties *)

(** A descriptor as an adapter publishes it: it carries a non-empty
    target id, registered with the adapter, the type tag of the adapter
    and a session URL that leads through the proxy to the adapter and
    that id. *)
Definition Published (a : Adapter.t) (x : ITarget.t) : Prop :=
  exists targetId,
    targetId <> ""
    /\ ITarget.id x = Some targetId
    /\ ITarget.adapterType x = Some (Adapter._adapterType a)
    /\ ITarget.webSocketDebuggerUrl x
       = Some (Adapter._proxyUrl a ++ (Adapter._id a ++ "/" ++ targetId))
    /\ is_Some (Adapter._targetIdToTargetDataMap a !! targetId).

(** [a'] is the adapter [a] at a later time: the same identity, and a
    descriptor registry that has lost no key. *)
Record Later (a a' : Adapter.t) : Prop := {
  later_id : Adapter._id a' = Adapter._id a;
  later_proxyUrl : Adapter._proxyUrl a' = Adapter._proxyUrl a;
  later_adapterType : Adapter._adapterType a' = Adapter._adapterType a;
  later_descriptors :
    forall targetId,
      is_Some (Adapter._targetIdToTargetDataMap a !! targetId) ->
      is_Some (Adapter._targetIdToTargetDataMap a' !! targetId)
}.

(** Two registries with the same keys in the same order, an entry being
    [null] in the one exactly when it is in the other. *)
Definition sameKeys {C : Type} (m m' : list (string * option C)) : Prop :=
  Forall2 (fun e e' => fst e = fst e' /\ (snd e = None <-> snd e' = None)) m m'.

(** The adapters of a registry, its [null] entries left out. *)
Definition presentAdapters {C : Type} (m : list (string * option C)) : list C :=
  omap snd m.

(** How [start()] of an adapter goes, and the adapter it leaves. *)
Definition startOutcome (env : Env) (a : Adapter.t) : Settled Adapter.Started * Adapter.t :=
  fst (Adapter.start env a empty_world).

(** The process handles held by the adapters of a list. *)
Definition handles (adapters : list Adapter.t) : list ChildProcess :=
  omap Adapter._proxyProc adapters.

(** A device [createDeviceAdapters] can make an adapter for: it has a
    non-empty id, and a URL whose second piece, the URL cut at its
    colons, starts with a positive port. *)
Definition Eligible (d : IIOSDeviceTarget.t) (deviceId : string) (port : Z) : Prop :=
  IIOSDeviceTarget.deviceId d = Some deviceId
  /\ deviceId <> ""
  /\ exists url first portStr rest,
       IIOSDeviceTarget.url d = Some url
       /\ url <> ""
       /\ JS.split ":" url = first :: portStr :: rest
       /\ JS.parseInt portStr = Some port
       /\ (0 < port)%Z.

(** What the loop of [createDeviceAdapters] leaves to be registered: an
    adapter under a key the registry does not hold, whose [start()] has
    resolved. *)
Definition Fresh (this : IOSAdapter.t) (p : IOSAdapter.Pending) : Prop :=
  OrderedMap.get (IOSAdapter.pendingId p) (IOSAdapter._adapters this) = None
  /\ Adapter._id (IOSAdapter.pendingAdapter p) = IOSAdapter.pendingId p
  /\ exists started, IOSAdapter.pendingStart p = Resolved started.

(** A registry entry that holds an adapter whose id is its key. *)
Definition wellKeyed (e : string * option Adapter.t) : Prop :=
  exists a, snd e = Some a /\ Adapter._id a = fst e.

(** [this'] is the iOS adapter [this] with adapters added at the end of
    its registry and nothing else changed. *)
Record Grown (this this' : IOSAdapter.t) : Prop := {
  grown_base :
    AdapterCollection.base (IOSAdapter.collection this')
    = AdapterCollection.base (IOSAdapter.collection this);
  grown_proxySettings : IOSAdapter._proxySettings this' = IOSAdapter._proxySettings this;
  grown_protocolMap : IOSAdapter._protocolMap this' = IOSAdapter._protocolMap this;
  grown_adapters :
    exists added,
      IOSAdapter._adapters this' = (IOSAdapter._adapters this ++ added)%list
      /\ Forall wellKeyed added
}.

(** The generation of a protocol translator: legacy, middle, newest. *)
Definition generation (p : IOSProtocol) : nat :=
  match p with
  | IOS8Protocol _ => 0
  | IOS9Protocol _ => 1
  | IOS12Protocol _ => 2
  end.

(** An answer of the enumeration proxy that lists no device: the
    request fails, no response comes or it comes too late, the status is
    not 200, the body is empty, is not JSON, is JSON that is not an
    array, or is the empty array. *)
Inductive NoListing (env : Env) : RequestOutcome -> Prop :=
| noListing_setup e : NoListing env (RequestThrows e)
| noListing_timeout late : NoListing env (TimedOut late)
| noListing_error r e : error r = Some e -> NoListing env (Answered r)
| noListing_no_response r : response r = None -> NoListing env (Answered r)
| noListing_status r resp :
    response r = Some resp -> statusCode resp <> 200%Z -> NoListing env (Answered r)
| noListing_empty r : JS.truthy_opt (body r) = false -> NoListing env (Answered r)
| noListing_not_json r b e :
    body r = Some b -> JSON_parse_devices env b = Throws e -> NoListing env (Answered r)
| noListing_not_array r b :
    body r = Some b -> JSON_parse_devices env b = Returns NotArray ->
    NoListing env (Answered r)
| noListing_no_device r b :
    body r = Some b -> JSON_parse_devices env b = Returns (IsArray []) ->
    NoListing env (Answered r).

(** The events an iOS adapter causes by asking the enumeration proxy:
    log entries and requests to its own endpoint. *)
Definition ownEvent (this : IOSAdapter.t) (e : Event) : Prop :=
  isLog e \/ e = HttpGet (IOSAdapter._url this).

(** The count [createTestTargets] works with: at least one. *)
Definition effectiveCount (count : Z) : nat := Z.to_nat (Z.max count 1).

(** A fixture the test adapter cannot use: there is no path, the file
    is not there, the read fails, is late or hands back nothing, or the
    text is blank, is not JSON, is JSON that is not an array, or is the
    empty array. *)
Inductive Unusable (env : Env) (fs : FileSystem) (path : string) : Prop :=
| unusable_no_path : path = "" -> Unusable env fs path
| unusable_missing e : fs_access fs path = Rejected e -> Unusable env fs path
| unusable_setup e : fs_readFile fs path = ReadThrows e -> Unusable env fs path
| unusable_late late : fs_readFile fs path = ReadTimedOut late -> Unusable env fs path
| unusable_error r e :
    fs_readFile fs path = ReadAnswered r -> readError r = Some e -> Unusable env fs path
| unusable_no_data r :
    fs_readFile fs path = ReadAnswered r -> JS.truthy_opt (readData r) = false ->
    Unusable env fs path
| unusable_blank r data :
    fs_readFile fs path = ReadAnswered r -> readData r = Some data ->
    JS.trim data = "" -> Unusable env fs path
| unusable_not_json r data e :
    fs_readFile fs path = ReadAnswered r -> readData r = Some data ->
    JSON_parse_targets env data = Throws e -> Unusable env fs path
| unusable_not_array r data :
    fs_readFile fs path = ReadAnswered r -> readData r = Some data ->
    JSON_parse_targets env data = Returns NotArray -> Unusable env fs path
| unusable_empty r data :
    fs_readFile fs path = ReadAnswered r -> readData r = Some data ->
    JSON_parse_targets env data = Returns (IsArray []) -> Unusable env fs path.

(** A fixture the test adapter can use: the file at [path] is there, is
    read in time, and its text [text] parses to the array [rawTargets],
    which is not empty. *)
Record Fixture (env : Env) (fs : FileSystem) (path text : string)
    (rawTargets : list (option ITarget.t)) : Prop := {
  fixture_path : path <> "";
  fixture_there : exists u, fs_access fs path = Resolved u;
  fixture_read :
    fs_readFile fs path = ReadAnswered {| readError := None; readData := Some text |};
  fixture_not_blank : JS.trim text <> "";
  fixture_parses : JSON_parse_targets env text = Returns (IsArray rawTargets);
  fixture_not_empty : rawTargets <> []
}.

(** A file system that holds one file, with the text [text]. *)
Definition oneFile (path text : string) : FileSystem := {|
  fs_access := fun p => if String.eqb p path then Resolved tt else Rejected "ENOENT";
  fs_readFile := fun p =>
    if String.eqb p path then ReadAnswered {| readError := None; readData := Some text |}
    else ReadAnswered {| readError := Some "ENOENT"; readData := None |}
|}.

(** The test adapter of an installation. *)
Definition testAdapter : TestAdapter.t :=
  TestAdapter.new "/opt/adapter/src/lib/test-targets.json" "/test" "ws://localhost:9000".

(** [t] is copy [i] of the fixture [rawTargets]: there is an entry at
    the index copy [i] is made from, and [t] carries its texts under the
    id copy [i] is given, and no metadata. *)
Definition copyOf (rawTargets : list (option ITarget.t)) (i : nat) (t : ITarget.t) : Prop :=
  exists x,
    mjoin (rawTargets !! TestAdapter.sourceIndex rawTargets i) = Some x
    /\ ITarget.id t = Some (TestAdapter.testId (ITarget.id x) i)
    /\ ITarget.title t = ITarget.title x
    /\ ITarget.url t = ITarget.url x
    /\ ITarget.description t = ITarget.description x
    /\ ITarget.faviconUrl t = ITarget.faviconUrl x
    /\ ITarget.metadata t = Undefined.

(** The copies among [indices] that have an entry to be made from. *)
Definition madeFrom (rawTargets : list (option ITarget.t)) (indices : list nat) : list nat :=
  filter (fun i => is_Some (mjoin (rawTargets !! TestAdapter.sourceIndex rawTargets i)))
    indices.

(** An event that launches no process. *)
Definition launchesNothing (e : Event) : Prop := forall path args, e <> Spawn path args.

(** * Properties *)

(** ** Strings *)

Example split_version : JS.split "." "12.2.1" = ["12"; "2"; "1"].
Proof. reflexivity. Qed.

Example split_empty : JS.split "." "" = [""].
Proof. reflexivity. Qed.

Example split_device_url : JS.split ":" "localhost:9222" = ["localhost"; "9222"].
Proof. reflexivity. Qed.

Example parseInt_digits : JS.parseInt "9222" = Some 9222%Z.
Proof. reflexivity. Qed.

Example parseInt_prefix : JS.parseInt " 12beta" = Some 12%Z.
Proof. reflexivity. Qed.

Example parseInt_negative : JS.parseInt "-7" = Some (-7)%Z.
Proof. reflexivity. Qed.

Example parseInt_NaN : JS.parseInt "" = None /\ JS.parseInt "x1" = None /\ JS.parseInt "-" = None.
Proof. repeat split. Qed.

Example indexOf_second_slash : JS.indexOf "/" 1 "/ios/page" = Some 4.
Proof. reflexivity. Qed.

Example replace_scheme : JS.replace "ws://" "" "ws://localhost:9000" = "localhost:9000".
Proof. reflexivity. Qed.

Example adapterType_of_ids :
  Adapter._adapterType (Adapter.new "/ios_device" "ws://localhost:9000" None) = "_ios_device"
  /\ Adapter._adapterType (Adapter.new "/ios/device" "ws://localhost:9000" None) = "_ios".
Proof. split; reflexivity. Qed.

Section StringFacts.

Lemma append_cons c a b : String c a ++ b = String c (a ++ b).
Proof. reflexivity. Qed.

Lemma append_empty b : "" ++ b = b.
Proof. reflexivity. Qed.

Lemma drop_S_cons n c s : JS.drop (S n) (String c s) = JS.drop n s.
Proof. reflexivity. Qed.

Lemma take_app_length p r : JS.take (String.length p) (p ++ r) = p.
Proof.
  induction p as [|c p IH]; [reflexivity|].
  rewrite append_cons. simpl. now rewrite IH.
Qed.

Lemma drop_app_cons p c r : JS.drop (S (String.length p)) (p ++ String c r) = r.
Proof.
  induction p as [|x p IH]; [reflexivity|].
  rewrite append_cons. simpl. exact IH.
Qed.

(** The first [c] of a string splits it in a unique way. *)
Lemma find_char_Some c s i :
  JS.find_char c s = Some i ->
  exists p r, s = p ++ String c r /\ JS.find_char c p = None /\ String.length p = i.
Proof.
  revert i; induction s as [|x s IH]; intros i; simpl; [discriminate|].
  destruct (Ascii.eqb_spec x c) as [->|Hne].
  - intros [= <-]. exists "", s. auto.
  - destruct (JS.find_char c s) as [j|] eqn:E; simpl; [|discriminate].
    intros [= <-]. destruct (IH j eq_refl) as (p & r & H1 & H2 & H3).
    exists (String x p), r. rewrite append_cons, <- H1. simpl.
    destruct (Ascii.eqb_spec x c); [contradiction|]. rewrite H2, H3. auto.
Qed.

Lemma find_char_app c p r :
  JS.find_char c p = None -> JS.find_char c (p ++ String c r) = Some (String.length p).
Proof.
  induction p as [|x p IH].
  - intros _. rewrite append_empty. simpl. now rewrite Ascii.eqb_refl.
  - rewrite append_cons. simpl. destruct (Ascii.eqb x c); [discriminate|].
    destruct (JS.find_char c p); [discriminate|]. intros _. now rewrite IH.
Qed.

Lemma split_at_first_unique c p r p' r' :
  JS.find_char c p = None -> JS.find_char c p' = None ->
  p ++ String c r = p' ++ String c r' -> p = p' /\ r = r'.
Proof.
  intros Hp Hp' E.
  assert (L : String.length p = String.length p').
  { apply (find_char_app c p r) in Hp. apply (find_char_app c p' r') in Hp'.
    rewrite E in Hp. congruence. }
  split.
  - rewrite <- (take_app_length p (String c r)), E, L. apply take_app_length.
  - rewrite <- (drop_app_cons p c r), E, L. apply drop_app_cons.
Qed.

End StringFacts.

(** ** Address decoding *)

(** An address decodes to a pair exactly when it is the first piece, a
    slash and a non-empty rest, the first piece being one character
    followed by characters other than the slash. *)
Lemma getWebSocketId_decodes this_id url w adapterId targetId :
  fst (AdapterCollection.getWebSocketId this_id url w) = Some (adapterId, targetId) <->
  (exists c segment,
      adapterId = String c segment /\ JS.find_char "/" segment = None)
  /\ targetId <> "" /\ url = adapterId ++ "/" ++ targetId.
Proof.
  unfold AdapterCollection.getWebSocketId, JS.indexOf, JS.substr, JS.substr_from.
  destruct url as [|c0 rest].
  - simpl. split; [discriminate|]. intros ((c & seg & -> & _) & _ & E). discriminate.
  - change (JS.drop 1 (String c0 rest)) with rest. cbn [JS.truthy negb].
    destruct (JS.find_char "/" rest) as [i|] eqn:E.
    + destruct (find_char_Some _ _ _ E) as (p & r & -> & H2 & <-).
      replace (1 + String.length p + 1) with (S (S (String.length p))) by lia.
      cbn [fmap option_fmap option_map JS.drop JS.take].
      replace (1 + String.length p) with (S (String.length p)) by lia.
      cbn [JS.drop JS.take JS.truthy negb orb].
      rewrite take_app_length.
      replace (S (String.length p) + 1) with (S (S (String.length p))) by lia.
      rewrite drop_S_cons, drop_app_cons.
      split.
      * destruct r as [|t0 t]; cbn [JS.truthy negb fst]; [discriminate|].
        intros [= <- <-]. split; [eauto|]. split; [discriminate|reflexivity].
      * intros ((c & seg & -> & Hs) & Ht & Hu).
        rewrite append_cons in Hu. injection Hu as <- Hu.
        apply split_at_first_unique in Hu as [<- <-]; [|assumption..].
        destruct r; [congruence|reflexivity].
    + cbn [fmap option_fmap option_map fst]. split; [discriminate|].
      intros ((c & seg & -> & Hs) & Ht & Hu).
      rewrite append_cons in Hu. injection Hu as <- ->.
      change ("/" ++ targetId) with (String "/"%char targetId) in E.
      rewrite (find_char_app _ _ _ Hs) in E. discriminate.
Qed.

(** Decoding fails exactly when there is no slash after the first
    character, or nothing after that slash. *)
Lemma getWebSocketId_fails this_id url w :
  fst (AdapterCollection.getWebSocketId this_id url w) = None <->
  JS.find_char "/" (JS.drop 1 url) = None \/
  exists adapterId, url = adapterId ++ "/" /\ JS.find_char "/" (JS.drop 1 adapterId) = None.
Proof.
  destruct (fst (AdapterCollection.getWebSocketId this_id url w)) as [[a tid]|] eqn:G.
  - apply getWebSocketId_decodes in G as ((c & seg & -> & Hs) & Ht & ->).
    split; [discriminate|]. intros [Hn | (a & Hu & Hn)].
    + rewrite append_cons in Hn. rewrite drop_S_cons in Hn.
      change (JS.find_char "/" (seg ++ String "/"%char tid) = None) in Hn.
      rewrite (find_char_app _ _ _ Hs) in Hn. discriminate.
    + destruct a as [|c' a'].
      * rewrite append_cons, append_empty in Hu. injection Hu as -> Hu.
        destruct seg; discriminate.
      * rewrite !append_cons in Hu. injection Hu as <- Hu.
        change (JS.find_char "/" a' = None) in Hn.
        apply split_at_first_unique in Hu as [_ Hu]; [|assumption..].
        now destruct tid.
  - split; [intros _|reflexivity].
    destruct url as [|c0 rest]; [left; reflexivity|].
    change (JS.drop 1 (String c0 rest)) with rest.
    destruct (JS.find_char "/" rest) as [i|] eqn:E; [right|left; reflexivity].
    destruct (find_char_Some _ _ _ E) as (p & r & -> & H2 & <-).
    destruct r as [|t0 t].
    + exists (String c0 p). split; [reflexivity|exact H2].
    + assert (X : fst (AdapterCollection.getWebSocketId this_id
                    (String c0 (p ++ String "/" (String t0 t))) w)
                  = Some (String c0 p, String t0 t)).
      { apply getWebSocketId_decodes. split; [eauto|]. split; [discriminate|reflexivity]. }
      rewrite X in G. discriminate.
Qed.

(** C2, as stated, fails: the first piece of ["/A/B/C"] is ["/A"], with
    its leading slash, not ["A"]; and ["//B"] decodes although nothing
    stands between offset 1 and the next slash. *)
Lemma getWebSocketId_keeps_leading_slash :
  fst (AdapterCollection.getWebSocketId "/ios" "/A/B/C" empty_world) = Some ("/A", "B/C")
  /\ fst (AdapterCollection.getWebSocketId "/ios" "/A/B/C" empty_world) <> Some ("A", "B/C")
  /\ fst (AdapterCollection.getWebSocketId "/ios" "//B" empty_world) = Some ("/", "B").
Proof. repeat split; [discriminate]. Qed.

(** C2, amended: the namespace id is the address from offset 0 up to
    (excluding) the first slash found from offset 1 on, so it keeps the
    first character of the address; the target id is everything after
    that slash, verbatim. ["/A/B/C"] decodes to ["/A"] and ["B/C"];
    decoding fails when there is no slash from offset 1 on (as in ["/A"])
    or when nothing follows that slash. *)
Theorem getWebSocketId_spec this_id url w :
  (forall adapterId targetId,
      fst (AdapterCollection.getWebSocketId this_id url w) = Some (adapterId, targetId) <->
      (exists c segment,
          adapterId = String c segment /\ JS.find_char "/" segment = None)
      /\ targetId <> "" /\ url = adapterId ++ "/" ++ targetId)
  /\ (fst (AdapterCollection.getWebSocketId this_id url w) = None <->
      JS.find_char "/" (JS.drop 1 url) = None \/
      exists adapterId,
        url = adapterId ++ "/" /\ JS.find_char "/" (JS.drop 1 adapterId) = None)
  /\ fst (AdapterCollection.getWebSocketId this_id "/A/B/C" w) = Some ("/A", "B/C")
  /\ fst (AdapterCollection.getWebSocketId this_id "/A" w) = None.
Proof.
  split; [intros; apply getWebSocketId_decodes|].
  split; [apply getWebSocketId_fails|].
  split; reflexivity.
Qed.

(** ** Protocol selection *)

(** C4, as stated, fails: version ["12.1"] has major version 12, which is
    at least 12, and the middle-generation translator is selected; so is
    it for ["13"], which has no minor component. *)
Lemma getProtocolFor_12_1_is_middle :
  versionMajor "12.1" = Some 12%Z
  /\ fst (IOSAdapter.getProtocolFor "/ios" "12.1" (Some 0) empty_world)
     = Some (IOS9Protocol (Some 0))
  /\ fst (IOSAdapter.getProtocolFor "/ios" "12.1" (Some 0) empty_world)
     <> Some (IOS12Protocol (Some 0))
  /\ fst (IOSAdapter.getProtocolFor "/ios" "13" (Some 0) empty_world)
     = Some (IOS9Protocol (Some 0)).
Proof. repeat split; [discriminate]. Qed.

(** What [getProtocolFor] selects, in terms of the two components. *)
Lemma getProtocolFor_value this_id version target w :
  fst (IOSAdapter.getProtocolFor this_id version (Some target) w) =
  Some (match versionMajor version with
        | Some major =>
            if (major <=? 8)%Z then IOS8Protocol (Some target)
            else
              match versionMinor version with
              | Some minor =>
                  if (major >? 12)%Z || ((major >=? 12)%Z && (minor >=? 2)%Z)
                  then IOS12Protocol (Some target)
                  else IOS9Protocol (Some target)
              | None => IOS9Protocol (Some target)
              end
        | None => IOS9Protocol (Some target)
        end).
Proof.
  unfold IOSAdapter.getProtocolFor, versionMajor, versionMinor.
  destruct version as [|c s]; [reflexivity|]. cbn [JS.truthy negb].
  destruct (JS.split "." (String c s)) as [|majorStr rest]; [reflexivity|].
  destruct (JS.parseInt majorStr) as [major|]; [|reflexivity].
  destruct (major <=? 8)%Z; [reflexivity|].
  destruct rest as [|minorStr rest']; [reflexivity|].
  destruct (JS.parseInt minorStr) as [minor|]; [|reflexivity].
  now destruct ((major >? 12)%Z || ((major >=? 12)%Z && (minor >=? 2)%Z)).
Qed.

(** C4, amended: the legacy translator is selected exactly when the
    major version parses and is at most 8; the newest one exactly when
    both the major and a minor component parse and the major version is
    above 12, or is 12 with a minor version of at least 2; the
    middle-generation one in every other case, among them a version whose
    major component does not parse and a version above 8 without a minor
    component. So ["7.0"] selects the legacy translator, ["12.2"] the
    newest, ["12.1"] and an unparseable version the middle one. *)
Theorem getProtocolFor_selection this_id version target w :
  let selected := fst (IOSAdapter.getProtocolFor this_id version (Some target) w) in
  let legacy := exists major, versionMajor version = Some major /\ (major <= 8)%Z in
  let newest :=
    exists major minor,
      versionMajor version = Some major /\ versionMinor version = Some minor
      /\ (12 < major \/ (major = 12 /\ 2 <= minor))%Z in
  (selected = Some (IOS8Protocol (Some target)) <-> legacy)
  /\ (selected = Some (IOS12Protocol (Some target)) <-> newest)
  /\ (selected = Some (IOS9Protocol (Some target)) <-> ~ legacy /\ ~ newest)
  /\ fst (IOSAdapter.getProtocolFor this_id "7.0" (Some target) w)
     = Some (IOS8Protocol (Some target))
  /\ fst (IOSAdapter.getProtocolFor this_id "12.2" (Some target) w)
     = Some (IOS12Protocol (Some target))
  /\ fst (IOSAdapter.getProtocolFor this_id "12.1" (Some target) w)
     = Some (IOS9Protocol (Some target))
  /\ fst (IOSAdapter.getProtocolFor this_id "twelve" (Some target) w)
     = Some (IOS9Protocol (Some target)).
Proof.
  cbv zeta. rewrite getProtocolFor_value.
  split; [|split; [|split; [|repeat split; reflexivity]]].
  - split.
    + intros E. destruct (versionMajor version) as [M|]; [|discriminate].
      exists M. split; [reflexivity|].
      destruct (Z.leb_spec M 8); [assumption|]. exfalso.
      destruct (versionMinor version); [|discriminate].
      destruct (_ || _); discriminate.
    + intros (M & -> & L). destruct (Z.leb_spec M 8); [reflexivity|lia].
  - split.
    + intros E. destruct (versionMajor version) as [M|]; [|discriminate].
      destruct (Z.leb_spec M 8); [discriminate|].
      destruct (versionMinor version) as [m|]; [|discriminate].
      exists M, m. split; [reflexivity|]. split; [reflexivity|].
      destruct (Z.gtb_spec M 12), (Z.geb_spec M 12), (Z.geb_spec m 2);
        cbn in E; try discriminate; lia.
    + intros (M & m & -> & -> & L). destruct (Z.leb_spec M 8); [lia|].
      destruct (Z.gtb_spec M 12), (Z.geb_spec M 12), (Z.geb_spec m 2);
        cbn; try reflexivity; lia.
  - split.
    + intros E. split.
      * intros (M & HM & L). rewrite HM in E.
        destruct (Z.leb_spec M 8); [discriminate|lia].
      * intros (M & m & HM & Hm & L). rewrite HM, Hm in E.
        destruct (Z.leb_spec M 8); [discriminate|].
        destruct (Z.gtb_spec M 12), (Z.geb_spec M 12), (Z.geb_spec m 2);
          cbn in E; try discriminate; lia.
    + intros [N1 N2]. destruct (versionMajor version) as [M|]; [|reflexivity].
      destruct (Z.leb_spec M 8); [exfalso; apply N1; eauto|].
      destruct (versionMinor version) as [m|]; [|reflexivity].
      destruct (Z.gtb_spec M 12), (Z.geb_spec M 12), (Z.geb_spec m 2);
        cbn; try reflexivity; exfalso; apply N2; exists M, m;
        (split; [reflexivity|split; [reflexivity|lia]]).
Qed.

(** ** Device versions *)

Lemma deviceVersion_Normalized d :
  Normalized d (IOSAdapter.set_version (IOSAdapter.deviceVersion d) d).
Proof.
  assert (S : isSimulator d <->
              JS.strictEq (IIOSDeviceTarget.deviceId d) "SIMULATOR" = true).
  { unfold isSimulator, JS.strictEq.
    destruct (IIOSDeviceTarget.deviceId d) as [i|]; [|split; discriminate].
    destruct (String.eqb_spec i "SIMULATOR") as [->|Hi]; split; congruence. }
  unfold IOSAdapter.deviceVersion.
  split; try reflexivity; simpl.
  - intros Hs. apply S in Hs. now rewrite Hs.
  - intros v Hn Hv Hne. rewrite Hv.
    destruct (JS.strictEq _ _); [exfalso; apply Hn, S; reflexivity|].
    destruct v; [contradiction|reflexivity].
  - intros Hn Hv.
    destruct (JS.strictEq _ _); [reflexivity|].
    destruct (IIOSDeviceTarget.deviceOSVersion d) as [v|]; [|reflexivity].
    simpl in Hv. now rewrite Hv.
Qed.

Lemma eachDeviceVersion_fst this_id devices index w :
  fst (IOSAdapter.eachDeviceVersion this_id devices index w) =
  (fun d => IOSAdapter.set_version (IOSAdapter.deviceVersion d) d) <$> presentDevices devices.
Proof.
  revert index w. induction devices as [|[d|] rest IH]; intros index w; simpl.
  - reflexivity.
  - specialize (IH (S index) w).
    destruct (IOSAdapter.eachDeviceVersion this_id rest (S index) w) as [l w'].
    simpl in *. now rewrite IH.
  - apply IH.
Qed.

(** C8: the devices handed back by [processDeviceVersions] are the
    devices of the batch that are not [null], in their order, each one
    normalized: a simulator gets the fallback version whatever it
    reports, another device that reports an OS version keeps it as it
    is, a device with neither gets the fallback; a [null] entry is left
    out and the entries around it are processed all the same. *)
Theorem processDeviceVersions_normalizes this_id devices w :
  Forall2 Normalized (presentDevices devices)
    (fst (IOSAdapter.processDeviceVersions this_id devices w))
  /\ (forall before after,
        devices = (before ++ None :: after)%list ->
        fst (IOSAdapter.processDeviceVersions this_id devices w)
        = fst (IOSAdapter.processDeviceVersions this_id (before ++ after)%list w))
  /\ fst (IOSAdapter.processDeviceVersions this_id
            [Some (IIOSDeviceTarget.mk (Some "SIMULATOR") None None None)] w)
     = [IIOSDeviceTarget.mk (Some "SIMULATOR") None None (Some "9.3.0")].
Proof.
  unfold IOSAdapter.processDeviceVersions. rewrite !eachDeviceVersion_fst.
  split; [|split; [|reflexivity]].
  - induction (presentDevices devices) as [|d l IH]; simpl; constructor;
      [apply deviceVersion_Normalized | exact IH].
  - intros before after ->. rewrite !eachDeviceVersion_fst.
    unfold presentDevices. now rewrite !omap_app.
Qed.

(** ** The managed process *)

(** A first call that gets a process from [spawn] keeps its handle, even
    when the process dies during the grace window. *)
Lemma spawnProcess_keeps_handle env path args a w p early :
  Adapter._proxyProc a = None -> JS.truthy path = true ->
  spawn env path (default [] args) = Spawned p early ->
  Adapter._proxyProc (snd (fst (Adapter.spawnProcess env path args a w))) = Some p.
Proof.
  intros Hn Hp Hs. unfold Adapter.spawnProcess. rewrite Hn, Hp, Hs. simpl.
  destruct early as [[]|]; reflexivity.
Qed.

(** C7: on an adapter that holds a process handle, [spawnProcess] rejects
    with "process already started" and changes nothing: the handle stays
    the one it was, no process is spawned and none is signalled; and so
    it is for any number of calls that follow, whatever they ask for. *)
Theorem spawnProcess_already_started env path args a w p :
  Adapter._proxyProc a = Some p ->
  Adapter.spawnProcess env path args a w
  = (Rejected "adapter.spawnProcess.error: process already started", a, w)
  /\ forall calls, spawnAll calls a w = (a, w).
Proof.
  intros Hp.
  assert (One : forall env path args,
             Adapter.spawnProcess env path args a w
             = (Rejected "adapter.spawnProcess.error: process already started", a, w)).
  { intros env0 path0 args0. unfold Adapter.spawnProcess. now rewrite Hp. }
  split; [apply One|].
  induction calls as [|[[env0 path0] args0] calls IH]; [reflexivity|].
  unfold spawnAll in *. cbn [fold_left fst snd]. rewrite One. exact IH.
Qed.

(** A second call after a first one that spawned the proxy. *)
Lemma spawnProcess_already_started_witness :
  let first :=
    Adapter.spawnProcess offline "/usr/local/bin/ios_webkit_debug_proxy" None
      (Adapter.new "/ios" "ws://localhost:9000" None) empty_world in
  fst (fst first)
  = Resolved {| pid := 1; exePath := "/usr/local/bin/ios_webkit_debug_proxy";
                exeArgs := [] |}
  /\ Adapter.spawnProcess offline "/usr/local/bin/ios_webkit_debug_proxy" None
       (snd (fst first)) (snd first)
     = (Rejected "adapter.spawnProcess.error: process already started",
        snd (fst first), snd first).
Proof.
  intros first. split; [reflexivity|].
  apply (spawnProcess_already_started offline _ _ _ _
           {| pid := 1; exePath := "/usr/local/bin/ios_webkit_debug_proxy"; exeArgs := [] |}).
  reflexivity.
Defined.

(** Two calls in a row spawn one process: whatever the second call asks
    for, the world after it is the world after the first. *)
Lemma spawnProcess_twice env env' path path' args args' a w p early :
  Adapter._proxyProc a = None -> JS.truthy path = true ->
  spawn env path (default [] args) = Spawned p early ->
  let first := Adapter.spawnProcess env path args a w in
  Adapter.spawnProcess env' path' args' (snd (fst first)) (snd first)
  = (Rejected "adapter.spawnProcess.error: process already started",
     snd (fst first), snd first)
  /\ Adapter._proxyProc (snd (fst first)) = Some p.
Proof.
  intros Hn Hp Hs first.
  pose proof (spawnProcess_keeps_handle env path args a w p early Hn Hp Hs) as K.
  split; [|exact K]. subst first. unfold Adapter.spawnProcess at 1. now rewrite K.
Qed.

(** Once [stop()] has run there is no handle left, and a process can be
    spawned again. *)
Lemma stop_clears_handle a w :
  Adapter._proxyProc (fst (Adapter.stop a w)) = None.
Proof. unfold Adapter.stop. destruct (Adapter._proxyProc a) eqn:E; [reflexivity|exact E]. Qed.

(** ** Discovery by a leaf adapter *)

Lemma onReply_malformed env metadata r a w :
  Malformed env (Answered r) ->
  fst (Adapter.onReply env metadata r a w) = ([], a).
Proof.
  intros M. unfold Adapter.onReply.
  destruct (error r) as [e|] eqn:Ee; [reflexivity|].
  destruct (response r) as [resp|] eqn:Er; [|reflexivity].
  destruct (Z.eqb_spec (statusCode resp) 200) as [Hs|Hs]; [|reflexivity].
  cbn [negb].
  destruct (body r) as [b|] eqn:Eb; [|reflexivity].
  destruct (JS.truthy b) eqn:Et; [|reflexivity].
  destruct (JSON_parse_targets env b) as [[|raw]|pe] eqn:Ep; try reflexivity.
  exfalso.
  inversion M as [ | | r' e He | r' Hr | r' resp' Hr Hs' | r' Hb
                 | r' b' e' Hb Hp | r' b' Hb Hp ]; subst r'.
  - congruence.
  - congruence.
  - rewrite Er in Hr. injection Hr as <-. contradiction.
  - rewrite Eb in Hb. simpl in Hb. congruence.
  - rewrite Eb in Hb. injection Hb as <-. congruence.
  - rewrite Eb in Hb. injection Hb as <-. congruence.
Qed.

(** The promise of [getTargets] is never rejected. *)
Lemma getTargets_resolves env metadata a w :
  exists targets, fst (fst (Adapter.getTargets env metadata a w)) = Resolved targets.
Proof.
  unfold Adapter.getTargets.
  destruct (request env (Adapter._url a)) as [e|r|[r|]]; simpl; eauto.
  - destruct (Adapter.onReply _ _ _ _ _) as [[ts a'] w']. simpl. eauto.
  - destruct (Adapter.onReply _ _ _ _ _) as [[ts a'] w']. simpl. eauto.
Qed.

(** C3: on a malformed discovery response the promise of [getTargets]
    resolves to the empty list; it is not rejected, and unless a reply
    comes in after the timer has fired the adapter is left as it was. *)
Theorem getTargets_malformed env metadata a w :
  Malformed env (request env (Adapter._url a)) ->
  fst (fst (Adapter.getTargets env metadata a w)) = Resolved []
  /\ ((forall late, request env (Adapter._url a) <> TimedOut (Some late)) ->
      snd (fst (Adapter.getTargets env metadata a w)) = a).
Proof.
  intros M. unfold Adapter.getTargets.
  destruct (request env (Adapter._url a)) as [e|r|[r|]] eqn:E.
  - split; reflexivity.
  - pose proof (onReply_malformed env metadata r a
                  (emit (HttpGet (Adapter._url a)) w) M) as R.
    destruct (Adapter.onReply _ _ _ _ _) as [[ts a'] w']. simpl in *.
    injection R as -> ->. split; reflexivity.
  - destruct (Adapter.onReply _ _ _ _ _) as [[ts a'] w']. simpl.
    split; [reflexivity|]. intros N. now destruct (N r).
  - split; reflexivity.
Qed.

(** A backend that answers 404. *)
Lemma getTargets_malformed_witness :
  let env := answering {| error := None; response := Some {| statusCode := 404 |};
                          body := Some "Not Found" |} in
  let a := Adapter.new "/ios_device" "ws://localhost:9000" None in
  fst (fst (Adapter.getTargets env Undefined a empty_world)) = Resolved []
  /\ ((forall late, request env (Adapter._url a) <> TimedOut (Some late)) ->
      snd (fst (Adapter.getTargets env Undefined a empty_world)) = a).
Proof.
  apply (getTargets_malformed
           (answering {| error := None; response := Some {| statusCode := 404 |};
                         body := Some "Not Found" |})).
  apply (malformed_status _ _ {| statusCode := 404 |}); [reflexivity|]. simpl. lia.
Defined.

(** ** Sessions of a leaf adapter *)

Section Sessions.

(** Discovery and the process operations leave the sessions alone. *)
Lemma setTargetInfo_frame x metadata a w :
  Adapter._targetMap (snd (fst (Adapter.setTargetInfo x metadata a w))) = Adapter._targetMap a
  /\ heap (snd (Adapter.setTargetInfo x metadata a w)) = heap w.
Proof.
  unfold Adapter.setTargetInfo.
  destruct (JS.or_else _ _) as [id|]; [destruct (JS.truthy id)|]; split; reflexivity.
Qed.

Lemma eachTarget_frame metadata raw acc :
  Adapter._targetMap (snd (fst (fold_left (Adapter.eachTarget metadata) raw acc)))
  = Adapter._targetMap (snd (fst acc))
  /\ heap (snd (fold_left (Adapter.eachTarget metadata) raw acc)) = heap (snd acc).
Proof.
  revert acc. induction raw as [|x raw IH]; intros acc; [split; reflexivity|].
  simpl. destruct (IH (Adapter.eachTarget metadata acc x)) as [-> ->].
  destruct acc as [[targets a] w]. unfold Adapter.eachTarget.
  destruct x as [x|]; [|split; reflexivity].
  destruct (_ || _); [|split; reflexivity].
  pose proof (setTargetInfo_frame x metadata a w) as F.
  destruct (Adapter.setTargetInfo x metadata a w) as [[x' a'] w']. exact F.
Qed.

Lemma onReply_frame env metadata r a w :
  Adapter._targetMap (snd (fst (Adapter.onReply env metadata r a w))) = Adapter._targetMap a
  /\ heap (snd (Adapter.onReply env metadata r a w)) = heap w.
Proof.
  unfold Adapter.onReply.
  repeat match goal with
         | |- context [match ?x with _ => _ end] =>
             lazymatch x with
             | fold_left _ _ _ => fail
             | _ => destruct x
             end
         end; try (split; reflexivity).
  apply (eachTarget_frame metadata _ ([], a, w)).
Qed.

Lemma getTargets_frame env metadata a w :
  Adapter._targetMap (snd (fst (Adapter.getTargets env metadata a w))) = Adapter._targetMap a
  /\ heap (snd (Adapter.getTargets env metadata a w)) = heap w.
Proof.
  unfold Adapter.getTargets.
  destruct (request env (Adapter._url a)) as [e|r|[r|]]; try (split; reflexivity).
  - pose proof (onReply_frame env metadata r a (emit (HttpGet (Adapter._url a)) w)) as F.
    destruct (Adapter.onReply _ _ _ _ _) as [[ts a'] w']. exact F.
  - match goal with
    | |- context [Adapter.onReply env metadata r a ?w0] =>
        pose proof (onReply_frame env metadata r a w0) as F;
        destruct (Adapter.onReply env metadata r a w0) as [[ts a'] w']
    end. exact F.
Qed.




Lemma alter_last {A : Type} (f : A -> A) (l : list A) (x : A) :
  alter f (length l) (l ++ [x])%list = (l ++ [f x])%list.
Proof.
  rewrite <- (Nat.add_0_r (length l)) at 1. now rewrite alter_app_r.
Qed.

(** The ways [connectTo] hands out a session: the registered one, its
    client rebound, or a new one, connected and registered. *)
Lemma connectTo_Some env targetId wsFrom a w session a1 w1 :
  Adapter.connectTo env targetId wsFrom a w = (Some session, a1, w1) ->
  exists ws data,
    wsFrom = Some ws /\ targetId <> ""
    /\ Adapter._targetIdToTargetDataMap a !! targetId = Some data
    /\ ((Adapter._targetMap a !! targetId = Some session /\ a1 = a
         /\ w1 = {| heap := alter (Target.updateClient ws) session (heap w);
                    trace := trace w |})
        \/ (Adapter._targetMap a !! targetId = None /\ session = length (heap w)
            /\ a1 = Adapter.set_targetMap (<[targetId := session]> (Adapter._targetMap a)) a
            /\ heap w1
               = (heap w ++ [Target.connectTo (ITarget.webSocketDebuggerUrl data) ws
                               (Target.new targetId data)])%list
            /\ trace w1
               = (trace w
                  ++ [BackendConnect session (ITarget.webSocketDebuggerUrl data)])%list)).
Proof.
  unfold Adapter.connectTo.
  destruct targetId as [|c s]; [discriminate|]. cbn [JS.truthy negb].
  destruct wsFrom as [ws|]; [|discriminate].
  destruct (Adapter._targetIdToTargetDataMap a !! String c s) as [data|] eqn:Ed;
    [|discriminate].
  destruct (Adapter._targetMap a !! String c s) as [r|] eqn:Em.
  - intros [= <- <- <-]. exists ws, data.
    split; [reflexivity|]. split; [discriminate|]. split; [reflexivity|].
    left. repeat split; reflexivity.
  - destruct (bridge env _ ws) as [[]|e]; [|discriminate].
    intros [= <- <- <-]. exists ws, data.
    split; [reflexivity|]. split; [discriminate|]. split; [reflexivity|].
    right. repeat split; try reflexivity. simpl. apply alter_last.
Qed.




End Sessions.

Section DescriptorRegistry.

Lemma setTargetInfo_keys x metadata a w :
  keysNotEmpty a -> keysNotEmpty (snd (fst (Adapter.setTargetInfo x metadata a w))).
Proof.
  intros K. unfold Adapter.setTargetInfo.
  destruct (JS.or_else _ _) as [id|]; [|exact K].
  destruct id as [|ch id]; [exact K|]. cbn [JS.truthy fst snd].
  intros targetId data. simpl. rewrite lookup_insert.
  destruct (decide (String ch id = targetId)) as [<-|Hn]; [discriminate|apply K].
Qed.

Lemma eachTarget_keys metadata raw acc :
  keysNotEmpty (snd (fst acc)) ->
  keysNotEmpty (snd (fst (fold_left (Adapter.eachTarget metadata) raw acc))).
Proof.
  revert acc. induction raw as [|x raw IH]; intros acc K; [exact K|].
  simpl. apply IH. destruct acc as [[targets a] w]. unfold Adapter.eachTarget.
  destruct x as [x|]; [|exact K]. destruct (_ || _); [|exact K].
  pose proof (setTargetInfo_keys x metadata a w K) as K'.
  destruct (Adapter.setTargetInfo x metadata a w) as [[x' a'] w']. exact K'.
Qed.

Lemma onReply_keys env metadata r a w :
  keysNotEmpty a -> keysNotEmpty (snd (fst (Adapter.onReply env metadata r a w))).
Proof.
  intros K. unfold Adapter.onReply.
  repeat match goal with
         | |- context [match ?x with _ => _ end] =>
             lazymatch x with
             | fold_left _ _ _ => fail
             | _ => destruct x
             end
         end; try exact K.
  apply (eachTarget_keys metadata _ ([], a, w) K).
Qed.

Lemma getTargets_keys env metadata a w :
  keysNotEmpty a -> keysNotEmpty (snd (fst (Adapter.getTargets env metadata a w))).
Proof.
  intros K. unfold Adapter.getTargets.
  destruct (request env (Adapter._url a)) as [e|r|[r|]]; try exact K.
  - pose proof (onReply_keys env metadata r a (emit (HttpGet (Adapter._url a)) w) K) as F.
    destruct (Adapter.onReply _ _ _ _ _) as [[ts a'] w']. exact F.
  - match goal with
    | |- context [Adapter.onReply env metadata r a ?w0] =>
        pose proof (onReply_keys env metadata r a w0 K) as F;
        destruct (Adapter.onReply env metadata r a w0) as [[ts a'] w']
    end. exact F.
Qed.

Lemma start_registry env a w :
  Adapter._targetIdToTargetDataMap (snd (fst (Adapter.start env a w)))
  = Adapter._targetIdToTargetDataMap a.
Proof.
  unfold Adapter.start.
  destruct (IAdapterOptions.proxyExePath _) as [path|]; [|reflexivity].
  destruct (JS.truthy path); [|reflexivity].
  assert (F : Adapter._targetIdToTargetDataMap
                (snd (fst (Adapter.spawnProcess env path
                             (IAdapterOptions.proxyExeArgs (Adapter._options a)) a w)))
              = Adapter._targetIdToTargetDataMap a).
  { unfold Adapter.spawnProcess.
    destruct (Adapter._proxyProc a); [reflexivity|].
    destruct (negb (JS.truthy path)); [reflexivity|].
    destruct (spawn env path _) as [e|p [[]|]]; reflexivity. }
  destruct (Adapter.spawnProcess _ _ _ _ _) as [[[p|e] a'] w']; exact F.
Qed.

Lemma Reachable_keys a w : Reachable a w -> keysNotEmpty a.
Proof.
  induction 1 as [id socket options | env metadata a w _ IH | env targetId wsFrom a w _ IH
                 | env a w _ IH | a w _ IH].
  - intros targetId data. simpl. now rewrite lookup_empty.
  - apply getTargets_keys, IH.
  - unfold Adapter.connectTo.
    repeat match goal with
           | |- context [match ?x with _ => _ end] => destruct x
           end; exact IH.
  - unfold keysNotEmpty. now rewrite start_registry.
  - unfold Adapter.stop. destruct (Adapter._proxyProc a); exact IH.
Qed.

(** For a target id of the descriptor registry, a socket and a bridge
    that connects, [connectTo] hands out a session. *)
Lemma connectTo_hands_out env targetId data ws a w :
  Reachable a w ->
  Adapter._targetIdToTargetDataMap a !! targetId = Some data ->
  (forall e, bridge env (ITarget.webSocketDebuggerUrl data) ws <> Throws e) ->
  exists session, fst (fst (Adapter.connectTo env targetId (Some ws) a w)) = Some session.
Proof.
  intros R Hd Hb. pose proof (Reachable_keys a w R targetId data Hd) as Hne.
  unfold Adapter.connectTo. destruct targetId; [contradiction|]. cbn [JS.truthy negb].
  rewrite Hd. destruct (Adapter._targetMap a !! _); [simpl; eauto|].
  destruct (bridge env _ ws) as [[]|e] eqn:E; [simpl; eauto|]. now destruct (Hb e).
Qed.

End DescriptorRegistry.



(** ** Discovery by a collection *)

Section CollectionDiscovery.

Lemma fold_left_app_concat {A : Type} (l : list (list A)) (acc : list A) :
  fold_left (fun allTargets targets => allTargets ++ targets)%list l acc
  = (acc ++ concat l)%list.
Proof.
  revert acc. induction l as [|x l IH]; intros acc; simpl.
  - now rewrite app_nil_r.
  - now rewrite IH, app_assoc.
Qed.

(** The promises pushed by the loop resolve to the contributions of the
    adapters, the empty ones of the adapters that are skipped left out. *)
Lemma eachAdapter_contributions env this_id metadata (adapters : list (string * option Probe))
    index w :
  concat (fst (fst (AdapterCollection.eachAdapter env this_id metadata adapters index w)))
  = concat (contribution <$> adapters).
Proof.
  revert index w. induction adapters as [|[id [p|]] rest IH]; intros index w.
  - reflexivity.
  - cbn [AdapterCollection.eachAdapter AdapterCollection.child_getTargets Probe_Child fmap list_fmap].
    unfold contribution at 1. cbn [snd].
    destruct (outcome p) as [[targets|e]|e].
    + specialize (IH (S index) w).
      destruct (AdapterCollection.eachAdapter _ _ _ rest _ _) as [[ps rest'] w'].
      simpl in *. now rewrite IH.
    + match goal with
      | |- context [AdapterCollection.eachAdapter env this_id metadata rest ?i ?w0] =>
          specialize (IH i w0);
          destruct (AdapterCollection.eachAdapter env this_id metadata rest i w0)
            as [[ps rest'] w']
      end. simpl in *. exact IH.
    + match goal with
      | |- context [AdapterCollection.eachAdapter env this_id metadata rest ?i ?w0] =>
          specialize (IH i w0);
          destruct (AdapterCollection.eachAdapter env this_id metadata rest i w0)
            as [[ps rest'] w']
      end. simpl in *. exact IH.
  - cbn [AdapterCollection.eachAdapter fmap list_fmap].
    match goal with
    | |- context [AdapterCollection.eachAdapter env this_id metadata rest ?i ?w0] =>
        specialize (IH i w0);
        destruct (AdapterCollection.eachAdapter env this_id metadata rest i w0)
          as [[ps rest'] w']
    end. simpl in *. exact IH.
Qed.

(** Whatever the registered adapters are and do, the promise of a
    collection's [getTargets] is resolved, never rejected. *)
Lemma Collection_getTargets_resolves {C : Type} `{AdapterCollection.Child C}
    env metadata (c : AdapterCollection.t C) w :
  exists targets,
    fst (fst (AdapterCollection.getTargets env metadata c w)) = Resolved targets.
Proof.
  unfold AdapterCollection.getTargets.
  destruct (AdapterCollection.eachAdapter _ _ _ _ _ _) as [[[|p ps] adapters] w'];
    simpl; eauto.
Qed.

(** C5: the promise of a collection's [getTargets] resolves to the
    concatenation, in the order of the registry, of what each registered
    adapter contributes, an adapter whose discovery is rejected or throws
    contributing the empty list; the promise resolves even when every
    adapter fails. With three adapters of which the second fails, it
    resolves to the targets of the first followed by those of the third. *)
Theorem getTargets_concatenates env metadata (c : AdapterCollection.t Probe) w :
  fst (fst (AdapterCollection.getTargets env metadata c w))
  = Resolved (concat (contribution <$> AdapterCollection._adapters c))
  /\ (forall id1 id2 id3 p1 p2 p3 targets1 targets3,
        AdapterCollection._adapters c = [(id1, Some p1); (id2, Some p2); (id3, Some p3)] ->
        outcome p1 = Returns (Resolved targets1) ->
        (forall targets2, outcome p2 <> Returns (Resolved targets2)) ->
        outcome p3 = Returns (Resolved targets3) ->
        fst (fst (AdapterCollection.getTargets env metadata c w))
        = Resolved (targets1 ++ targets3)%list).
Proof.
  assert (G : fst (fst (AdapterCollection.getTargets env metadata c w))
              = Resolved (concat (contribution <$> AdapterCollection._adapters c))).
  { unfold AdapterCollection.getTargets.
    pose proof (eachAdapter_contributions env (Adapter._id (AdapterCollection.base c))
                  metadata (AdapterCollection._adapters c) 0 w) as E.
    destruct (AdapterCollection.eachAdapter _ _ _ _ _ _) as [[ps adapters'] w'].
    simpl in E. destruct ps as [|p ps]; simpl.
    - now rewrite <- E.
    - rewrite fold_left_app_concat. simpl. now rewrite <- E. }
  split; [exact G|].
  intros id1 id2 id3 p1 p2 p3 targets1 targets3 Ha H1 H2 H3.
  rewrite G, Ha. cbn [fmap list_fmap]. unfold contribution. cbn [snd].
  rewrite H1, H3. destruct (outcome p2) as [[targets2|e]|e].
  - now destruct (H2 targets2).
  - simpl. now rewrite app_nil_r.
  - simpl. now rewrite app_nil_r.
Qed.


Lemma Logger_error_trace msg w :
  trace (Logger_error msg w) = (trace w ++ [Log LError msg])%list.
Proof. reflexivity. Qed.



End CollectionDiscovery.




(** With three adapters of which the second is rejected, the targets of
    the first and of the third come back. *)
Lemma getTargets_one_of_three_fails :
  let c :=
    AdapterCollection.mk (Adapter.new "/ios" "ws://localhost:9000" None)
      [("/a", Some {| outcome := Returns (Resolved [page "a-1" "ws://127.0.0.1:9222/a/1"]);
                      received := [] |});
       ("/b", Some {| outcome := Returns (Rejected "timeout"); received := [] |});
       ("/c", Some {| outcome := Returns (Resolved [page "c-1" "ws://127.0.0.1:9224/c/1"]);
                      received := [] |})] in
  fst (fst (AdapterCollection.getTargets offline Undefined c empty_world))
  = Resolved [page "a-1" "ws://127.0.0.1:9222/a/1"; page "c-1" "ws://127.0.0.1:9224/c/1"].
Proof.
  intros c.
  refine (proj2 (getTargets_concatenates offline Undefined c empty_world)
            "/a" "/b" "/c" _ _ _ _ _ eq_refl eq_refl _ eq_refl).
  intros targets2. discriminate.
Defined.

(** ** Protocol binding *)

Section ProtocolBinding.








End ProtocolBinding.



(** ** Device adapters and their addresses *)

Section DeviceAdapters.

Lemma get_set {V : Type} k k' (v : V) m :
  OrderedMap.get k (OrderedMap.set k' v m)
  = if String.eqb k' k then Some v else OrderedMap.get k m.
Proof.
  induction m as [|[k0 v0] m IH]; simpl.
  - reflexivity.
  - destruct (String.eqb_spec k0 k') as [->|Hn]; simpl.
    + destruct (String.eqb k' k); reflexivity.
    + rewrite IH. destruct (String.eqb_spec k0 k) as [->|Hn'].
      * destruct (String.eqb_spec k' k); [congruence|reflexivity].
      * reflexivity.
Qed.

Lemma spawnProcess_id env path args a w :
  Adapter._id (snd (fst (Adapter.spawnProcess env path args a w))) = Adapter._id a.
Proof.
  unfold Adapter.spawnProcess.
  destruct (Adapter._proxyProc a); [reflexivity|].
  destruct (negb (JS.truthy path)); [reflexivity|].
  destruct (spawn env path _) as [e|p [[]|]]; reflexivity.
Qed.

Lemma start_id env a w :
  Adapter._id (snd (fst (Adapter.start env a w))) = Adapter._id a.
Proof.
  unfold Adapter.start.
  destruct (IAdapterOptions.proxyExePath _) as [path|]; [|reflexivity].
  destruct (JS.truthy path); [|reflexivity].
  pose proof (spawnProcess_id env path
                (IAdapterOptions.proxyExeArgs (Adapter._options a)) a w) as F.
  destruct (Adapter.spawnProcess _ _ _ _ _) as [[[p|e] a'] w']; exact F.
Qed.

Lemma eachDevice_createdFor env this devices acc d :
  Forall (createdFor this devices) (fst acc) -> In d devices ->
  Forall (createdFor this devices) (fst (IOSAdapter.eachDevice env this acc d)).
Proof.
  intros Hacc Hin. destruct acc as [pending w]. unfold IOSAdapter.eachDevice.
  destruct d as [d|]; [|exact Hacc].
  destruct (IIOSDeviceTarget.deviceId d) as [deviceId|] eqn:Ed; [|exact Hacc].
  destruct (negb (JS.truthy deviceId)); [exact Hacc|].
  destruct (OrderedMap.has _ _); [exact Hacc|].
  destruct (IIOSDeviceTarget.url d) as [url|]; [|exact Hacc].
  destruct (negb (JS.truthy url)); [exact Hacc|].
  destruct (JS.split ":" url) as [|? [|portStr ?]]; try exact Hacc.
  destruct (JS.parseInt portStr) as [port|]; [|exact Hacc].
  destruct (port <=? 0)%Z; [exact Hacc|].
  unfold IOSAdapter.createSingleDeviceAdapter.
  match goal with
  | |- context [Adapter.start env ?a ?w0] =>
      pose proof (start_id env a w0) as Hid;
      destruct (Adapter.start env a w0) as [[started a'] w']
  end.
  simpl in *. apply Forall_app. split; [exact Hacc|].
  constructor; [|constructor]. repeat split; simpl; eauto.
Qed.

Lemma eachDevice_fold_createdFor env this devices rest acc :
  Forall (createdFor this devices) (fst acc) -> (forall d, In d rest -> In d devices) ->
  Forall (createdFor this devices) (fst (fold_left (IOSAdapter.eachDevice env this) rest acc)).
Proof.
  revert acc. induction rest as [|d rest IH]; intros acc Hacc Hsub; [exact Hacc|].
  simpl. apply IH.
  - apply eachDevice_createdFor; [exact Hacc|]. apply Hsub. now left.
  - intros d' Hd'. apply Hsub. now right.
Qed.

Lemma resume_fold pending this w key child :
  let after :=
    fold_left (fun acc p => IOSAdapter.resumeSingleDeviceAdapter p (fst acc) (snd acc))
      pending (this, w) in
  AdapterCollection.base (IOSAdapter.collection (fst after))
  = AdapterCollection.base (IOSAdapter.collection this)
  /\ (OrderedMap.get key (IOSAdapter._adapters (fst after)) = Some (Some child) ->
      OrderedMap.get key (IOSAdapter._adapters this) = Some (Some child)
      \/ exists p, In p pending /\ IOSAdapter.pendingId p = key
                   /\ IOSAdapter.pendingAdapter p = child).
Proof.
  revert this w. induction pending as [|p pending IH]; intros this w; [simpl; auto|].
  cbn [fold_left fst snd].
  destruct (IH (fst (IOSAdapter.resumeSingleDeviceAdapter p this w))
               (snd (IOSAdapter.resumeSingleDeviceAdapter p this w))) as [Hb Hg].
  rewrite <- surjective_pairing in Hb, Hg.
  unfold IOSAdapter.resumeSingleDeviceAdapter in Hb, Hg |- *.
  destruct (IOSAdapter.pendingStart p) as [started|e]; cbn [fst snd] in Hb, Hg |- *.
  - split; [exact Hb|]. intros G. destruct (Hg G) as [G'|(q & Hq & Hk & Hc)].
    + unfold IOSAdapter._adapters, IOSAdapter.set_adapters in G'. simpl in G'.
      rewrite get_set in G'. destruct (String.eqb_spec (IOSAdapter.pendingId p) key).
      * injection G' as <-. right. exists p. split; [now left|auto].
      * now left.
    + right. exists q. split; [now right|auto].
  - split; [exact Hb|]. intros G. destruct (Hg G) as [G'|(q & Hq & Hk & Hc)].
    + now left.
    + right. exists q. split; [now right|auto].
Qed.

(** An adapter registered by [createDeviceAdapters] is one that was
    registered before, or one created for a device of the batch, under
    the id of the collection, an underscore and the id of the device. *)
Lemma createDeviceAdapters_keys env devices this w key child :
  let after := fst (IOSAdapter.createDeviceAdapters env devices this w) in
  IOSAdapter._id after = IOSAdapter._id this
  /\ (OrderedMap.get key (IOSAdapter._adapters after) = Some (Some child) ->
      OrderedMap.get key (IOSAdapter._adapters this) = Some (Some child)
      \/ (Adapter._id child = key
          /\ exists d deviceId,
               In (Some d) devices /\ IIOSDeviceTarget.deviceId d = Some deviceId
               /\ key = IOSAdapter._id this ++ "_" ++ deviceId)).
Proof.
  unfold IOSAdapter.createDeviceAdapters.
  pose proof (eachDevice_fold_createdFor env this devices devices ([], w)
                ltac:(constructor) (fun d H => H)) as Hc.
  destruct (fold_left (IOSAdapter.eachDevice env this) devices ([], w)) as [pending w1].
  cbn [fst] in Hc. destruct (resume_fold pending this w1 key child) as [Hb Hg].
  cbv zeta. split; [unfold IOSAdapter._id; now rewrite Hb|].
  intros G. destruct (Hg G) as [G'|(p & Hp & Hk & Ha)]; [now left|right].
  rewrite Forall_forall in Hc. destruct (Hc p) as (H1 & H2 & d & Hd & Hi).
  { now apply list_elem_of_In. }
  subst key child. split; [exact H2|]. exists d, (IOSAdapter.pendingDeviceId p). auto.
Qed.

Lemma getWebSocketId_Some this_id url w decoded :
  fst (AdapterCollection.getWebSocketId this_id url w) = Some decoded ->
  AdapterCollection.getWebSocketId this_id url w = (Some decoded, w).
Proof.
  unfold AdapterCollection.getWebSocketId.
  destruct (negb (JS.truthy url)); [discriminate|].
  destruct (JS.indexOf "/" 1 url) as [index|]; [|discriminate].
  destruct (_ || _); [discriminate|]. now intros [= <-].
Qed.

(** An address made of a registered key without inner slash, a slash
    and a target id is decoded in one step, and the adapter under the key
    is asked for the target id as it stands. *)
Lemma connectTo_routes env key targetId ws (c : AdapterCollection.t Adapter.t) child w :
  OrderedMap.get key (AdapterCollection._adapters c) = Some (Some child) ->
  key <> "" -> JS.find_char "/" (JS.drop 1 key) = None -> targetId <> "" ->
  let direct := Adapter.connectTo env targetId (Some ws) child w in
  AdapterCollection.getWebSocketId (Adapter._id (AdapterCollection.base c))
    (key ++ "/" ++ targetId) w = (Some (key, targetId), w)
  /\ AdapterCollection.connectTo env (key ++ "/" ++ targetId) (Some ws) c w
     = (fst (fst direct),
        AdapterCollection.mk (AdapterCollection.base c)
          (OrderedMap.set key (Some (snd (fst direct))) (AdapterCollection._adapters c)),
        snd direct).
Proof.
  intros Hg Hk Hs Ht direct.
  assert (D : AdapterCollection.getWebSocketId (Adapter._id (AdapterCollection.base c))
                (key ++ "/" ++ targetId) w = (Some (key, targetId), w)).
  { apply getWebSocketId_Some, getWebSocketId_decodes.
    destruct key as [|ch seg]; [contradiction|]. split; [eauto|]. auto. }
  split; [exact D|].
  unfold AdapterCollection.connectTo. rewrite D, Hg.
  destruct key as [|ch seg]; [contradiction|]. rewrite append_cons. cbn [JS.truthy negb].
  cbn [AdapterCollection.child_connectTo Adapter_Child]. unfold direct.
  now destruct (Adapter.connectTo env targetId (Some ws) child w) as [[r a'] w'].
Qed.

End DeviceAdapters.

(** C10, as stated, fails for a device whose id holds a slash: its
    adapter is registered under ["/ios_lab/2"], its page is published
    under the address ["/ios_lab/2/page-1"], and that address decodes to
    the first piece ["/ios_lab"], which is no key of the registry, so
    that no session is found, while the adapter itself knows the page. *)
Lemma slash_in_device_id_breaks_decoding :
  let device :=
    IIOSDeviceTarget.mk (Some "lab/2") (Some "12.2") (Some "localhost:9222") None in
  let discovered := IOSAdapter.getTargets (listing device) iosAdapter empty_world in
  let this := snd (fst discovered) in
  map fst (IOSAdapter._adapters this) = ["/ios_lab/2"]
  /\ (exists published,
        fst (fst discovered) = Resolved [published]
        /\ ITarget.webSocketDebuggerUrl published
           = Some "ws://localhost:9000/ios_lab/2/page-1")
  /\ fst (AdapterCollection.getWebSocketId "/ios" "/ios_lab/2/page-1" (snd discovered))
     = Some ("/ios_lab", "2/page-1")
  /\ fst (fst (IOSAdapter.connectTo (listing device) "/ios_lab/2/page-1" (Some 7) this
                 (snd discovered))) = None
  /\ (exists child,
        OrderedMap.get "/ios_lab/2" (IOSAdapter._adapters this) = Some (Some child)
        /\ fst (fst (Adapter.connectTo (listing device) "page-1" (Some 7) child
                       (snd discovered))) = Some 0).
Proof.
  cbv zeta. split; [reflexivity|]. split; [eexists; split; reflexivity|].
  split; [reflexivity|]. split; [reflexivity|]. eexists. split; reflexivity.
Qed.

(** C10, amended: an adapter that [createDeviceAdapters] adds to the
    registry is registered under the id of the collection, an
    underscore and the id of a device of the batch, and that key is its
    own id. When the key holds no slash after its first character, the
    address of one of its targets, which is its id, a slash and the
    target id, decodes in one step to the key and the target id, and the
    collection hands the target id as it stands to that adapter, which
    looks it up without decoding anything. *)
Theorem device_address_decodes env env' devices this w key child ws targetId w' :
  let after := fst (IOSAdapter.createDeviceAdapters env devices this w) in
  let direct := Adapter.connectTo env' targetId (Some ws) child w' in
  OrderedMap.get key (IOSAdapter._adapters after) = Some (Some child) ->
  OrderedMap.get key (IOSAdapter._adapters this) = None ->
  JS.find_char "/" (JS.drop 1 key) = None ->
  targetId <> "" ->
  (exists d deviceId,
      In (Some d) devices /\ IIOSDeviceTarget.deviceId d = Some deviceId
      /\ key = IOSAdapter._id this ++ "_" ++ deviceId)
  /\ Adapter._id child = key
  /\ AdapterCollection.getWebSocketId (IOSAdapter._id after)
       (Adapter._id child ++ "/" ++ targetId) w' = (Some (key, targetId), w')
  /\ AdapterCollection.connectTo env' (Adapter._id child ++ "/" ++ targetId) (Some ws)
       (IOSAdapter.collection after) w'
     = (fst (fst direct),
        AdapterCollection.mk (AdapterCollection.base (IOSAdapter.collection after))
          (OrderedMap.set key (Some (snd (fst direct))) (IOSAdapter._adapters after)),
        snd direct).
Proof.
  intros after direct Hg Hn Hs Ht.
  destruct (createDeviceAdapters_keys env devices this w key child) as [Hid Hk].
  destruct (Hk Hg) as [Hold|(Hc & d & deviceId & Hd & Hi & Hkey)]; [congruence|].
  split; [eauto|]. split; [exact Hc|]. rewrite Hc.
  assert (Hne : key <> "").
  { rewrite Hkey. destruct (IOSAdapter._id this); discriminate. }
  exact (connectTo_routes env' key targetId ws (IOSAdapter.collection after) child w'
           Hg Hne Hs Ht).
Qed.

(** The adapter created for a device with a UDID. *)
Lemma device_address_decodes_witness :
  let key := "/ios_00008030-001A2D4E3C52802E" in
  let child :=
    Adapter.new key "ws://localhost:9000"
      (Some (IAdapterOptions.mk None None None (Some 9222%Z) None None)) in
  let after :=
    fst (IOSAdapter.createDeviceAdapters lab [Some iPhone] iosAdapter empty_world) in
  Adapter._id child = key
  /\ AdapterCollection.getWebSocketId (IOSAdapter._id after)
       (Adapter._id child ++ "/" ++ "page-1") empty_world
     = (Some (key, "page-1"), empty_world).
Proof.
  intros key child after.
  destruct (device_address_decodes lab lab [Some iPhone] iosAdapter empty_world key child
              7 "page-1" empty_world) as (_ & H1 & H2 & _).
  - reflexivity.
  - reflexivity.
  - reflexivity.
  - discriminate.
  - split; [exact H1|exact H2].
Defined.

(** * Further properties *)

(** ** The leaf adapter *)

Section LeafAdapter.

Lemma find_char_append_None c p r :
  JS.find_char c p = None -> JS.find_char c r = None -> JS.find_char c (p ++ r) = None.
Proof.
  induction p as [|x p IH]; [auto|].
  rewrite append_cons. simpl. destruct (Ascii.eqb x c); [discriminate|].
  destruct (JS.find_char c p); [discriminate|]. intros _ Hr. now rewrite IH.
Qed.

Lemma Later_refl a : Later a a.
Proof. split; auto. Qed.

Lemma Later_trans a b c : Later a b -> Later b c -> Later a c.
Proof.
  intros [I P T D] [I' P' T' D']. split; try congruence. auto.
Qed.

Lemma Published_Later a a' x : Later a a' -> Published a x -> Published a' x.
Proof.
  intros [I P T D] (targetId & Hne & Hid & Ht & Hu & Hr).
  exists targetId. rewrite I, P, T. repeat split; auto.
Qed.

Lemma setTargetInfo_Later x metadata a w :
  Later a (snd (fst (Adapter.setTargetInfo x metadata a w))).
Proof.
  unfold Adapter.setTargetInfo.
  destruct (JS.or_else _ _) as [id|]; [|apply Later_refl].
  destruct (JS.truthy id); [|apply Later_refl].
  split; try reflexivity. intros targetId Hs. simpl.
  rewrite lookup_insert. now destruct (decide (id = targetId)).
Qed.

Lemma setTargetInfo_Published x metadata a w :
  JS.truthy_opt (ITarget.id x) || JS.truthy_opt (ITarget.webSocketDebuggerUrl x) = true ->
  Published (snd (fst (Adapter.setTargetInfo x metadata a w)))
            (fst (fst (Adapter.setTargetInfo x metadata a w))).
Proof.
  intros Hv. unfold Adapter.setTargetInfo, JS.or_else.
  assert (E : exists ch id,
             (if JS.truthy_opt (ITarget.id x) then ITarget.id x
              else ITarget.webSocketDebuggerUrl x) = Some (String ch id)).
  { destruct (ITarget.id x) as [[|ch id]|]; simpl in *; eauto;
      destruct (ITarget.webSocketDebuggerUrl x) as [[|ch id]|]; simpl in *;
      eauto; discriminate. }
  destruct E as (ch & id & ->). cbn [JS.truthy fst snd].
  exists (String ch id). simpl. rewrite lookup_insert_eq.
  repeat split; try reflexivity; [discriminate|eauto].
Qed.

Lemma eachTarget_Published metadata raw acc :
  Forall (Published (snd (fst acc))) (fst (fst acc)) ->
  let after := fold_left (Adapter.eachTarget metadata) raw acc in
  Forall (Published (snd (fst after))) (fst (fst after))
  /\ Later (snd (fst acc)) (snd (fst after)).
Proof.
  revert acc. induction raw as [|x raw IH]; intros acc Hacc; [split; [exact Hacc|apply Later_refl]|].
  cbn [fold_left].
  assert (Step : Forall (Published (snd (fst (Adapter.eachTarget metadata acc x))))
                   (fst (fst (Adapter.eachTarget metadata acc x)))
                 /\ Later (snd (fst acc)) (snd (fst (Adapter.eachTarget metadata acc x)))).
  { destruct acc as [[targets a] w]. unfold Adapter.eachTarget. cbn [fst snd] in Hacc.
    destruct x as [x|]; [|split; [exact Hacc|apply Later_refl]].
    destruct (_ || _) eqn:Hv; [|split; [exact Hacc|apply Later_refl]].
    pose proof (setTargetInfo_Later x metadata a w) as L.
    pose proof (setTargetInfo_Published x metadata a w Hv) as P.
    destruct (Adapter.setTargetInfo x metadata a w) as [[x' a'] w']. cbn [fst snd] in *.
    split; [|exact L]. apply Forall_app. split.
    - eapply Forall_impl; [exact Hacc|]. intros y. apply Published_Later, L.
    - constructor; [exact P|constructor]. }
  destruct Step as [S1 S2]. destruct (IH _ S1) as [I1 I2].
  split; [exact I1|]. eapply Later_trans; eauto.
Qed.

Lemma onReply_Published env metadata r a w :
  let after := Adapter.onReply env metadata r a w in
  Forall (Published (snd (fst after))) (fst (fst after)) /\ Later a (snd (fst after)).
Proof.
  unfold Adapter.onReply.
  repeat match goal with
         | |- context [match ?x with _ => _ end] =>
             lazymatch x with
             | fold_left _ _ _ => fail
             | _ => destruct x
             end
         end; try (split; [constructor|apply Later_refl]).
  apply (eachTarget_Published metadata _ ([], a, w)). constructor.
Qed.

Lemma getTargets_Published env metadata a w targets :
  fst (fst (Adapter.getTargets env metadata a w)) = Resolved targets ->
  Forall (Published (snd (fst (Adapter.getTargets env metadata a w)))) targets
  /\ Later a (snd (fst (Adapter.getTargets env metadata a w))).
Proof.
  unfold Adapter.getTargets.
  destruct (request env (Adapter._url a)) as [e|r|[r|]].
  - intros [= <-]. split; [constructor|apply Later_refl].
  - pose proof (onReply_Published env metadata r a (emit (HttpGet (Adapter._url a)) w)) as F.
    destruct (Adapter.onReply _ _ _ _ _) as [[ts a'] w']. cbn [fst snd] in *.
    now intros [= <-].
  - match goal with
    | |- context [Adapter.onReply env metadata r a ?w0] =>
        pose proof (onReply_Published env metadata r a w0) as F;
        destruct (Adapter.onReply env metadata r a w0) as [[ts a'] w']
    end. cbn [fst snd] in *. intros [= <-]. split; [constructor|apply F].
  - intros [= <-]. split; [constructor|apply Later_refl].
Qed.

Lemma forwardTo_registered forward targetId message a w sent (session : nat) :
  Adapter._targetMap a !! targetId = Some session ->
  targetId <> "" -> message <> "" ->
  forward session message = Returns tt ->
  Adapter.forwardTo forward targetId message a w sent
  = (w, (sent ++ [(session, message)])%list).
Proof.
  intros M Hne Hm Hf. unfold Adapter.forwardTo.
  destruct targetId; [contradiction|]. destruct message; [contradiction|].
  cbn [JS.truthy negb]. now rewrite M, Hf.
Qed.

Lemma connectTo_registers env targetId wsFrom a w session a1 w1 :
  Adapter.connectTo env targetId wsFrom a w = (Some session, a1, w1) ->
  Adapter._targetMap a1 !! targetId = Some session /\ targetId <> "".
Proof.
  intros E. apply connectTo_Some in E
    as (ws0 & data & _ & Hne & Hd & [(Hm' & -> & ->)|(Hm' & -> & -> & Hh & Ht)]).
  - auto.
  - split; [apply lookup_insert_eq|auto].
Qed.

Lemma start_world env a w w' :
  fst (Adapter.start env a w) = fst (Adapter.start env a w').
Proof.
  unfold Adapter.start, Adapter.spawnProcess.
  destruct (IAdapterOptions.proxyExePath _) as [path|]; [|reflexivity].
  destruct (JS.truthy path); [|reflexivity].
  destruct (Adapter._proxyProc a); [reflexivity|]. cbn [negb].
  destruct (spawn env path _) as [e|p [[]|]]; reflexivity.
Qed.

End LeafAdapter.

(** X1: the type tag of an adapter whose id is a slash, a first segment
    and then nothing or a further path is an underscore followed by that
    first segment. *)
Theorem adapterType_first_segment socket options segment rest :
  JS.find_char "/" segment = None ->
  rest = "" \/ (exists r, rest = "/" ++ r) ->
  Adapter._adapterType (Adapter.new ("/" ++ segment ++ rest) socket options)
  = "_" ++ segment.
Proof.
  intros Hs Hr. unfold Adapter.new. cbn [Adapter._adapterType].
  change ("/" ++ segment ++ rest) with (String "/"%char (segment ++ rest)).
  unfold JS.indexOf. rewrite drop_S_cons. cbn [JS.drop].
  destruct Hr as [->|[r ->]].
  - rewrite find_char_append_None by (auto; reflexivity).
    cbn [fmap option_fmap option_map].
    replace (segment ++ "") with segment.
    + reflexivity.
    + clear Hs. induction segment as [|x s IH]; [reflexivity|].
      rewrite append_cons. now rewrite <- IH.
  - change ("/" ++ r) with (String "/"%char r). rewrite (find_char_app _ _ _ Hs).
    cbn [fmap option_fmap option_map]. unfold JS.substr.
    rewrite drop_S_cons. cbn [JS.drop].
    replace (1 + String.length segment - 1) with (String.length segment) by lia.
    now rewrite take_app_length.
Qed.

(** An adapter for a device below a collection. *)
Lemma adapterType_first_segment_witness :
  Adapter._adapterType (Adapter.new ("/" ++ "ios" ++ "/device") "ws://localhost:9000" None)
  = "_" ++ "ios".
Proof.
  apply adapterType_first_segment; [reflexivity|]. right. exists "device". reflexivity.
Defined.



(** X3: a descriptor an adapter hands back from a discovery can be
    connected to: with its id, a socket and a bridge that connects,
    [connectTo] on the adapter as the discovery left it hands out a
    session. *)
Theorem discovered_target_connects env metadata a w env' ws targets x targetId :
  fst (fst (Adapter.getTargets env metadata a w)) = Resolved targets ->
  In x targets ->
  ITarget.id x = Some targetId ->
  (forall url e, bridge env' url ws <> Throws e) ->
  exists session,
    fst (fst (Adapter.connectTo env' targetId (Some ws)
                (snd (fst (Adapter.getTargets env metadata a w)))
                (snd (Adapter.getTargets env metadata a w)))) = Some session.
Proof.
  intros Hg Hin Hid Hb.
  destruct (getTargets_Published env metadata a w targets Hg) as [P _].
  rewrite Forall_forall in P.
  destruct (P x) as (tid & Hne & Hid' & _ & _ & [data Hd]); [now apply list_elem_of_In|].
  assert (tid = targetId) by congruence. subst tid.
  unfold Adapter.connectTo. destruct targetId; [contradiction|]. cbn [JS.truthy negb].
  rewrite Hd. destruct (Adapter._targetMap _ !! _); [simpl; eauto|].
  destruct (bridge env' _ ws) as [[]|e] eqn:E; [simpl; eauto|].
  now destruct (Hb _ _ E).
Qed.

(** The page a device adapter discovers, then a connection to it. *)
Lemma discovered_target_connects_witness :
  let env := serving [Some (page "page-1" "ws://127.0.0.1:9222/devtools/page/1")] in
  let discovered :=
    Adapter.getTargets env Undefined (Adapter.new "/ios_device" "ws://localhost:9000" None)
      empty_world in
  exists session,
    fst (fst (Adapter.connectTo offline "page-1" (Some 7) (snd (fst discovered))
                (snd discovered))) = Some session.
Proof.
  intros env discovered.
  destruct (fst (fst discovered)) as [[|x []]|] eqn:E; try discriminate E.
  refine (discovered_target_connects env Undefined _ empty_world offline 7 [x] x "page-1"
            E ltac:(now left) _ _).
  - injection E as <-. reflexivity.
  - intros url e. discriminate.
Defined.

(** X4: a discovery, however it goes, loses no descriptor of the
    registry and leaves the sessions alone: the session registry and the
    store are what they were, and so is the identity of the adapter. *)
Theorem getTargets_keeps_registries env metadata a w :
  let after := Adapter.getTargets env metadata a w in
  (forall targetId,
      is_Some (Adapter._targetIdToTargetDataMap a !! targetId) ->
      is_Some (Adapter._targetIdToTargetDataMap (snd (fst after)) !! targetId))
  /\ Adapter._targetMap (snd (fst after)) = Adapter._targetMap a
  /\ heap (snd after) = heap w
  /\ Adapter._id (snd (fst after)) = Adapter._id a.
Proof.
  intros after. destruct (getTargets_frame env metadata a w) as [Hm Hh].
  destruct (getTargets_resolves env metadata a w) as [targets Ht].
  destruct (getTargets_Published env metadata a w targets Ht) as [_ [I _ _ D]].
  repeat split; auto.
Qed.

(** X5: when [connectTo] hands out no session, it has logged one error
    and has changed nothing else: the adapter is what it was, no backend
    connection was made, and the objects of the store are what they were. *)
Theorem connectTo_null_changes_nothing env targetId wsFrom a w :
  let r := Adapter.connectTo env targetId wsFrom a w in
  fst (fst r) = None ->
  snd (fst r) = a
  /\ (exists msg, trace (snd r) = (trace w ++ [Log LError msg])%list)
  /\ (forall (i : nat) x, heap w !! i = Some x -> heap (snd r) !! i = Some x).
Proof.
  unfold Adapter.connectTo.
  destruct (negb (JS.truthy targetId)); [intros _; simpl; eauto|].
  destruct wsFrom as [ws|]; [|intros _; simpl; eauto].
  destruct (Adapter._targetIdToTargetDataMap a !! targetId) as [data|];
    [|intros _; simpl; eauto].
  destruct (Adapter._targetMap a !! targetId) as [existing|]; [discriminate|].
  destruct (bridge env _ ws) as [[]|e]; [discriminate|].
  intros _. simpl. split; [reflexivity|]. split; [eauto|].
  intros i x Hx. rewrite lookup_app_l; [exact Hx|]. eapply lookup_lt_Some; eauto.
Qed.

(** A target id no discovery has listed. *)
Lemma connectTo_null_changes_nothing_witness :
  let a := Adapter.new "/ios_device" "ws://localhost:9000" None in
  snd (fst (Adapter.connectTo offline "page-9" (Some 7) a empty_world)) = a.
Proof.
  intros a.
  exact (proj1 (connectTo_null_changes_nothing offline "page-9" (Some 7) a empty_world
                  eq_refl)).
Defined.

(** X6: [stop()] is idempotent. The first call signals the managed
    process, if there is one, once with SIGTERM and forgets its handle; a
    second call changes nothing. Neither touches the sessions. *)
Theorem stop_idempotent a w :
  let once := Adapter.stop a w in
  Adapter.stop (fst once) (snd once) = once
  /\ Adapter._proxyProc (fst once) = None
  /\ trace (snd once)
     = (trace w ++ match Adapter._proxyProc a with
                   | Some p => [Kill p "SIGTERM"]
                   | None => []
                   end)%list
  /\ Adapter._targetMap (fst once) = Adapter._targetMap a
  /\ heap (snd once) = heap w.
Proof.
  unfold Adapter.stop. destruct (Adapter._proxyProc a) as [p|] eqn:E; simpl.
  - repeat split; reflexivity.
  - rewrite E, app_nil_r. repeat split; reflexivity.
Qed.

(** X7: after [stop()], a process can be started again: on an adapter
    that held a handle, [spawnProcess] after [stop()] resolves to the new
    process when it gets one that survives the grace window, and the
    handle is the new one. *)
Theorem stop_then_spawnProcess env path args a w p :
  JS.truthy path = true ->
  spawn env path (default [] args) = Spawned p None ->
  let stopped := Adapter.stop a w in
  let again := Adapter.spawnProcess env path args (fst stopped) (snd stopped) in
  fst (fst again) = Resolved p
  /\ Adapter._proxyProc (snd (fst again)) = Some p
  /\ trace (snd again) = (trace (snd stopped) ++ [Spawn path (default [] args)])%list.
Proof.
  intros Hp Hs stopped again. subst again.
  pose proof (stop_clears_handle a w) as Hn. fold stopped in Hn.
  unfold Adapter.spawnProcess. rewrite Hn, Hp, Hs. repeat split; reflexivity.
Qed.

(** The proxy is spawned, stopped and spawned again. *)
Lemma stop_then_spawnProcess_witness :
  let path := "/usr/local/bin/ios_webkit_debug_proxy" in
  let first :=
    Adapter.spawnProcess offline path None (Adapter.new "/ios" "ws://localhost:9000" None)
      empty_world in
  let stopped := Adapter.stop (snd (fst first)) (snd first) in
  fst (fst (Adapter.spawnProcess offline path None (fst stopped) (snd stopped)))
  = Resolved {| pid := 1; exePath := path; exeArgs := [] |}.
Proof.
  intros path first stopped.
  exact (proj1 (stop_then_spawnProcess offline path None (snd (fst first)) (snd first)
                  {| pid := 1; exePath := path; exeArgs := [] |} eq_refl eq_refl)).
Defined.


(** X9: a frame forwarded to a target id right after [connectTo] has
    handed out a session for it is handed to that session, and to that
    one only: the frames sent grow by this one, the world does not change. *)
Theorem forwardTo_after_connectTo env forward targetId message ws a w session a1 w1 sent :
  Adapter.connectTo env targetId (Some ws) a w = (Some session, a1, w1) ->
  message <> "" ->
  forward session message = Returns tt ->
  Adapter.forwardTo forward targetId message a1 w1 sent
  = (w1, (sent ++ [(session, message)])%list).
Proof.
  intros E Hm Hf. destruct (connectTo_registers _ _ _ _ _ _ _ _ E) as [M Hne].
  now apply forwardTo_registered.
Qed.

(** A connection to a discovered page, then a frame for it. *)
Lemma forwardTo_after_connectTo_witness :
  let env := serving [Some (page "page-1" "ws://127.0.0.1:9222/devtools/page/1")] in
  let discovered :=
    Adapter.getTargets env Undefined (Adapter.new "/ios_device" "ws://localhost:9000" None)
      empty_world in
  let connected := Adapter.connectTo env "page-1" (Some 7) (snd (fst discovered))
                     (snd discovered) in
  Adapter.forwardTo (fun _ _ => Returns tt) "page-1" "{}" (snd (fst connected))
    (snd connected) []
  = (snd connected, [(0, "{}")]).
Proof.
  intros env discovered connected.
  apply (forwardTo_after_connectTo env (fun _ _ => Returns tt) "page-1" "{}" 7
           (snd (fst discovered)) (snd discovered) 0 (snd (fst connected)) (snd connected) []).
  - reflexivity.
  - discriminate.
  - reflexivity.
Defined.

(** X10: [forwardTo] hands a frame to a session only when the target
    id has a session registered, the message is not empty and the
    session takes it; in every other case the frame is dropped: nothing
    is sent and one entry is logged. It never touches the store. *)
Theorem forwardTo_delivers_or_drops forward targetId message a w sent :
  let r := Adapter.forwardTo forward targetId message a w sent in
  heap (fst r) = heap w
  /\ ((exists session,
         Adapter._targetMap a !! targetId = Some session /\ message <> ""
         /\ forward session message = Returns tt
         /\ r = (w, (sent ++ [(session, message)])%list))
      \/ (snd r = sent
          /\ exists level msg, trace (fst r) = (trace w ++ [Log level msg])%list)).
Proof.
  unfold Adapter.forwardTo.
  destruct (negb (JS.truthy targetId)); [simpl; eauto 8|].
  destruct message as [|ch message]; [simpl; eauto 8|]. cbn [JS.truthy negb].
  destruct (Adapter._targetMap a !! targetId) as [session|]; [|simpl; eauto 8].
  destruct (forward session (String ch message)) as [[]|e] eqn:E; [|simpl; eauto 8].
  split; [reflexivity|]. left. exists session.
  split; [reflexivity|]. split; [discriminate|]. split; [exact E|reflexivity].
Qed.

(** ** The collection *)

Section CollectionRegistry.
Context {C : Type}.

Lemma sameKeys_refl (m : list (string * option C)) : sameKeys m m.
Proof. induction m; constructor; auto; tauto. Qed.

Lemma sameKeys_get (m m' : list (string * option C)) key :
  sameKeys m m' ->
  (OrderedMap.get key m = None <-> OrderedMap.get key m' = None)
  /\ (OrderedMap.get key m = Some None <-> OrderedMap.get key m' = Some None).
Proof.
  induction 1 as [|[k v] [k' v'] m m' [Hk Hv] _ IH]; [tauto|]. simpl in *. subst k'.
  destruct (String.eqb k key); [|exact IH]. split; [split; discriminate|].
  split; intros [= E]; f_equal; tauto.
Qed.

Lemma set_sameKeys (m : list (string * option C)) key old new :
  OrderedMap.get key m = Some (Some old) ->
  sameKeys m (OrderedMap.set key (Some new) m).
Proof.
  induction m as [|[k v] m IH]; [discriminate|]. simpl.
  destruct (String.eqb_spec k key) as [->|Hn].
  - intros [= ->]. constructor; [|apply sameKeys_refl]. simpl. split; [reflexivity|].
    split; discriminate.
  - intros G. constructor; [simpl; tauto|exact (IH G)].
Qed.

Lemma eachAdapter_sameKeys `{AdapterCollection.Child C} env this_id metadata
    (adapters : list (string * option C)) index w :
  sameKeys adapters
    (snd (fst (AdapterCollection.eachAdapter env this_id metadata adapters index w))).
Proof.
  revert index w. induction adapters as [|[id [c|]] rest IH]; intros index w.
  - constructor.
  - cbn [AdapterCollection.eachAdapter].
    destruct (AdapterCollection.child_getTargets env _ c w) as [[[[targets|e]|e] c'] w1];
      match goal with
      | |- context [AdapterCollection.eachAdapter env this_id metadata rest ?i ?w0] =>
          specialize (IH i w0);
          destruct (AdapterCollection.eachAdapter env this_id metadata rest i w0)
            as [[ps rest'] w']
      end; cbn [fst snd] in *; (constructor; [|exact IH]); simpl;
      (split; [reflexivity|split; discriminate]).
  - cbn [AdapterCollection.eachAdapter].
    match goal with
    | |- context [AdapterCollection.eachAdapter env this_id metadata rest ?i ?w0] =>
        specialize (IH i w0);
        destruct (AdapterCollection.eachAdapter env this_id metadata rest i w0)
          as [[ps rest'] w']
    end. cbn [fst snd] in *. constructor; [|exact IH]. simpl. tauto.
Qed.

End CollectionRegistry.

(** X11: a discovery by a collection, whatever the registered adapters
    are and do, leaves the registry with the same keys in the same order
    (and the same entries missing), and leaves alone the adapter the
    collection itself extends. *)
Theorem Collection_getTargets_keeps_keys {C : Type} `{AdapterCollection.Child C}
    env metadata (c : AdapterCollection.t C) w :
  let after := snd (fst (AdapterCollection.getTargets env metadata c w)) in
  sameKeys (AdapterCollection._adapters c) (AdapterCollection._adapters after)
  /\ map fst (AdapterCollection._adapters after) = map fst (AdapterCollection._adapters c)
  /\ AdapterCollection.base after = AdapterCollection.base c.
Proof.
  unfold AdapterCollection.getTargets.
  pose proof (eachAdapter_sameKeys env (Adapter._id (AdapterCollection.base c)) metadata
                (AdapterCollection._adapters c) 0 w) as K.
  destruct (AdapterCollection.eachAdapter _ _ _ _ _ _) as [[[|p ps] adapters] w'];
    cbn [fst snd AdapterCollection._adapters AdapterCollection.base] in *;
    (split; [exact K|]); (split; [|reflexivity]);
    clear -K; induction K as [|? ? ? ? [Hk _] _ IH]; simpl; congruence.
Qed.

(** X12: [connectTo] on a collection can change no registered adapter
    but the one its address names: the keys of the registry stay what
    they were, and so does every entry under a key other than the decoded
    first piece of the address, as does the adapter the collection
    extends. When the address does not decode, or names no adapter, no
    session is handed out and the collection is left as it was. *)
Theorem Collection_connectTo_isolates {C : Type} `{AdapterCollection.Child C}
    env url wsFrom (c : AdapterCollection.t C) w :
  let r := AdapterCollection.connectTo env url wsFrom c w in
  let decoded :=
    fst (AdapterCollection.getWebSocketId (Adapter._id (AdapterCollection.base c)) url w) in
  AdapterCollection.base (snd (fst r)) = AdapterCollection.base c
  /\ sameKeys (AdapterCollection._adapters c) (AdapterCollection._adapters (snd (fst r)))
  /\ (forall key,
        (forall targetId, decoded <> Some (key, targetId)) ->
        OrderedMap.get key (AdapterCollection._adapters (snd (fst r)))
        = OrderedMap.get key (AdapterCollection._adapters c))
  /\ ((decoded = None
       \/ exists adapterId targetId,
            decoded = Some (adapterId, targetId)
            /\ forall adapter,
                 OrderedMap.get adapterId (AdapterCollection._adapters c)
                 <> Some (Some adapter)) ->
      fst (fst r) = None /\ snd (fst r) = c).
Proof.
  unfold AdapterCollection.connectTo.
  destruct (negb (JS.truthy url)) eqn:Eu.
  { assert (D : fst (AdapterCollection.getWebSocketId
                       (Adapter._id (AdapterCollection.base c)) url w) = None).
    { unfold AdapterCollection.getWebSocketId. now rewrite Eu. }
    cbn [fst snd]. repeat split; auto using sameKeys_refl. }
  destruct wsFrom as [ws|];
    [|cbn [fst snd]; repeat split; auto using sameKeys_refl].
  destruct (AdapterCollection.getWebSocketId (Adapter._id (AdapterCollection.base c)) url w)
    as [[[adapterId targetId]|] w1]; cbn [fst snd];
    [|repeat split; auto using sameKeys_refl].
  destruct (OrderedMap.get adapterId (AdapterCollection._adapters c))
    as [[adapter|]|] eqn:G; cbn [fst snd];
    try (repeat split; auto using sameKeys_refl; fail).
  assert (K : forall adapter' : C,
             sameKeys (AdapterCollection._adapters c)
               (OrderedMap.set adapterId (Some adapter') (AdapterCollection._adapters c))
             /\ forall key,
                  (forall targetId0, Some (adapterId, targetId) <> Some (key, targetId0)) ->
                  OrderedMap.get key
                    (OrderedMap.set adapterId (Some adapter') (AdapterCollection._adapters c))
                  = OrderedMap.get key (AdapterCollection._adapters c)).
  { intros adapter'. split; [eapply set_sameKeys; eauto|].
    intros key Hk. rewrite get_set.
    destruct (String.eqb_spec adapterId key) as [->|Hn]; [|reflexivity].
    now destruct (Hk targetId). }
  destruct (AdapterCollection.child_connectTo env targetId (Some ws) adapter w1)
    as [[[found|e] adapter'] w2]; cbn [fst snd AdapterCollection.base AdapterCollection._adapters];
    (split; [reflexivity|]); (split; [apply K|]); (split; [apply K|]);
    (intros [D|(a0 & t0 & [= <- <-] & Hnone)]; [discriminate|]; now destruct (Hnone adapter)).
Qed.

Section CollectionOfAdapters.

Lemma eachStart_Adapters env this_id (adapters : list (string * option Adapter.t)) w :
  fst (AdapterCollection.eachStart env this_id adapters w)
  = (map (fun a => fst (startOutcome env a)) (presentAdapters adapters),
     map (fun e => (fst e, (fun a => snd (startOutcome env a)) <$> snd e)) adapters).
Proof.
  unfold presentAdapters, startOutcome.
  revert w. induction adapters as [|[id [a|]] rest IH]; intros w.
  - reflexivity.
  - cbn [AdapterCollection.eachStart AdapterCollection.child_start Adapter_Managed].
    simpl omap. simpl map. rewrite !(start_world env a empty_world w).
    destruct (Adapter.start env a w) as [[p a'] w1].
    specialize (IH w1).
    destruct (AdapterCollection.eachStart env this_id rest w1) as [[ps rest'] w2].
    cbn [fst snd] in *. injection IH as -> ->. reflexivity.
  - cbn [AdapterCollection.eachStart].
    match goal with
    | |- context [AdapterCollection.eachStart env this_id rest ?w0] =>
        specialize (IH w0);
        destruct (AdapterCollection.eachStart env this_id rest w0) as [[ps rest'] w2]
    end. cbn [fst snd] in *. injection IH as -> ->. reflexivity.
Qed.

Lemma stop_trace a w :
  trace (snd (Adapter.stop a w))
  = (trace w ++ map (fun p => Kill p "SIGTERM") (handles [a]))%list
  /\ heap (snd (Adapter.stop a w)) = heap w
  /\ Adapter._proxyProc (fst (Adapter.stop a w)) = None.
Proof.
  unfold Adapter.stop, handles. simpl.
  destruct (Adapter._proxyProc a) eqn:E; simpl; rewrite ?app_nil_r; auto.
Qed.

Lemma eachStop_Adapters this_id (adapters : list (string * option Adapter.t)) w :
  let r := AdapterCollection.eachStop this_id adapters w in
  trace (snd r)
  = (trace w ++ map (fun p => Kill p "SIGTERM") (handles (presentAdapters adapters)))%list
  /\ heap (snd r) = heap w
  /\ handles (presentAdapters (fst r)) = []
  /\ sameKeys adapters (fst r).
Proof.
  revert w. induction adapters as [|[id [a|]] rest IH]; intros w.
  - simpl. rewrite app_nil_r. repeat split; constructor.
  - cbn [AdapterCollection.eachStop AdapterCollection.child_stop Adapter_Managed].
    destruct (stop_trace a w) as (T & Hh & Hp).
    destruct (Adapter.stop a w) as [a' w1]. cbn [fst snd] in *.
    destruct (IH w1) as (T' & Hh' & Hp' & K).
    destruct (AdapterCollection.eachStop this_id rest w1) as [rest' w2].
    cbn [fst snd] in *. rewrite T', T, Hh', Hh, <- app_assoc, <- map_app.
    unfold handles, presentAdapters in *. simpl. rewrite Hp.
    split; [|split; [reflexivity|split; [exact Hp'|]]].
    + simpl. destruct (Adapter._proxyProc a); reflexivity.
    + constructor; [|exact K]. simpl. split; [reflexivity|split; discriminate].
  - cbn [AdapterCollection.eachStop].
    destruct (IH w) as (T' & Hh' & Hp' & K).
    destruct (AdapterCollection.eachStop this_id rest w) as [rest' w2].
    cbn [fst snd] in *. repeat split; auto. constructor; [simpl; tauto|exact K].
Qed.

Lemma set_set {V : Type} k (v : V) m :
  OrderedMap.set k v (OrderedMap.set k v m) = OrderedMap.set k v m.
Proof.
  induction m as [|[k0 v0] m IH]; simpl.
  - now rewrite String.eqb_refl.
  - destruct (String.eqb_spec k0 k) as [->|Hn]; simpl.
    + now rewrite String.eqb_refl.
    + destruct (String.eqb_spec k0 k); [contradiction|]. now rewrite IH.
Qed.

Lemma getWebSocketId_world this_id this_id' url w w' :
  fst (AdapterCollection.getWebSocketId this_id url w)
  = fst (AdapterCollection.getWebSocketId this_id' url w').
Proof.
  unfold AdapterCollection.getWebSocketId.
  destruct (negb (JS.truthy url)); [reflexivity|].
  destruct (JS.indexOf "/" 1 url) as [index|]; [|reflexivity].
  destruct (_ || _); reflexivity.
Qed.

(** How a collection of adapters hands out a session: the address
    decodes, the adapter under the decoded key hands it out. *)
Lemma Collection_connectTo_Some env url wsFrom (c : AdapterCollection.t Adapter.t) w
    session c1 w1 :
  AdapterCollection.connectTo env url wsFrom c w = (Some session, c1, w1) ->
  exists key targetId child child',
    url <> ""
    /\ AdapterCollection.getWebSocketId (Adapter._id (AdapterCollection.base c)) url w
       = (Some (key, targetId), w)
    /\ OrderedMap.get key (AdapterCollection._adapters c) = Some (Some child)
    /\ Adapter.connectTo env targetId wsFrom child w = (Some session, child', w1)
    /\ c1 = AdapterCollection.mk (AdapterCollection.base c)
              (OrderedMap.set key (Some child') (AdapterCollection._adapters c)).
Proof.
  unfold AdapterCollection.connectTo.
  destruct url as [|ch url]; [discriminate|]. cbn [JS.truthy negb].
  destruct wsFrom as [ws|]; [|discriminate].
  destruct (AdapterCollection.getWebSocketId _ (String ch url) w)
    as [[[key targetId]|] w0] eqn:G; [|discriminate].
  assert (G' := getWebSocketId_Some _ _ w (key, targetId) ltac:(now rewrite G)).
  rewrite G in G'. injection G' as ->.
  destruct (OrderedMap.get key (AdapterCollection._adapters c)) as [[child|]|] eqn:Hg;
    try discriminate.
  cbn [AdapterCollection.child_connectTo Adapter_Child].
  destruct (Adapter.connectTo env targetId (Some ws) child w) as [[found child'] w2] eqn:E.
  intros [= -> <- <-]. exists key, targetId, child, child'.
  split; [discriminate|]. repeat split; auto.
Qed.

End CollectionOfAdapters.

(** X13: [start()] of a collection of adapters starts the adapter it
    extends and every registered adapter, whatever becomes of the
    others: its promise resolves, never rejects, to one outcome for the
    collection's own start followed by one for each registered adapter, in
    the order of the registry, and every adapter is left as its own
    [start()] leaves it. *)
Theorem Collection_start_starts_all env (c : AdapterCollection.t Adapter.t) w :
  let r := AdapterCollection.start env c w in
  fst (fst r)
  = Resolved (fst (startOutcome env (AdapterCollection.base c))
              :: map (fun a => fst (startOutcome env a))
                   (presentAdapters (AdapterCollection._adapters c)))
  /\ AdapterCollection.base (snd (fst r)) = snd (startOutcome env (AdapterCollection.base c))
  /\ AdapterCollection._adapters (snd (fst r))
     = map (fun e => (fst e, (fun a => snd (startOutcome env a)) <$> snd e))
         (AdapterCollection._adapters c).
Proof.
  unfold AdapterCollection.start.
  pose proof (start_world env (AdapterCollection.base c) empty_world w) as S.
  fold (startOutcome env (AdapterCollection.base c)) in S. rewrite S.
  destruct (Adapter.start env (AdapterCollection.base c) w) as [[own base'] w1].
  pose proof (eachStart_Adapters env (Adapter._id (AdapterCollection.base c))
                (AdapterCollection._adapters c) w1) as E.
  destruct (AdapterCollection.eachStart _ _ _ _) as [[ps adapters] w2].
  cbn [fst snd] in *. injection E as -> ->. repeat split; reflexivity.
Qed.

(** X14: [stop()] of a collection of adapters signals with SIGTERM every
    process held by the adapter the collection extends and by the
    registered adapters, once each and in that order, and leaves no
    handle behind; it keeps the keys of the registry and does not touch
    the store. *)
Theorem Collection_stop_stops_all (c : AdapterCollection.t Adapter.t) w :
  let r := AdapterCollection.stop c w in
  trace (snd r)
  = (trace w
     ++ map (fun p => Kill p "SIGTERM")
          (handles (AdapterCollection.base c
                    :: presentAdapters (AdapterCollection._adapters c))))%list
  /\ handles (AdapterCollection.base (fst r)
              :: presentAdapters (AdapterCollection._adapters (fst r))) = []
  /\ sameKeys (AdapterCollection._adapters c) (AdapterCollection._adapters (fst r))
  /\ heap (snd r) = heap w.
Proof.
  unfold AdapterCollection.stop.
  destruct (stop_trace (AdapterCollection.base c) w) as (T & Hh & Hp).
  destruct (Adapter.stop (AdapterCollection.base c) w) as [base' w1]. cbn [fst snd] in *.
  destruct (eachStop_Adapters (Adapter._id (AdapterCollection.base c))
              (AdapterCollection._adapters c) w1) as (T' & Hh' & Hp' & K).
  destruct (AdapterCollection.eachStop _ _ w1) as [adapters w2].
  cbn [fst snd AdapterCollection.base AdapterCollection._adapters] in *.
  rewrite T', T, Hh', Hh, <- app_assoc, <- map_app.
  split; [|split; [|split; [exact K|reflexivity]]].
  - unfold handles. simpl. destruct (Adapter._proxyProc (AdapterCollection.base c)); reflexivity.
  - unfold handles in *. simpl. now rewrite Hp.
Qed.

(** X15: a frame forwarded through a collection of adapters to the
    address a session was just connected under reaches that session, and
    that one only; the collection and the world are left as they were. *)
Theorem Collection_forwardTo_reaches_session env forward url message ws
    (c : AdapterCollection.t Adapter.t) w session c1 w1 sent :
  AdapterCollection.connectTo env url (Some ws) c w = (Some session, c1, w1) ->
  message <> "" ->
  forward session message = Returns tt ->
  AdapterCollection.forwardTo forward url message c1 w1 sent
  = (c1, w1, (sent ++ [(session, message)])%list).
Proof.
  intros E Hm Hf.
  apply Collection_connectTo_Some in E
    as (key & targetId & child & child' & Hu & G & Hg & E & ->).
  destruct (connectTo_registers _ _ _ _ _ _ _ _ E) as [M Hne].
  unfold AdapterCollection.forwardTo.
  destruct url; [contradiction|]. destruct message as [|mc message]; [contradiction|].
  cbn [JS.truthy negb AdapterCollection.base AdapterCollection._adapters].
  assert (G1 : AdapterCollection.getWebSocketId (Adapter._id (AdapterCollection.base c))
                 (String a url) w1 = (Some (key, targetId), w1)).
  { apply getWebSocketId_Some.
    rewrite (getWebSocketId_world _ (Adapter._id (AdapterCollection.base c)) _ w1 w).
    now rewrite G. }
  rewrite G1, get_set, String.eqb_refl.
  cbn [AdapterCollection.child_forwardTo Adapter_Managed].
  rewrite (forwardTo_registered forward targetId (String mc message) child' w1 sent session
             M Hne Hm Hf).
  now rewrite set_set.
Qed.

(** The page of the device of the installation: a connection, then a
    frame. *)
Lemma Collection_forwardTo_reaches_session_witness :
  let url := "/ios_00008030-001A2D4E3C52802E/page-1" in
  let c := IOSAdapter.collection (fst labAdapter) in
  let connected := AdapterCollection.connectTo lab url (Some 7) c (snd labAdapter) in
  AdapterCollection.forwardTo (fun _ _ => Returns tt) url "{}" (snd (fst connected))
    (snd connected) []
  = (snd (fst connected), snd connected, [(0, "{}")]).
Proof.
  intros url c connected.
  apply (Collection_forwardTo_reaches_session lab (fun _ _ => Returns tt) url "{}" 7 c
           (snd labAdapter) 0 (snd (fst connected)) (snd connected) []).
  - reflexivity.
  - discriminate.
  - reflexivity.
Defined.

(** ** The iOS adapter *)

Section DeviceRegistry.

Lemma has_get {V : Type} k (m : list (string * V)) :
  OrderedMap.has k m = false <-> OrderedMap.get k m = None.
Proof. unfold OrderedMap.has. destruct (OrderedMap.get k m); split; congruence. Qed.

Lemma get_app {V : Type} k (m l : list (string * V)) :
  OrderedMap.get k (m ++ l)
  = match OrderedMap.get k m with
    | Some v => Some v
    | None => OrderedMap.get k l
    end.
Proof.
  induction m as [|[k0 v0] m IH]; simpl; [reflexivity|].
  destruct (String.eqb k0 k); [reflexivity|exact IH].
Qed.

Lemma set_app_r {V : Type} k (v : V) m l :
  OrderedMap.get k m = None ->
  OrderedMap.set k v (m ++ l) = (m ++ OrderedMap.set k v l)%list.
Proof.
  induction m as [|[k0 v0] m IH]; simpl; [reflexivity|].
  destruct (String.eqb k0 k); [discriminate|]. intros G. now rewrite IH.
Qed.

(** The adapter made for a device has nothing to spawn: its [start()]
    resolves at once and changes nothing. *)
Lemma start_device_adapter env adapterId proxyUrl port w :
  Adapter.start env
    (Adapter.new adapterId proxyUrl
       (Some (IAdapterOptions.mk None None None (Some port) None None))) w
  = (Resolved Adapter.Skipped,
     Adapter.new adapterId proxyUrl
       (Some (IAdapterOptions.mk None None None (Some port) None None)),
     w).
Proof. reflexivity. Qed.

(** One turn of the loop adds at most one adapter to be registered, a
    fresh one. *)
Lemma eachDevice_Fresh env this acc d :
  exists added,
    fst (IOSAdapter.eachDevice env this acc d) = (fst acc ++ added)%list
    /\ Forall (Fresh this) added.
Proof.
  destruct acc as [pending w]. unfold IOSAdapter.eachDevice. cbn [fst].
  assert (N : exists added : list IOSAdapter.Pending,
             pending = (pending ++ added)%list /\ Forall (Fresh this) added).
  { exists []. rewrite app_nil_r. split; [reflexivity|constructor]. }
  destruct d as [d|]; [|exact N].
  destruct (IIOSDeviceTarget.deviceId d) as [deviceId|]; [|exact N].
  destruct (negb (JS.truthy deviceId)); [exact N|].
  destruct (OrderedMap.has _ _) eqn:Hh; [exact N|]. apply has_get in Hh.
  destruct (IIOSDeviceTarget.url d) as [url|]; [|exact N].
  destruct (negb (JS.truthy url)); [exact N|].
  destruct (JS.split ":" url) as [|? [|portStr ?]]; try exact N.
  destruct (JS.parseInt portStr) as [port|]; [|exact N].
  destruct (port <=? 0)%Z; [exact N|].
  unfold IOSAdapter.createSingleDeviceAdapter. rewrite start_device_adapter. cbn [fst].
  eexists. split; [reflexivity|]. constructor; [|constructor].
  split; [exact Hh|]. split; [reflexivity|]. simpl. eauto.
Qed.

Lemma eachDevice_fold_Fresh env this devices acc :
  exists added,
    fst (fold_left (IOSAdapter.eachDevice env this) devices acc) = (fst acc ++ added)%list
    /\ Forall (Fresh this) added.
Proof.
  revert acc. induction devices as [|d devices IH]; intros acc.
  - exists []. rewrite app_nil_r. split; [reflexivity|constructor].
  - simpl. destruct (IH (IOSAdapter.eachDevice env this acc d)) as (added' & E' & F').
    destruct (eachDevice_Fresh env this acc d) as (added & E & F).
    exists (added ++ added')%list. rewrite E', E, app_assoc.
    split; [reflexivity|]. apply Forall_app. auto.
Qed.

(** An eligible device whose key the registry does not hold gets an
    adapter to be registered. *)
Lemma eachDevice_eligible env this acc d deviceId port :
  Eligible d deviceId port ->
  OrderedMap.get (IOSAdapter._id this ++ "_" ++ deviceId) (IOSAdapter._adapters this) = None ->
  exists p,
    In p (fst (IOSAdapter.eachDevice env this acc (Some d)))
    /\ IOSAdapter.pendingId p = IOSAdapter._id this ++ "_" ++ deviceId.
Proof.
  intros (Hi & Hne & url & first & portStr & rest & Hu & Hune & Hs & Hp & Hpos) Hg.
  destruct acc as [pending w]. unfold IOSAdapter.eachDevice. rewrite Hi, Hu, Hs, Hp.
  destruct deviceId; [contradiction|]. destruct url; [contradiction|].
  cbn [JS.truthy negb]. apply has_get in Hg. rewrite Hg.
  destruct (Z.leb_spec port 0); [lia|].
  unfold IOSAdapter.createSingleDeviceAdapter. rewrite start_device_adapter. cbn [fst].
  eexists. split; [apply in_or_app; right; left; reflexivity|reflexivity].
Qed.

(** A device that is not eligible, or whose key the registry holds,
    gets none. *)
Lemma eachDevice_nothing env this acc d :
  (forall d' deviceId port,
      d = Some d' -> Eligible d' deviceId port ->
      OrderedMap.has (IOSAdapter._id this ++ "_" ++ deviceId) (IOSAdapter._adapters this)
      = true) ->
  fst (IOSAdapter.eachDevice env this acc d) = fst acc.
Proof.
  intros Hd. destruct acc as [pending w]. unfold IOSAdapter.eachDevice. cbn [fst].
  destruct d as [d|]; [|reflexivity].
  destruct (IIOSDeviceTarget.deviceId d) as [deviceId|] eqn:Ei; [|reflexivity].
  destruct (JS.truthy deviceId) eqn:Et; [|reflexivity]. cbn [negb].
  destruct (OrderedMap.has _ _) eqn:Hh; [reflexivity|].
  destruct (IIOSDeviceTarget.url d) as [url|] eqn:Eu; [|reflexivity].
  destruct (JS.truthy url) eqn:Etu; [|reflexivity]. cbn [negb].
  destruct (JS.split ":" url) as [|first [|portStr rest]] eqn:Es; try reflexivity.
  destruct (JS.parseInt portStr) as [port|] eqn:Ep; [|reflexivity].
  destruct (Z.leb_spec port 0); [reflexivity|]. exfalso.
  rewrite (Hd d deviceId port eq_refl) in Hh; [discriminate|].
  split; [exact Ei|]. split; [now destruct deviceId|].
  exists url, first, portStr, rest. repeat split; auto. now destruct url.
Qed.

Lemma Grown_refl this : Grown this this.
Proof.
  split; try reflexivity. exists []. rewrite app_nil_r. split; [reflexivity|constructor].
Qed.

Lemma set_wellKeyed k a (m : list (string * option Adapter.t)) :
  Adapter._id a = k -> Forall wellKeyed m -> Forall wellKeyed (OrderedMap.set k (Some a) m).
Proof.
  intros Hk. induction 1 as [|[k0 v0] m E F IH]; simpl.
  - constructor; [|constructor]. exists a. auto.
  - destruct (String.eqb_spec k0 k) as [->|Hn].
    + constructor; [|assumption]. exists a. auto.
    + constructor; assumption.
Qed.

Lemma has_set {V : Type} k k' (v : V) m :
  OrderedMap.has k m = true -> OrderedMap.has k (OrderedMap.set k' v m) = true.
Proof.
  unfold OrderedMap.has. rewrite get_set. now destruct (String.eqb k' k).
Qed.

Lemma resume_Grown p this cur w :
  Fresh this p -> Grown this cur ->
  Grown this (fst (IOSAdapter.resumeSingleDeviceAdapter p cur w))
  /\ OrderedMap.has (IOSAdapter.pendingId p)
       (IOSAdapter._adapters (fst (IOSAdapter.resumeSingleDeviceAdapter p cur w))) = true
  /\ (forall k,
        OrderedMap.has k (IOSAdapter._adapters cur) = true ->
        OrderedMap.has k
          (IOSAdapter._adapters (fst (IOSAdapter.resumeSingleDeviceAdapter p cur w))) = true).
Proof.
  intros (Hg & Hid & started & Hs) [B S M (added & Ha & Hw)].
  unfold IOSAdapter.resumeSingleDeviceAdapter. rewrite Hs. cbn [fst].
  unfold IOSAdapter._adapters, IOSAdapter.set_adapters in *.
  cbn [IOSAdapter.collection AdapterCollection._adapters AdapterCollection.base
       IOSAdapter._proxySettings IOSAdapter._protocolMap].
  split; [|split].
  - split; auto. rewrite Ha, set_app_r by exact Hg. eexists. split; [reflexivity|].
    now apply set_wellKeyed.
  - unfold OrderedMap.has. now rewrite get_set, String.eqb_refl.
  - intros k. apply has_set.
Qed.

Lemma resume_fold_Grown pending this cur w :
  Forall (Fresh this) pending -> Grown this cur ->
  let after :=
    fst (fold_left (fun acc p => IOSAdapter.resumeSingleDeviceAdapter p (fst acc) (snd acc))
           pending (cur, w)) in
  Grown this after
  /\ (forall p, In p pending ->
        OrderedMap.has (IOSAdapter.pendingId p) (IOSAdapter._adapters after) = true)
  /\ (forall k,
        OrderedMap.has k (IOSAdapter._adapters cur) = true ->
        OrderedMap.has k (IOSAdapter._adapters after) = true).
Proof.
  revert cur w. induction pending as [|p pending IH]; intros cur w Hf Hg.
  - simpl. split; [exact Hg|]. split; [intros p []|auto].
  - inversion Hf as [|? ? Hp Hrest]; subst. cbn [fold_left fst snd].
    destruct (resume_Grown p this cur w Hp Hg) as (G1 & H1 & M1).
    destruct (IOSAdapter.resumeSingleDeviceAdapter p cur w) as [cur' w'] eqn:E.
    cbn [fst snd] in *. destruct (IH cur' w' Hrest G1) as (G2 & H2 & M2).
    split; [exact G2|]. split.
    + intros q [<-|Hq]; [apply M2, H1|apply H2, Hq].
    + intros k Hk. apply M2, M1, Hk.
Qed.

(** What [createDeviceAdapters] comes to: the adapters created by the
    loop are registered after the ones that were there. *)
Lemma createDeviceAdapters_Grown env devices this w :
  let after := fst (IOSAdapter.createDeviceAdapters env devices this w) in
  Grown this after
  /\ (forall k,
        OrderedMap.has k (IOSAdapter._adapters this) = true ->
        OrderedMap.has k (IOSAdapter._adapters after) = true)
  /\ (forall d deviceId port,
        In (Some d) devices -> Eligible d deviceId port ->
        OrderedMap.has (IOSAdapter._id this ++ "_" ++ deviceId) (IOSAdapter._adapters after)
        = true).
Proof.
  unfold IOSAdapter.createDeviceAdapters.
  assert (El : forall d deviceId port,
             In (Some d) devices -> Eligible d deviceId port ->
             OrderedMap.get (IOSAdapter._id this ++ "_" ++ deviceId)
               (IOSAdapter._adapters this) = None ->
             exists p,
               In p (fst (fold_left (IOSAdapter.eachDevice env this) devices ([], w)))
               /\ IOSAdapter.pendingId p = IOSAdapter._id this ++ "_" ++ deviceId).
  { intros d deviceId port Hin He Hg. generalize ([] : list IOSAdapter.Pending, w).
    induction devices as [|d0 devices IH]; [destruct Hin|]. intros acc. simpl.
    destruct Hin as [->|Hin]; [|apply IH, Hin].
    destruct (eachDevice_eligible env this acc d deviceId port He Hg) as (p & Hp & Hk).
    destruct (eachDevice_fold_Fresh env this devices
                (IOSAdapter.eachDevice env this acc (Some d))) as (more & Em & _).
    exists p. rewrite Em. split; [apply in_or_app; now left|exact Hk]. }
  destruct (eachDevice_fold_Fresh env this devices ([], w)) as (added & Ea & Fa).
  destruct (fold_left (IOSAdapter.eachDevice env this) devices ([], w)) as [pending w1].
  cbn [fst] in *. subst pending. rewrite app_nil_l in El.
  destruct (resume_fold_Grown added this this w1 Fa (Grown_refl this)) as (G & Hp & Hm).
  split; [exact G|]. split; [exact Hm|].
  intros d deviceId port Hin He.
  destruct (OrderedMap.get (IOSAdapter._id this ++ "_" ++ deviceId)
              (IOSAdapter._adapters this)) eqn:Hg.
  - apply Hm. unfold OrderedMap.has. now rewrite Hg.
  - destruct (El d deviceId port Hin He Hg) as (p & Hin' & Hk).
    rewrite <- Hk. apply Hp, Hin'.
Qed.

End DeviceRegistry.

(** X16: [createDeviceAdapters] only ever adds to the registry: the
    adapters that were registered stay where and what they were, the new
    ones come after them, each under a key that is its own id; the
    adapter the collection extends, the proxy settings and the protocol
    bindings are not touched. *)
Theorem createDeviceAdapters_only_adds env devices this w :
  let after := fst (IOSAdapter.createDeviceAdapters env devices this w) in
  (exists added,
      IOSAdapter._adapters after = (IOSAdapter._adapters this ++ added)%list
      /\ Forall wellKeyed added)
  /\ AdapterCollection.base (IOSAdapter.collection after)
     = AdapterCollection.base (IOSAdapter.collection this)
  /\ IOSAdapter._proxySettings after = IOSAdapter._proxySettings this
  /\ IOSAdapter._protocolMap after = IOSAdapter._protocolMap this.
Proof.
  destruct (createDeviceAdapters_Grown env devices this w) as ([B S M A] & _).
  cbv zeta. auto.
Qed.



(** X18: [createDeviceAdapters] is idempotent on a batch: run again on
    the same devices, in whatever environment, it creates nothing and
    leaves the iOS adapter as the first run left it. *)
Theorem createDeviceAdapters_idempotent env env' devices this w w' :
  let after := fst (IOSAdapter.createDeviceAdapters env devices this w) in
  fst (IOSAdapter.createDeviceAdapters env' devices after w') = after.
Proof.
  intros after.
  destruct (createDeviceAdapters_Grown env devices this w) as ([B _ _ _] & _ & He).
  fold after in B, He.
  assert (Hid : IOSAdapter._id after = IOSAdapter._id this)
    by (unfold IOSAdapter._id; now rewrite B).
  unfold IOSAdapter.createDeviceAdapters.
  assert (N : forall acc,
             (forall d, In (Some d) devices -> True) ->
             fst (fold_left (IOSAdapter.eachDevice env' after) devices acc) = fst acc).
  { intros acc _. revert acc.
    assert (Hall : forall d, In d devices -> In d devices) by auto.
    revert Hall. generalize devices at 1 3. intros ds.
    induction ds as [|d ds IH]; intros Hall acc; [reflexivity|]. simpl.
    rewrite IH by (intros d' Hd'; apply Hall; now right).
    apply eachDevice_nothing. intros d' deviceId port -> El. rewrite Hid.
    apply (He d' deviceId port); [apply Hall; now left|exact El]. }
  specialize (N ([], w') (fun _ _ => I)).
  destruct (fold_left (IOSAdapter.eachDevice env' after) devices ([], w')) as [pending w1].
  cbn [fst] in N. subst pending. reflexivity.
Qed.

Section DeviceVersions.

Lemma deviceVersion_not_empty d : IOSAdapter.deviceVersion d <> "".
Proof.
  unfold IOSAdapter.deviceVersion.
  destruct (JS.strictEq _ _); [discriminate|].
  destruct (IIOSDeviceTarget.deviceOSVersion d) as [[|ch v]|]; discriminate.
Qed.

Lemma deviceVersion_set_version v d :
  IOSAdapter.deviceVersion (IOSAdapter.set_version v d) = IOSAdapter.deviceVersion d.
Proof. reflexivity. Qed.

End DeviceVersions.

(** X19: every device [processDeviceVersions] hands back has a version
    that is not empty, and processing the processed devices again hands
    them back unchanged. *)
Theorem processDeviceVersions_versions this_id devices w :
  let processed := fst (IOSAdapter.processDeviceVersions this_id devices w) in
  Forall (fun d => exists v, IIOSDeviceTarget.version d = Some v /\ v <> "") processed
  /\ forall this_id' w',
       fst (IOSAdapter.processDeviceVersions this_id' (Some <$> processed) w') = processed.
Proof.
  unfold IOSAdapter.processDeviceVersions. cbv zeta. rewrite eachDeviceVersion_fst.
  split.
  - induction (presentDevices devices) as [|d l IH]; simpl; constructor; [|exact IH].
    exists (IOSAdapter.deviceVersion d). split; [reflexivity|apply deviceVersion_not_empty].
  - intros this_id' w'. rewrite eachDeviceVersion_fst.
    induction (presentDevices devices) as [|d l IH]; [reflexivity|].
    unfold presentDevices in *. rewrite !fmap_cons. cbn [omap list_omap].
    rewrite fmap_cons. f_equal. exact IH.
Qed.

(** X20: between two versions whose major and minor components both
    parse, the later one never gets a translator of an older generation
    than the earlier one. *)
Theorem getProtocolFor_monotone this_id version version' target target' w w'
    major minor major' minor' :
  versionMajor version = Some major -> versionMinor version = Some minor ->
  versionMajor version' = Some major' -> versionMinor version' = Some minor' ->
  (major < major' \/ (major = major' /\ minor <= minor'))%Z ->
  exists p p',
    fst (IOSAdapter.getProtocolFor this_id version (Some target) w) = Some p
    /\ fst (IOSAdapter.getProtocolFor this_id version' (Some target') w') = Some p'
    /\ generation p <= generation p'.
Proof.
  intros HM Hm HM' Hm' Hle. rewrite !getProtocolFor_value, HM, Hm, HM', Hm'.
  eexists. eexists. split; [reflexivity|]. split; [reflexivity|].
  destruct (Z.leb_spec major 8), (Z.leb_spec major' 8);
    destruct (Z.gtb_spec major 12), (Z.geb_spec major 12), (Z.geb_spec minor 2);
    destruct (Z.gtb_spec major' 12), (Z.geb_spec major' 12), (Z.geb_spec minor' 2);
    cbn [orb andb generation]; lia.
Qed.

(** iOS 9.3 and iOS 12.2. *)
Lemma getProtocolFor_monotone_witness :
  exists p p',
    fst (IOSAdapter.getProtocolFor "/ios" "9.3" (Some 0) empty_world) = Some p
    /\ fst (IOSAdapter.getProtocolFor "/ios" "12.2" (Some 1) empty_world) = Some p'
    /\ generation p <= generation p'.
Proof.
  apply (getProtocolFor_monotone "/ios" "9.3" "12.2" 0 1 empty_world empty_world
           9 3 12 2); try reflexivity. lia.
Defined.

Section DeviceListing.

Lemma onDevicesReply_NoListing env r this w :
  NoListing env (Answered r) ->
  fst (IOSAdapter.onDevicesReply env r this w) = []
  /\ exists events,
       trace (snd (IOSAdapter.onDevicesReply env r this w)) = (trace w ++ events)%list
       /\ Forall (ownEvent this) events.
Proof.
  intros M.
  assert (L1 : forall level msg,
             exists events, trace (emit (Log level msg) w) = (trace w ++ events)%list
                            /\ Forall (ownEvent this) events).
  { intros level msg. exists [Log level msg]. split; [reflexivity|].
    constructor; [left; red; eauto|constructor]. }
  assert (L2 : forall l1 m1 l2 m2,
             exists events,
               trace (emit (Log l1 m1) (emit (Log l2 m2) w)) = (trace w ++ events)%list
               /\ Forall (ownEvent this) events).
  { intros l1 m1 l2 m2. exists [Log l2 m2; Log l1 m1]. split.
    - simpl. now rewrite <- app_assoc.
    - constructor; [left; red; eauto|].
      constructor; [left; red; eauto|constructor]. }
  assert (L0 : exists events, trace w = (trace w ++ events)%list
                              /\ Forall (ownEvent this) events).
  { exists []. rewrite app_nil_r. split; [reflexivity|constructor]. }
  unfold IOSAdapter.onDevicesReply, Logger_error, Logger_log.
  destruct (error r) as [e|] eqn:Ee; [split; [reflexivity|apply L1]|].
  destruct (response r) as [resp|] eqn:Er; [|split; [reflexivity|apply L1]].
  destruct (Z.eqb_spec (statusCode resp) 200) as [Hs|Hs]; [|split; [reflexivity|apply L1]].
  cbn [negb].
  destruct (body r) as [b|] eqn:Eb; [|split; [reflexivity|apply L1]].
  destruct (JS.truthy b) eqn:Et; [|split; [reflexivity|apply L1]].
  destruct (JSON_parse_devices env b) as [[|[|d devices]]|pe] eqn:Ep;
    try (split; [reflexivity|first [apply L2|apply L1|apply L0]]).
  exfalso.
  inversion M as [ | | r' e He | r' Hr | r' resp' Hr Hs' | r' Hb
                 | r' b' e' Hb Hp | r' b' Hb Hp | r' b' Hb Hp ]; subst r'.
  - congruence.
  - congruence.
  - rewrite Er in Hr. injection Hr as <-. contradiction.
  - rewrite Eb in Hb. simpl in Hb. congruence.
  - rewrite Eb in Hb. injection Hb as <-. congruence.
  - rewrite Eb in Hb. injection Hb as <-. congruence.
  - rewrite Eb in Hb. injection Hb as <-. congruence.
Qed.

Lemma onDevicesReply_logs env r this w :
  exists events,
    trace (snd (IOSAdapter.onDevicesReply env r this w)) = (trace w ++ events)%list
    /\ Forall (ownEvent this) events.
Proof.
  assert (L1 : forall level msg,
             exists events, trace (emit (Log level msg) w) = (trace w ++ events)%list
                            /\ Forall (ownEvent this) events).
  { intros level msg. exists [Log level msg]. split; [reflexivity|].
    constructor; [left; red; eauto|constructor]. }
  assert (L2 : forall l1 m1 l2 m2,
             exists events,
               trace (emit (Log l1 m1) (emit (Log l2 m2) w)) = (trace w ++ events)%list
               /\ Forall (ownEvent this) events).
  { intros l1 m1 l2 m2. exists [Log l2 m2; Log l1 m1]. split.
    - simpl. now rewrite <- app_assoc.
    - constructor; [left; red; eauto|].
      constructor; [left; red; eauto|constructor]. }
  assert (L0 : exists events, trace w = (trace w ++ events)%list
                              /\ Forall (ownEvent this) events).
  { exists []. rewrite app_nil_r. split; [reflexivity|constructor]. }
  unfold IOSAdapter.onDevicesReply, Logger_error, Logger_log.
  destruct (error r) as [e|]; [apply L1|].
  destruct (response r) as [resp|]; [|apply L1].
  destruct (negb _); [apply L1|].
  destruct (body r) as [b|]; [|apply L1].
  destruct (JS.truthy b); [|apply L1].
  destruct (JSON_parse_devices env b) as [[|devices]|pe];
    first [apply L2|apply L1|apply L0].
Qed.

Lemma getDevicesFromProxy_NoListing env this w :
  NoListing env (request env (IOSAdapter._url this)) ->
  fst (IOSAdapter.getDevicesFromProxy env this w) = []
  /\ exists events,
       trace (snd (IOSAdapter.getDevicesFromProxy env this w)) = (trace w ++ events)%list
       /\ Forall (ownEvent this) events.
Proof.
  intros M. unfold IOSAdapter.getDevicesFromProxy.
  destruct (request env (IOSAdapter._url this)) as [e|r|[r|]] eqn:E.
  - split; [reflexivity|]. eexists. split; [reflexivity|].
    constructor; [left; red; eauto|constructor].
  - destruct (onDevicesReply_NoListing env r this
                (emit (HttpGet (IOSAdapter._url this)) w) M) as (F & events & T & O).
    split; [exact F|]. exists (HttpGet (IOSAdapter._url this) :: events).
    rewrite T. simpl. rewrite <- app_assoc. split; [reflexivity|].
    constructor; [now right|exact O].
  - split; [reflexivity|]. cbn [snd].
    destruct (onDevicesReply_logs env r this
                (Logger_error ("IOSAdapter " ++ IOSAdapter._id this
                               ++ " getDevicesFromProxy timeout after 10 seconds")
                   (emit (HttpGet (IOSAdapter._url this)) w))) as (events & T & O).
    eexists (HttpGet (IOSAdapter._url this) :: Log LError _ :: events).
    rewrite T. simpl. rewrite <- !app_assoc. split; [reflexivity|].
    constructor; [now right|]. constructor; [left; red; eauto|exact O].
  - split; [reflexivity|]. eexists [HttpGet (IOSAdapter._url this); Log LError _].
    split; [simpl; now rewrite <- app_assoc|].
    constructor; [now right|]. constructor; [left; red; eauto|constructor].
Qed.

End DeviceListing.

Section NoDevices.

Lemma onDevicesReply_heap env r this w :
  heap (snd (IOSAdapter.onDevicesReply env r this w)) = heap w.
Proof.
  unfold IOSAdapter.onDevicesReply, Logger_error, Logger_log.
  destruct (error r) as [e|]; [reflexivity|].
  destruct (response r) as [resp|]; [|reflexivity].
  destruct (negb _); [reflexivity|].
  destruct (body r) as [b|]; [|reflexivity].
  destruct (JS.truthy b); [|reflexivity].
  destruct (JSON_parse_devices env b) as [[|devices]|pe]; reflexivity.
Qed.

Lemma getDevicesFromProxy_heap env this w :
  heap (snd (IOSAdapter.getDevicesFromProxy env this w)) = heap w.
Proof.
  unfold IOSAdapter.getDevicesFromProxy.
  destruct (request env (IOSAdapter._url this)) as [e|r|[r|]]; try reflexivity.
  - now rewrite onDevicesReply_heap.
  - cbn [snd]. now rewrite onDevicesReply_heap.
Qed.

End NoDevices.

(** X21: when the enumeration proxy lists no device (its answer fails,
    is late, is not a 200, is empty, is not a JSON array or is the empty
    array), [IOSAdapter.getTargets] resolves to no target, leaves the
    adapter and the sessions as they were, and asks no endpoint but its
    own: the device adapters registered earlier are not polled. *)
Theorem IOSAdapter_getTargets_no_listing env this w :
  NoListing env (request env (IOSAdapter._url this)) ->
  let r := IOSAdapter.getTargets env this w in
  fst (fst r) = Resolved []
  /\ snd (fst r) = this
  /\ heap (snd r) = heap w
  /\ exists events,
       trace (snd r) = (trace w ++ events)%list /\ Forall (ownEvent this) events.
Proof.
  intros M. cbv zeta. unfold IOSAdapter.getTargets.
  destruct (getDevicesFromProxy_NoListing env this w M) as (F & events & T & O).
  pose proof (getDevicesFromProxy_heap env this w) as H.
  destruct (IOSAdapter.getDevicesFromProxy env this w) as [devices w1].
  cbn [fst snd] in F, T, H. subst devices. cbn [fst snd].
  split; [reflexivity|]. split; [reflexivity|]. split; [exact H|].
  eexists (events ++ [Log _ _])%list. unfold Logger_log. simpl. rewrite T.
  rewrite <- app_assoc. split; [reflexivity|].
  apply Forall_app. split; [exact O|].
  constructor; [left; red; eauto|constructor].
Qed.

(** The adapter that has discovered the iPhone, once the enumeration
    proxy has gone away. *)
Lemma IOSAdapter_getTargets_no_listing_witness :
  let r := IOSAdapter.getTargets offline (fst labAdapter) (snd labAdapter) in
  fst (fst r) = Resolved []
  /\ snd (fst r) = fst labAdapter
  /\ heap (snd r) = heap (snd labAdapter)
  /\ exists events,
       trace (snd r) = (trace (snd labAdapter) ++ events)%list
       /\ Forall (ownEvent (fst labAdapter)) events.
Proof.
  apply (IOSAdapter_getTargets_no_listing offline (fst labAdapter) (snd labAdapter)).
  apply (noListing_setup offline).
Defined.

Section TestIds.

Lemma string_of_uint_no_sep d p q :
  NilEmpty.string_of_uint d <> p ++ String "_" q.
Proof.
  revert p. induction d as [|d IH|d IH|d IH|d IH|d IH|d IH|d IH|d IH|d IH|d IH];
    intros [|c p]; cbn [NilEmpty.string_of_uint];
    rewrite ?append_empty, ?append_cons; try discriminate;
    intros E; injection E as _ E; exact (IH _ E).
Qed.

Lemma string_of_nat_no_sep i p q :
  JS.string_of_Z (Z.of_nat i) <> p ++ String "_" q.
Proof.
  assert (G : forall d, NilZero.string_of_uint d <> p ++ String "_" q).
  { intros d. destruct d; try exact (string_of_uint_no_sep _ p q).
    destruct p as [|c [|c' p]]; rewrite ?append_empty, ?append_cons; discriminate. }
  unfold JS.string_of_Z. destruct (Z.of_nat i) as [|n|n] eqn:E; [| |lia]; apply G.
Qed.

Lemma string_of_Z_inj a b : JS.string_of_Z a = JS.string_of_Z b -> a = b.
Proof.
  unfold JS.string_of_Z. intros E. apply to_int_inj.
  assert (N : forall z, Z.to_int z <> Decimal.Pos Decimal.Nil
                        /\ Z.to_int z <> Decimal.Neg Decimal.Nil).
  { intros [|n|n]; cbn [Z.to_int]; split; try discriminate; intros Hn;
      injection Hn as Hn; exact (DecimalPos.Unsigned.to_uint_nonnil n Hn). }
  assert (S : Some (Z.to_int a) = Some (Z.to_int b)).
  { rewrite <- (NilZero.isi (Z.to_int a)), <- (NilZero.isi (Z.to_int b)) by apply N.
    now rewrite E. }
  now injection S.
Qed.

Lemma last_segment a b d d' :
  (forall p q, d <> p ++ String "_" q) -> (forall p q, d' <> p ++ String "_" q) ->
  a ++ String "_" d = b ++ String "_" d' -> d = d'.
Proof.
  intros F F'. revert b. induction a as [|c a IH]; intros [|c' b];
    rewrite ?append_empty, ?append_cons; intros E.
  - congruence.
  - injection E as _ E. now destruct (F b d').
  - injection E as _ E. symmetry in E. now destruct (F' a d).
  - injection E as _ E. exact (IH _ E).
Qed.

Lemma append_assoc (a b c : string) : (a ++ b) ++ c = a ++ (b ++ c).
Proof.
  induction a as [|ch a IH]; [reflexivity|].
  rewrite !append_cons. now rewrite IH.
Qed.

Lemma testId_segment id i :
  exists p, TestAdapter.testId id i = p ++ String "_" (JS.string_of_Z (Z.of_nat i)).
Proof.
  unfold TestAdapter.testId. destruct (JS.truthy_opt id).
  - exists (default "" id ++ "_test").
    rewrite append_assoc. reflexivity.
  - exists "test_target". reflexivity.
Qed.

Lemma testId_inj id id' i j : TestAdapter.testId id i = TestAdapter.testId id' j -> i = j.
Proof.
  destruct (testId_segment id i) as [p ->], (testId_segment id' j) as [p' ->].
  intros E. apply last_segment in E; try apply string_of_nat_no_sep.
  apply string_of_Z_inj in E. lia.
Qed.

Lemma testId_not_empty id i : TestAdapter.testId id i <> "".
Proof.
  destruct (testId_segment id i) as [[|c p] ->]; rewrite ?append_empty, ?append_cons;
    discriminate.
Qed.

End TestIds.

Section TestTargets.

Lemma setTargetInfo_named x metadata a w c r :
  ITarget.id x = Some (String c r) ->
  let t := fst (fst (Adapter.setTargetInfo x metadata a w)) in
  ITarget.id t = Some (String c r)
  /\ ITarget.title t = ITarget.title x
  /\ ITarget.url t = ITarget.url x
  /\ ITarget.description t = ITarget.description x
  /\ ITarget.faviconUrl t = ITarget.faviconUrl x
  /\ ITarget.metadata t = metadata
  /\ snd (Adapter.setTargetInfo x metadata a w) = w.
Proof.
  intros Hid. unfold Adapter.setTargetInfo, JS.or_else. rewrite Hid.
  cbn [JS.truthy_opt JS.truthy fst snd]. cbn. repeat split; reflexivity.
Qed.

Lemma eachTestTarget_step this_id raw targets a w i :
  let r := TestAdapter.eachTestTarget this_id raw (targets, a, w) i in
  Later a (snd (fst r)) /\ heap (snd r) = heap w
  /\ ((mjoin (raw !! TestAdapter.sourceIndex raw i) = None /\ fst (fst r) = targets)
      \/ exists t, fst (fst r) = (targets ++ [t])%list
                   /\ copyOf raw i t /\ Published (snd (fst r)) t).
Proof.
  cbv zeta. unfold TestAdapter.eachTestTarget.
  destruct (mjoin (raw !! TestAdapter.sourceIndex raw i)) as [x|] eqn:Ex.
  - set (copy := TestAdapter.set_id _ _).
    assert (Hid : ITarget.id copy
                  = Some (TestAdapter.testId (ITarget.id x) i)) by reflexivity.
    destruct (TestAdapter.testId (ITarget.id x) i) as [|c r] eqn:Et;
      [now destruct (testId_not_empty (ITarget.id x) i)|].
    pose proof (setTargetInfo_Later copy Undefined a w) as L.
    pose proof (setTargetInfo_Published copy Undefined a w) as P.
    destruct (setTargetInfo_named copy Undefined a w c r Hid)
      as (N1 & N2 & N3 & N4 & N5 & N6 & N7).
    destruct (Adapter.setTargetInfo copy Undefined a w) as [[t a1] w1].
    cbn [fst snd] in *. subst w1.
    split; [exact L|]. split; [reflexivity|]. right. exists t.
    split; [reflexivity|]. split.
    + exists x. rewrite Et. repeat split; assumption.
    + apply P. rewrite Hid. reflexivity.
  - cbn [fst snd]. split; [apply Later_refl|]. split; [reflexivity|]. now left.
Qed.

Lemma eachTestTarget_fold this_id raw indices targets a w :
  let r := foldl (TestAdapter.eachTestTarget this_id raw) (targets, a, w) indices in
  Later a (snd (fst r)) /\ heap (snd r) = heap w
  /\ exists added,
       fst (fst r) = (targets ++ added)%list
       /\ Forall (Published (snd (fst r))) added
       /\ Forall2 (copyOf raw) (madeFrom raw indices) added.
Proof.
  revert targets a w. induction indices as [|i indices IH]; intros targets a w.
  - cbn. split; [apply Later_refl|]. split; [reflexivity|]. exists [].
    rewrite app_nil_r. split; [reflexivity|]. split; constructor.
  - cbn [foldl].
    destruct (eachTestTarget_step this_id raw targets a w i) as (L & H & Step).
    destruct (TestAdapter.eachTestTarget this_id raw (targets, a, w) i)
      as [[targets1 a1] w1]. cbn [fst snd] in L, H, Step.
    destruct (IH targets1 a1 w1) as (L' & H' & added & E & P & F).
    cbv zeta in *. split; [exact (Later_trans _ _ _ L L')|].
    split; [congruence|].
    unfold madeFrom in *. rewrite filter_cons.
    destruct Step as [[Ex ->]|(t & -> & C & Pt)].
    + exists added. split; [exact E|]. split; [exact P|].
      destruct (decide _) as [[y Hy]|_]; [congruence|exact F].
    + exists (t :: added). split; [now rewrite E, <- app_assoc|].
      split; [constructor; [exact (Published_Later _ _ _ L' Pt)|exact P]|].
      destruct C as (x & Ex & C).
      destruct (decide _) as [_|N]; [|destruct N; rewrite Ex; eauto].
      constructor; [exists x; auto|exact F].
Qed.

Lemma copyOf_ids raw indices added :
  NoDup indices -> Forall2 (copyOf raw) indices added -> NoDup (ITarget.id <$> added).
Proof.
  intros N F. induction F as [|i t indices added C F IH]; [constructor|].
  apply NoDup_cons in N as [Ni N]. rewrite fmap_cons. apply NoDup_cons.
  split; [|exact (IH N)].
  intros Hin. apply list_elem_of_fmap in Hin as (t' & Eid & Hin).
  apply list_elem_of_lookup in Hin as [k Hk].
  destruct (Forall2_lookup_r _ _ _ _ _ F Hk) as (j & Hj & C').
  destruct C as (x & _ & Hid & _), C' as (x' & _ & Hid' & _).
  rewrite Hid, Hid' in Eid. injection Eid as Eid. apply testId_inj in Eid. subst j.
  apply Ni. eapply list_elem_of_lookup_2. exact Hj.
Qed.

Lemma createTestTargets_fold raw count this w :
  raw <> [] ->
  exists w1 w2 a,
    TestAdapter.createTestTargets raw count this w =
      (fst (fst (foldl (TestAdapter.eachTestTarget (TestAdapter._id this) raw)
                   ([], TestAdapter.base this, w1) (seq 0 (effectiveCount count)))),
       TestAdapter.mk a (TestAdapter._jsonPath this), w2)
    /\ a = snd (fst (foldl (TestAdapter.eachTestTarget (TestAdapter._id this) raw)
                       ([], TestAdapter.base this, w1) (seq 0 (effectiveCount count))))
    /\ heap w1 = heap w
    /\ heap w2 = heap (snd (foldl (TestAdapter.eachTestTarget (TestAdapter._id this) raw)
                              ([], TestAdapter.base this, w1)
                              (seq 0 (effectiveCount count)))).
Proof.
  intros Hne. unfold TestAdapter.createTestTargets, effectiveCount.
  destruct raw as [|x raw]; [contradiction|].
  destruct (Z.leb_spec count 0) as [Hc|Hc].
  - replace (Z.max count 1) with 1%Z by lia.
    destruct (foldl _ _ _) as [[targets a] w2] eqn:E.
    eexists _, _, a. rewrite E. cbn [fst snd]. repeat split; reflexivity.
  - replace (Z.max count 1) with count by lia.
    destruct (foldl _ _ _) as [[targets a] w2] eqn:E.
    eexists _, _, a. rewrite E. cbn [fst snd]. repeat split; reflexivity.
Qed.

End TestTargets.

(** X22: the descriptors [createTestTargets] hands back carry pairwise
    distinct ids, whatever the fixture holds and whatever the count. *)
Theorem createTestTargets_ids_distinct rawTargets count this w :
  NoDup (ITarget.id <$> fst (fst (TestAdapter.createTestTargets rawTargets count this w))).
Proof.
  destruct rawTargets as [|x raw]; [constructor|].
  destruct (createTestTargets_fold (x :: raw) count this w) as (w1 & w2 & a & -> & _);
    [discriminate|].
  cbn [fst].
  destruct (eachTestTarget_fold (TestAdapter._id this) (x :: raw)
              (seq 0 (effectiveCount count)) [] (TestAdapter.base this) w1)
    as (_ & _ & added & -> & _ & F).
  rewrite app_nil_l. apply (copyOf_ids (x :: raw) _ _ (NoDup_filter _ _ (NoDup_seq _ _)) F).
Qed.

Section TestCopies.

Lemma sourceIndex_lookup xs i :
  xs <> [] ->
  exists x, xs !! (if Nat.ltb i (length xs) then i else 0) = Some x
            /\ mjoin ((Some <$> xs) !! TestAdapter.sourceIndex (Some <$> xs) i) = Some x.
Proof.
  intros Hne. unfold TestAdapter.sourceIndex. rewrite length_fmap.
  assert (L : (if Nat.ltb i (length xs) then i else 0) < length xs).
  { destruct (Nat.ltb_spec i (length xs)); [assumption|].
    destruct xs; [contradiction|simpl; lia]. }
  destruct (lookup_lt_is_Some_2 _ _ L) as [x Hx].
  exists x. split; [exact Hx|]. rewrite list_lookup_fmap, Hx. reflexivity.
Qed.

Lemma madeFrom_all xs indices : xs <> [] -> madeFrom (Some <$> xs) indices = indices.
Proof.
  intros Hne. unfold madeFrom. induction indices as [|i indices IH]; [reflexivity|].
  rewrite filter_cons, IH.
  destruct (sourceIndex_lookup xs i Hne) as (x & _ & Hx).
  destruct (decide _) as [_|N]; [reflexivity|]. destruct N. rewrite Hx. eauto.
Qed.

Lemma createTestTargets_all xs count this w :
  xs <> [] ->
  Forall2 (copyOf (Some <$> xs)) (seq 0 (effectiveCount count))
    (fst (fst (TestAdapter.createTestTargets (Some <$> xs) count this w))).
Proof.
  intros Hne.
  destruct (createTestTargets_fold (Some <$> xs) count this w) as (w1 & w2 & a & -> & _);
    [now destruct xs|].
  cbn [fst].
  destruct (eachTestTarget_fold (TestAdapter._id this) (Some <$> xs)
              (seq 0 (effectiveCount count)) [] (TestAdapter.base this) w1)
    as (_ & _ & added & -> & _ & F).
  rewrite app_nil_l. now rewrite madeFrom_all in F.
Qed.

End TestCopies.

(** X23: from a fixture whose entries are all there, [createTestTargets]
    makes exactly [count] descriptors, one for a count that is not
    positive; descriptor [i] is a copy of entry [i] under a new id while
    [i] is within the fixture, and a copy of the first entry beyond it:
    the fixture is not cycled through. *)
Theorem createTestTargets_copies xs count this w :
  xs <> [] ->
  let targets := fst (fst (TestAdapter.createTestTargets (Some <$> xs) count this w)) in
  length targets = Z.to_nat (Z.max count 1)
  /\ forall i,
       i < Z.to_nat (Z.max count 1) ->
       exists t x,
         targets !! i = Some t
         /\ xs !! (if Nat.ltb i (length xs) then i else 0) = Some x
         /\ ITarget.id t = Some (TestAdapter.testId (ITarget.id x) i)
         /\ ITarget.title t = ITarget.title x
         /\ ITarget.url t = ITarget.url x.
Proof.
  intros Hne. cbv zeta.
  pose proof (createTestTargets_all xs count this w Hne) as F.
  fold (effectiveCount count). split.
  - rewrite <- (Forall2_length _ _ _ F). apply length_seq.
  - intros i Hi.
    destruct (Forall2_lookup_l _ _ _ i i F) as (t & Ht & C);
      [now apply lookup_seq|].
    destruct C as (x & Hx & Hid & Htitle & Hurl & _).
    destruct (sourceIndex_lookup xs i Hne) as (x' & Hx' & Hx'').
    assert (x' = x) by congruence. subst x'.
    exists t, x. auto.
Qed.

(** Three copies of a fixture of two pages. *)
Lemma createTestTargets_copies_witness :
  let xs := [page "a" "ws://localhost:9222/devtools/page/1";
             page "b" "ws://localhost:9222/devtools/page/2"] in
  let targets :=
    fst (fst (TestAdapter.createTestTargets (Some <$> xs) 3 testAdapter empty_world)) in
  length targets = Z.to_nat (Z.max 3 1)
  /\ forall i,
       i < Z.to_nat (Z.max 3 1) ->
       exists t x,
         targets !! i = Some t
         /\ xs !! (if Nat.ltb i (length xs) then i else 0) = Some x
         /\ ITarget.id t = Some (TestAdapter.testId (ITarget.id x) i)
         /\ ITarget.title t = ITarget.title x
         /\ ITarget.url t = ITarget.url x.
Proof.
  apply (createTestTargets_copies
           [page "a" "ws://localhost:9222/devtools/page/1";
            page "b" "ws://localhost:9222/devtools/page/2"] 3 testAdapter empty_world).
  discriminate.
Defined.

Section TestFixture.

Lemma length_zero_empty s : Nat.eqb (String.length s) 0 = true <-> s = "".
Proof. destruct s; simpl; split; congruence. Qed.

Lemma onRead_heap this_id r w : heap (snd (TestAdapter.onRead this_id r w)) = heap w.
Proof.
  unfold TestAdapter.onRead. destruct (readError r); [reflexivity|].
  destruct (JS.truthy_opt (readData r)); reflexivity.
Qed.

Lemma readJsonFile_heap fs this_id path w :
  heap (snd (TestAdapter.readJsonFile fs this_id path w)) = heap w.
Proof.
  unfold TestAdapter.readJsonFile. destruct (fs_readFile fs path) as [e|r|[r|]];
    try reflexivity; [|cbn [snd]]; now rewrite onRead_heap.
Qed.

Lemma parseJsonData_heap env this_id data w :
  heap (snd (TestAdapter.parseJsonData env this_id data w)) = heap w.
Proof.
  unfold TestAdapter.parseJsonData. destruct (_ || _); [reflexivity|].
  destruct (JSON_parse_targets env data) as [[|parsed]|e]; reflexivity.
Qed.

(** [getTargets] either hands back nothing and leaves the adapter as it
    is, or has found a usable fixture and hands back what
    [createTestTargets] makes of it. *)
Lemma TestAdapter_getTargets_cases env fs this w :
  (fst (fst (TestAdapter.getTargets env fs this w)) = []
   /\ snd (fst (TestAdapter.getTargets env fs this w)) = this
   /\ heap (snd (TestAdapter.getTargets env fs this w)) = heap w)
  \/ exists r text rawTargets,
       TestAdapter._jsonPath this <> ""
       /\ (exists u, fs_access fs (TestAdapter._jsonPath this) = Resolved u)
       /\ fs_readFile fs (TestAdapter._jsonPath this) = ReadAnswered r
       /\ readError r = None
       /\ readData r = Some text
       /\ text <> ""
       /\ JS.trim text <> ""
       /\ JSON_parse_targets env text = Returns (IsArray rawTargets)
       /\ rawTargets <> []
       /\ TestAdapter.getTargets env fs this w
          = TestAdapter.createTestTargets rawTargets 10 this w.
Proof.
  unfold TestAdapter.getTargets, TestAdapter.fileExists.
  destruct (TestAdapter._jsonPath this) as [|c path] eqn:Ep; [left; now cbn|].
  rewrite <- Ep. cbn [JS.truthy negb].
  replace (JS.truthy (TestAdapter._jsonPath this)) with true by now rewrite Ep.
  cbn [negb].
  destruct (fs_access fs (TestAdapter._jsonPath this)) as [u|e] eqn:Ea; [|left; now cbn].
  cbn [negb].
  pose proof (readJsonFile_heap fs (TestAdapter._id this) (TestAdapter._jsonPath this) w) as Hr.
  unfold TestAdapter.readJsonFile in *.
  destruct (fs_readFile fs (TestAdapter._jsonPath this)) as [e|r|[r|]] eqn:Er;
    try (left; now cbn).
  unfold TestAdapter.onRead in *.
  destruct (readError r) as [e|] eqn:Ee; [left; now cbn|].
  destruct (readData r) as [[|c' text]|] eqn:Ed; try (left; now cbn).
  cbn [JS.truthy_opt JS.truthy negb].
  change (default "" (Some (String c' text))) with (String c' text).
  pose proof (parseJsonData_heap env (TestAdapter._id this) (String c' text) w) as Hp.
  unfold TestAdapter.parseJsonData in *. cbn [JS.truthy negb orb] in *.
  destruct (Nat.eqb (String.length (JS.trim (String c' text))) 0) eqn:Et;
    [left; now cbn|].
  destruct (JSON_parse_targets env (String c' text)) as [[|[|x raw]]|e] eqn:Ej;
    try (left; now cbn).
  right. exists r, (String c' text), (x :: raw).
  split; [rewrite Ep; discriminate|]. split; [eauto|]. split; [reflexivity|].
  split; [exact Ee|]. split; [exact Ed|]. split; [discriminate|].
  split; [intros Hb; apply length_zero_empty in Hb; congruence|].
  split; [exact Ej|]. split; [discriminate|reflexivity].
Qed.

Lemma createTestTargets_Published rawTargets count this w :
  let r := TestAdapter.createTestTargets rawTargets count this w in
  Forall (Published (TestAdapter.base (snd (fst r)))) (fst (fst r))
  /\ Later (TestAdapter.base this) (TestAdapter.base (snd (fst r)))
  /\ heap (snd r) = heap w.
Proof.
  cbv zeta. destruct rawTargets as [|x raw].
  - cbn. split; [constructor|]. split; [apply Later_refl|reflexivity].
  - destruct (createTestTargets_fold (x :: raw) count this w)
      as (w1 & w2 & a & -> & -> & H1 & H2); [discriminate|].
    cbn [fst snd TestAdapter.base].
    destruct (eachTestTarget_fold (TestAdapter._id this) (x :: raw)
                (seq 0 (effectiveCount count)) [] (TestAdapter.base this) w1)
      as (L & H & added & E & P & _).
    rewrite E, app_nil_l. split; [exact P|]. split; [exact L|]. congruence.
Qed.

End TestFixture.

(** X24: with a usable fixture whose entries are all there,
    [TestAdapter.getTargets] resolves to exactly ten descriptors, each
    published by the adapter: registered with it under its id, and with
    a session address that leads through the proxy to the adapter. *)
Theorem TestAdapter_getTargets_ten env fs this w text xs :
  Fixture env fs (TestAdapter._jsonPath this) text (Some <$> xs) ->
  let r := TestAdapter.getTargets env fs this w in
  length (fst (fst r)) = 10
  /\ Forall (Published (TestAdapter.base (snd (fst r)))) (fst (fst r)).
Proof.
  intros [Hp [u Ha] Hr Hb Hj Hne]. cbv zeta.
  assert (Hx : xs <> []) by (intros ->; now apply Hne).
  destruct (TestAdapter_getTargets_cases env fs this w)
    as [(E & _)|(r & text' & raw & _ & _ & Hr' & _ & Hd & _ & _ & Hj' & _ & ->)].
  - exfalso. revert E. unfold TestAdapter.getTargets, TestAdapter.fileExists.
    assert (Tp : JS.truthy (TestAdapter._jsonPath this) = true)
      by (destruct (TestAdapter._jsonPath this); [contradiction|reflexivity]).
    rewrite Tp, Ha. unfold TestAdapter.readJsonFile. rewrite Hr.
    unfold TestAdapter.onRead. cbn [readError readData negb].
    destruct text as [|c' text]; [now destruct Hb|].
    cbn [JS.truthy_opt JS.truthy negb].
    change (default "" (Some (String c' text))) with (String c' text).
    unfold TestAdapter.parseJsonData.
    cbn [JS.truthy negb orb].
    destruct (Nat.eqb _ 0) eqn:Et; [apply length_zero_empty in Et; contradiction|].
    rewrite Hj. destruct xs as [|x xs]; [contradiction|]. rewrite fmap_cons.
    intros E.
    pose proof (createTestTargets_all (x :: xs) 10 this w Hx) as F.
    rewrite fmap_cons, E in F. apply Forall2_length in F. discriminate.
  - rewrite Hr in Hr'. injection Hr' as <-. cbn [readData] in Hd.
    injection Hd as <-. rewrite Hj in Hj'. injection Hj' as <-.
    split.
    + pose proof (createTestTargets_all xs 10 this w Hx) as F.
      apply Forall2_length in F. now rewrite <- F.
    + apply createTestTargets_Published.
Qed.

(** A fixture of one page, and an installation whose parser reads it. *)
Lemma TestAdapter_getTargets_ten_witness :
  let env := serving [Some (page "a" "ws://localhost:9222/devtools/page/1")] in
  let fs := oneFile (TestAdapter._jsonPath testAdapter) "[{}]" in
  let r := TestAdapter.getTargets env fs testAdapter empty_world in
  length (fst (fst r)) = 10
  /\ Forall (Published (TestAdapter.base (snd (fst r)))) (fst (fst r)).
Proof.
  apply (TestAdapter_getTargets_ten
           (serving [Some (page "a" "ws://localhost:9222/devtools/page/1")])
           (oneFile (TestAdapter._jsonPath testAdapter) "[{}]") testAdapter empty_world
           "[{}]" [page "a" "ws://localhost:9222/devtools/page/1"]).
  constructor.
  - discriminate.
  - exists tt. reflexivity.
  - reflexivity.
  - discriminate.
  - reflexivity.
  - discriminate.
Defined.

(** X25: with a fixture it cannot use (no path, no file, a read that
    fails, is late or hands back nothing, a text that is blank, is not
    JSON, is not an array or is the empty array),
    [TestAdapter.getTargets] resolves to no descriptor and leaves the
    adapter and the sessions as they were. *)
Theorem TestAdapter_getTargets_unusable env fs this w :
  Unusable env fs (TestAdapter._jsonPath this) ->
  let r := TestAdapter.getTargets env fs this w in
  fst (fst r) = [] /\ snd (fst r) = this /\ heap (snd r) = heap w.
Proof.
  intros U. cbv zeta.
  destruct (TestAdapter_getTargets_cases env fs this w)
    as [Done|(r & text & raw & Hp & [u Ha] & Hr & He & Hd & Ht & Hb & Hj & Hne & _)];
    [exact Done|].
  exfalso.
  destruct U as [P|e A|e R|late R|r' e R E|r' R D|r' data R D B
                |r' data e R D J|r' data R D J|r' data R D J];
    try congruence.
  rewrite Hr in R. injection R as <-. rewrite Hd in D.
  destruct text; [contradiction|discriminate].
Qed.

(** An installation whose fixture is not where the adapter looks. *)
Lemma TestAdapter_getTargets_unusable_witness :
  let r := TestAdapter.getTargets offline (oneFile "/tmp/other.json" "[]") testAdapter
             empty_world in
  fst (fst r) = [] /\ snd (fst r) = testAdapter /\ heap (snd r) = heap empty_world.
Proof.
  apply (TestAdapter_getTargets_unusable offline (oneFile "/tmp/other.json" "[]")
           testAdapter empty_world).
  apply (unusable_missing _ _ _ "ENOENT"). reflexivity.
Defined.

(** X26: a descriptor the test adapter hands back can be connected to:
    with its id, a socket and a bridge that connects, [connectTo] on the
    adapter as [getTargets] left it hands out a session. *)
Theorem TestAdapter_target_connects env fs this w env' ws x targetId :
  In x (fst (fst (TestAdapter.getTargets env fs this w))) ->
  ITarget.id x = Some targetId ->
  (forall url e, bridge env' url ws <> Throws e) ->
  exists session,
    fst (fst (Adapter.connectTo env' targetId (Some ws)
                (TestAdapter.base (snd (fst (TestAdapter.getTargets env fs this w))))
                (snd (TestAdapter.getTargets env fs this w)))) = Some session.
Proof.
  intros Hin Hid Hb.
  assert (P : Forall (Published
                        (TestAdapter.base (snd (fst (TestAdapter.getTargets env fs this w)))))
                (fst (fst (TestAdapter.getTargets env fs this w)))).
  { destruct (TestAdapter_getTargets_cases env fs this w)
      as [(-> & _)|(r & text & raw & _ & _ & _ & _ & _ & _ & _ & _ & _ & ->)];
      [constructor|apply createTestTargets_Published]. }
  rewrite Forall_forall in P.
  destruct (P x) as (tid & Hne & Hid' & _ & _ & [data Hd]); [now apply list_elem_of_In|].
  assert (tid = targetId) by congruence. subst tid.
  unfold Adapter.connectTo. destruct targetId; [contradiction|]. cbn [JS.truthy negb].
  rewrite Hd. destruct (Adapter._targetMap _ !! _); [simpl; eauto|].
  destruct (bridge env' _ ws) as [[]|e] eqn:E; [simpl; eauto|].
  now destruct (Hb _ _ E).
Qed.

(** The first copy of a fixture of one page, then a connection to it. *)
Lemma TestAdapter_target_connects_witness :
  let env := serving [Some (page "a" "ws://localhost:9222/devtools/page/1")] in
  let fs := oneFile (TestAdapter._jsonPath testAdapter) "[{}]" in
  let r := TestAdapter.getTargets env fs testAdapter empty_world in
  exists session,
    fst (fst (Adapter.connectTo offline "a_test_0" (Some 7)
                (TestAdapter.base (snd (fst r))) (snd r))) = Some session.
Proof.
  intros env fs r.
  assert (Hid : head (fst (fst r)) ≫= ITarget.id = Some "a_test_0")
    by (vm_compute; reflexivity).
  destruct (fst (fst r)) as [|x l] eqn:E; [discriminate Hid|].
  refine (TestAdapter_target_connects env fs testAdapter empty_world offline 7 x "a_test_0"
            _ Hid _).
  - fold r. rewrite E. now left.
  - intros url e. discriminate.
Defined.



Section Refresh.

Lemma forceRefresh_quiet env a w :
  fst (Adapter.forceRefresh env a w) = a
  /\ heap (snd (Adapter.forceRefresh env a w)) = heap w
  /\ exists events,
       trace (snd (Adapter.forceRefresh env a w)) = (trace w ++ events)%list
       /\ Forall launchesNothing events.
Proof.
  assert (Q : exists events, trace w = (trace w ++ events)%list
                             /\ Forall launchesNothing events).
  { exists []. rewrite app_nil_r. split; [reflexivity|constructor]. }
  unfold Adapter.forceRefresh.
  destruct (Adapter._proxyProc a) as [p|] eqn:Ep; [|simpl; auto].
  destruct (IAdapterOptions.proxyExePath (Adapter._options a)) as [path|]; [|simpl; auto].
  destruct (IAdapterOptions.proxyExeArgs (Adapter._options a)) as [args|]; [|simpl; auto].
  destruct (JS.truthy path); [|simpl; auto].
  unfold Adapter.refreshProcess, Adapter.spawnProcess. rewrite Ep. cbn [fst snd].
  split; [reflexivity|]. split; [reflexivity|].
  unfold Logger_error, emit. cbn [trace heap]. rewrite <- !app_assoc.
  eexists. split; [reflexivity|].
  repeat (constructor; [intros ? ?; discriminate|]). constructor.
Qed.

Lemma eachRefresh_quiet env this_id (adapters : list (string * option Adapter.t)) w :
  fst (AdapterCollection.eachRefresh env this_id adapters w) = adapters
  /\ heap (snd (AdapterCollection.eachRefresh env this_id adapters w)) = heap w
  /\ exists events,
       trace (snd (AdapterCollection.eachRefresh env this_id adapters w))
       = (trace w ++ events)%list
       /\ Forall launchesNothing events.
Proof.
  revert w. induction adapters as [|[adapterId [adapter|]] rest IH]; intros w.
  - cbn. split; [reflexivity|]. split; [reflexivity|]. exists [].
    rewrite app_nil_r. split; [reflexivity|constructor].
  - cbn [AdapterCollection.eachRefresh AdapterCollection.child_forceRefresh Adapter_Managed].
    destruct (forceRefresh_quiet env adapter w) as (Ea & Eh & events & Et & Q).
    destruct (Adapter.forceRefresh env adapter w) as [adapter' w1].
    cbn [fst snd] in Ea, Eh, Et. subst adapter'.
    destruct (IH w1) as (Er & Eh' & events' & Et' & Q').
    destruct (AdapterCollection.eachRefresh env this_id rest w1) as [rest' w2].
    cbn [fst snd] in *. subst rest'. split; [reflexivity|]. split; [congruence|].
    exists (events ++ events')%list. rewrite Et', Et, <- app_assoc.
    split; [reflexivity|]. apply Forall_app. now split.
  - cbn [AdapterCollection.eachRefresh].
    destruct (IH w) as (Er & Eh' & events' & Et' & Q').
    destruct (AdapterCollection.eachRefresh env this_id rest w) as [rest' w2].
    cbn [fst snd] in *. subst rest'. split; [reflexivity|]. split; [exact Eh'|].
    exists events'. now split.
Qed.

End Refresh.

(** X28: [forceRefresh()] on a collection of plain adapters restarts
    nothing: the collection and every adapter in it are as they were,
    no session is touched, and no process is launched. *)
Theorem Collection_forceRefresh_never_relaunches env (c : AdapterCollection.t Adapter.t) w :
  let after := AdapterCollection.forceRefresh env c w in
  fst after = c
  /\ heap (snd after) = heap w
  /\ exists events,
       trace (snd after) = (trace w ++ events)%list /\ Forall launchesNothing events.
Proof.
  cbv zeta. unfold AdapterCollection.forceRefresh.
  destruct (forceRefresh_quiet env (AdapterCollection.base c) w) as (Ea & Eh & events & Et & Q).
  destruct (Adapter.forceRefresh env (AdapterCollection.base c) w) as [base' w1].
  cbn [fst snd] in Ea, Eh, Et. subst base'.
  destruct (eachRefresh_quiet env (Adapter._id (AdapterCollection.base c))
              (AdapterCollection._adapters c) w1) as (Er & Eh' & events' & Et' & Q').
  destruct (AdapterCollection.eachRefresh env _ _ w1) as [adapters w2].
  cbn [fst snd] in *. subst adapters. split; [now destruct c|]. split; [congruence|].
  exists (events ++ events')%list. rewrite Et', Et, <- app_assoc.
  split; [reflexivity|]. apply Forall_app. now split.
Qed.
